(** * The idea generator: generate, evaluate, improve

    A shallow embedding of [script.py] and [my_openai.py]: the fence
    stripping of model replies, the conversion between idea objects and
    their JSON form, the evaluation of a batch and the bounded refinement
    loop of [generate_ideas].

    Conventions of the embedding.
    - A Python [str] is a [string] whose characters are the code points
      below 256; [is_space] is [str.isspace] on that range.
    - The value returned by [json.loads] is a [pyval].  [json.loads] itself
      is library code: it is a parameter [json_loads] of the development
      ([None] stands for a raised [json.JSONDecodeError]).
    - [IdeaItem] objects are mutable and shared between lists, so they live
      in a heap and the lists hold references.
      A reference is an index of the heap; the program only holds
      references it was given by an allocation, and a read outside the heap
      answers an object of [None]s.
    - The text-generation backend is an arbitrary sequence of replies, one
      per call of [OpenAIClient.query]; [None] is an absent content. The
      prompts depend on the run but the run depends on the replies only, so
      a sequence covers a backend that looks at its prompts.
    - Exceptions are outcomes: [Raised e] leaves a function unless a
      handler of the source catches [e].  [OutOfFuel] is the outcome of a
      loop cut by the recursion bound of the model; [generate_ideas] is
      proved never to have it. *)

From Stdlib Require Import Ascii String ZArith Lia.
From stdpp Require Import base list strings.

(** ** Strings as Python has them *)

Module PyStr.

(** [str.isspace] for one character with code below 256. *)
Definition is_space (c : ascii) : bool :=
  let n := nat_of_ascii c in
  ((9 <=? n) && (n <=? 13)) || ((28 <=? n) && (n <=? 32))
  || (n =? 133) || (n =? 160).

Fixpoint lstrip (s : string) : string :=
  match s with
  | EmptyString => EmptyString
  | String c s' => if is_space c then lstrip s' else s
  end.

Fixpoint rstrip (s : string) : string :=
  match s with
  | EmptyString => EmptyString
  | String c s' =>
      match rstrip s' with
      | EmptyString => if is_space c then EmptyString else String c EmptyString
      | r => String c r
      end
  end.

(** [s.strip()] *)
Definition strip (s : string) : string := lstrip (rstrip s).

(** The last character, to speak of the end of a stripped text. *)
Fixpoint last_char (s : string) : option ascii :=
  match s with
  | EmptyString => None
  | String c EmptyString => Some c
  | String _ s' => last_char s'
  end.

(** [s.startswith(p)] *)
Definition startswith (s p : string) : bool := String.prefix p s.

(** [s.endswith(p)] *)
Definition endswith (s p : string) : bool :=
  (String.length p <=? String.length s)
  && String.eqb
       (String.substring (String.length s - String.length p) (String.length p) s) p.

(** [s[a:-b]] for a literal [a >= 0] and a literal [b > 0]: the slice is
    empty when the two cuts meet or cross. *)
Definition slice (a b : nat) (s : string) : string :=
  String.substring a (String.length s - b - a) s.

End PyStr.

(** ** [clean_json_response] *)

Definition clean_json_response (response : string) : string :=
  if PyStr.startswith response "```json" && PyStr.endswith response "```" then
    PyStr.strip (PyStr.slice 7 3 response)
  else if PyStr.startswith response "```" && PyStr.endswith response "```" then
    PyStr.strip (PyStr.slice 3 3 response)
  else response.

(** ** Values, objects and effects *)

(** What [json.loads] returns. A [dict] keeps its keys in insertion order and
    holds each key once; [dict_get] reads the first binding of a key. *)
#[warnings="-register-all"]
Inductive pyval : Type :=
| PNone
| PBool (b : bool)
| PInt (z : Z)
| PFloat (repr : string)
| PStr (s : string)
| PList (l : list pyval)
| PDict (d : list (string * pyval)).

Fixpoint dict_get (d : list (string * pyval)) (key : string) (default : pyval) : pyval :=
  match d with
  | [] => default
  | (k, v) :: d' => if String.eqb k key then v else dict_get d' key default
  end.

(** [v == s] for a string literal [s]. *)
Definition py_eq_str (v : pyval) (s : string) : bool :=
  match v with
  | PStr t => String.eqb t s
  | _ => false
  end.

(** The elements [iter(v)] yields, when [v] is iterable: a list yields its
    items, a dict its keys, a string its characters. *)
Fixpoint chars (s : string) : list pyval :=
  match s with
  | EmptyString => []
  | String c s' => PStr (String c EmptyString) :: chars s'
  end.

Definition py_iter (v : pyval) : option (list pyval) :=
  match v with
  | PList l => Some l
  | PDict d => Some ((fun kv => PStr (fst kv)) <$> d)
  | PStr s => Some (chars s)
  | _ => None
  end.

Definition is_dict (v : pyval) : bool :=
  match v with PDict _ => true | _ => false end.

(** class IdeaItem; [rating] is [None] until an evaluation sets it. *)
Record IdeaItem : Type := mkIdeaItem {
  title : pyval;
  description : pyval;
  rating : pyval
}.

#[export] Instance IdeaItem_inhabited : Inhabited IdeaItem :=
  populate (mkIdeaItem PNone PNone PNone).

(** A reference to an [IdeaItem] object: its index in the heap. *)
Abbreviation ref := nat (only parsing).

Inductive exn : Type :=
| BackendError      (* Exception("OpenAI API returned None") *)
| JSONDecodeError
| AttributeError
| TypeError
| IndexError.

(** The user message of a query: only the data that is interpolated into
    the prompt text is kept. *)
Inductive prompt : Type :=
| GenerationPrompt
| EvaluationPrompt (ideas_json : pyval)
| ImprovementPrompt (good_ideas_json weak_ideas_json : pyval).

(** The records of [generate_ideas] that tell its passes and its exits
    apart; the progress messages and the records of the callees are not
    kept. *)
Inductive event : Type :=
| LogAttempt (attempts : nat)    (* "--- Attempt {attempts} of {max_attempts} ---" *)
| LogInitialParseFailed          (* "Failed to parse initial ideas. Retrying..." *)
| LogImprovedParseFailed         (* "Failed to parse improved ideas. Retrying..." *)
| LogAllGood                     (* "All ideas are Good enough!" *)
| LogMaxAttempts.                (* "Reached maximum attempts. ..." *)

(** The world a run acts on. [accepted] is a history variable: it records, in
    order, every object appended to [good_enough_ideas]. *)
Record World : Type := mkWorld {
  sent : list prompt;
  heap : list IdeaItem;
  log : list event;
  accepted : list ref
}.

Definition world0 : World := mkWorld [] [] [] [].

Inductive outcome (A : Type) : Type :=
| Returned (a : A)
| Raised (e : exn)
| OutOfFuel.
Arguments Returned {A} a.
Arguments Raised {A} e.
Arguments OutOfFuel {A}.

Definition M (A : Type) : Type := World -> outcome A * World.

Definition ret {A} (a : A) : M A := fun w => (Returned a, w).

Definition raise {A} (e : exn) : M A := fun w => (Raised e, w).

Definition bind {A B} (m : M A) (k : A -> M B) : M B :=
  fun w =>
    match m w with
    | (Returned a, w') => k a w'
    | (Raised e, w') => (Raised e, w')
    | (OutOfFuel, w') => (OutOfFuel, w')
    end.

Notation "'do' x <- m ; k" := (bind m (fun x => k))
  (at level 10, x name, m at level 100, k at level 200).
Notation "m ;; k" := (bind m (fun _ => k))
  (at level 100, k at level 200, right associativity).

(** [try: body  except json.JSONDecodeError: handler] *)
Definition try_except_JSONDecodeError {A} (body handler : M A) : M A :=
  fun w =>
    match body w with
    | (Raised JSONDecodeError, w') => handler w'
    | r => r
    end.

Definition get_heap : M (list IdeaItem) := fun w => (Returned (heap w), w).

Definition logging (e : event) : M unit :=
  fun w => (Returned tt, mkWorld (sent w) (heap w) (log w ++ [e]) (accepted w)).

(** [IdeaItem(title, description)]: a new object, whose reference is returned. *)
Definition new_IdeaItem (t d : pyval) : M ref :=
  fun w => (Returned (length (heap w)),
            mkWorld (sent w) (heap w ++ [mkIdeaItem t d PNone]) (log w) (accepted w)).

Definition with_rating (v : pyval) (it : IdeaItem) : IdeaItem :=
  mkIdeaItem (title it) (description it) v.

(** [idea.rating = v] *)
Definition set_rating (idea : ref) (v : pyval) : M unit :=
  fun w => (Returned tt,
            mkWorld (sent w) (alter (with_rating v) idea (heap w)) (log w) (accepted w)).

(** The history side of [good_enough_ideas.append(idea)]. *)
Definition note_accepted (idea : ref) : M unit :=
  fun w => (Returned tt,
            mkWorld (sent w) (heap w) (log w) (accepted w ++ [idea])).

(** [obj.get(key, default)]: only a dict has the method. *)
Definition py_get (obj : pyval) (key : string) (default : pyval) : M pyval :=
  match obj with
  | PDict d => ret (dict_get d key default)
  | _ => raise AttributeError
  end.

(** [iter(v)], as the [for] statement and [zip] call it. *)
Definition iter (v : pyval) : M (list pyval) :=
  match py_iter v with
  | Some l => ret l
  | None => raise TypeError
  end.

(** [l[idx]] *)
Definition py_index (l : list ref) (idx : nat) : M ref :=
  match l !! idx with
  | Some r => ret r
  | None => raise IndexError
  end.

Definition run {A} (m : M A) (w : World) : outcome A * World := m w.

(** ** The program *)

Definition good_enough : string := "Good enough".
Definition needs_improvement : string := "Needs improvement".

(** The local variables of [generate_ideas]. *)
Record Frame : Type := mkFrame {
  attempts : nat;
  good_enough_ideas : list ref;
  needs_improvement_ideas : list ref
}.

(** How one pass through the body of the [while] loop ends: at the loop head
    again ([continue], or the end of the body), or at a [return]. *)
Inductive ctrl : Type :=
| Continue (f : Frame)
| Return (f : Frame) (result : list ref).

(** The locals at the end of a pass. *)
Definition ctrl_frame (c : ctrl) : Frame :=
  match c with
  | Continue f => f
  | Return f _ => f
  end.

Definition max_attempts : nat := 5.

Definition frame0 : Frame := mkFrame 0 [] [].

(** [ideas_to_json] on a given heap. *)
Definition idea_to_json (h : list IdeaItem) (idea : ref) : pyval :=
  PDict [("title", title (h !!! idea)); ("description", description (h !!! idea))].

Definition ideas_to_json_in (h : list IdeaItem) (ideas : list ref) : pyval :=
  PList (idea_to_json h <$> ideas).

Definition ideas_to_json (ideas : list ref) : M pyval :=
  do h <- get_heap; ret (ideas_to_json_in h ideas).

(** [idea.rating == "Needs improvement"] on a given heap. *)
Definition is_weak (h : list IdeaItem) (idea : ref) : bool :=
  py_eq_str (rating (h !!! idea)) needs_improvement.

(** The body of the [for] loop of [parse_ideas]. *)
Fixpoint parse_ideas_loop (json_ideas : list pyval) (idea_items : list ref)
  : M (list ref) :=
  match json_ideas with
  | [] => ret idea_items
  | idea_dict :: rest =>
      do t <- py_get idea_dict "title" (PStr "");
      do d <- py_get idea_dict "description" (PStr "");
      do item <- new_IdeaItem t d;
      parse_ideas_loop rest (idea_items ++ [item])
  end.

Definition parse_ideas (json_ideas : pyval) : M (list ref) :=
  do elems <- iter json_ideas;
  parse_ideas_loop elems [].

(** [for idea in ideas: idea.rating = "Needs improvement"] *)
Fixpoint mark_all (ideas : list ref) : M unit :=
  match ideas with
  | [] => ret tt
  | idea :: rest => set_rating idea (PStr needs_improvement) ;; mark_all rest
  end.

(** [for idea_item, rating_obj in zip(ideas, ratings_data)] of
    [evaluate_ideas]; the reason is read and only logged. *)
Fixpoint rate_loop (pairs : list (ref * pyval)) (bool_results : list bool)
  : M (list bool) :=
  match pairs with
  | [] => ret bool_results
  | (idea_item, rating_obj) :: rest =>
      do r <- py_get rating_obj "rating" (PStr needs_improvement);
      do reason <- py_get rating_obj "reason" (PStr "");
      set_rating idea_item r ;;
      rate_loop rest (bool_results ++ [py_eq_str r good_enough])
  end.

(** [for idx, is_good in enumerate(evaluation_results)] of [generate_ideas]. *)
Fixpoint sort_loop (evaluation_results : list bool) (idx : nat)
    (needs good : list ref) : M (list ref) :=
  match evaluation_results with
  | [] => ret good
  | is_good :: rest =>
      do idea <- py_index needs idx;
      if is_good then
        note_accepted idea ;;
        sort_loop rest (S idx) needs (good ++ [idea])
      else
        set_rating idea (PStr needs_improvement) ;;
        sort_loop rest (S idx) needs good
  end.

Section Program.

(** [json.loads]; [None] is a raised [json.JSONDecodeError]. *)
Variable json_loads : string -> option pyval.

(** The replies of the backend: [backend n] is the content of the reply to
    the call number [n], [None] when the content is absent. *)
Variable backend : nat -> option string.

Definition loads (s : string) : M pyval :=
  match json_loads s with
  | Some v => ret v
  | None => raise JSONDecodeError
  end.

(** [OpenAIClient.query] *)
Definition query (system_message : string) (user_message : prompt) : M string :=
  fun w =>
    let response := backend (length (sent w)) in
    let w' := mkWorld (sent w ++ [user_message]) (heap w) (log w) (accepted w) in
    match response with
    | None => (Raised BackendError, w')
    | Some text => (Returned text, w')
    end.

Definition evaluate_ideas (ideas : list ref) : M (list bool) :=
  let system_message :=
    "You are a helpful assistant that evaluates the quality of brainstorming ideas." in
  do ideas_json <- ideas_to_json ideas;
  do evaluation_response <- query system_message (EvaluationPrompt ideas_json);
  do parsed <- try_except_JSONDecodeError
                 (do ratings_data <- loads (clean_json_response evaluation_response);
                  ret (Some ratings_data))
                 (ret None);
  match parsed with
  | None =>
      mark_all ideas ;;
      ret (replicate (length ideas) false)
  | Some ratings_data =>
      do ratings <- iter ratings_data;
      rate_loop (zip ideas ratings) []
  end.

Definition generation_system_message : string :=
  "You are a helpful assistant that excels in generating ideas and brainstorming.".

(** Step 1 of the loop body: [None] stands for the [continue] of the handler. *)
Definition generate_initial (needs : list ref) : M (option (list ref)) :=
  do raw_generation_response <- query generation_system_message GenerationPrompt;
  try_except_JSONDecodeError
    (do json_list <- loads (clean_json_response raw_generation_response);
     do all_ideas <- parse_ideas json_list;
     ret (Some (needs ++ all_ideas)))
    (logging LogInitialParseFailed ;; ret None).

(** Step 2: evaluate, move the good ideas, keep the weak ones. *)
Definition evaluate_and_sort (good needs : list ref) : M (list ref * list ref) :=
  do evaluation_results <- evaluate_ideas needs;
  do good' <- sort_loop evaluation_results 0 needs good;
  do h <- get_heap;
  ret (good', filter (fun idea => is_weak h idea = true) needs).

(** Step 3: [None] stands for the [continue] of the handler. *)
Definition improve (good needs : list ref) : M (option (list ref)) :=
  do weak_ideas_json <- ideas_to_json needs;
  do good_ideas_json <- ideas_to_json good;
  do improve_response <-
    query generation_system_message (ImprovementPrompt good_ideas_json weak_ideas_json);
  try_except_JSONDecodeError
    (do improved_list <- loads (clean_json_response improve_response);
     do improved_ideas <- parse_ideas improved_list;
     ret (Some improved_ideas))
    (logging LogImprovedParseFailed ;; ret None).

Definition is_empty (l : list ref) : bool :=
  match l with [] => true | _ => false end.

(** Steps 3 and 4: improve what is still weak, then test for the end. *)
Definition improve_and_check (attempts : nat) (good needs : list ref) : M ctrl :=
  do improved <- (if is_empty needs then ret (Some needs) else improve good needs);
  match improved with
  | None => ret (Continue (mkFrame attempts good needs))
  | Some needs' =>
      if is_empty needs' then
        logging LogAllGood ;;
        ret (Return (mkFrame attempts good needs') good)
      else ret (Continue (mkFrame attempts good needs'))
  end.

(** One pass through the body of [while attempts < max_attempts]. *)
Definition loop_body (f : Frame) : M ctrl :=
  let attempts := attempts f + 1 in
  logging (LogAttempt attempts) ;;
  do generated <-
    (if is_empty (good_enough_ideas f) && is_empty (needs_improvement_ideas f)
     then generate_initial (needs_improvement_ideas f)
     else ret (Some (needs_improvement_ideas f)));
  match generated with
  | None => ret (Continue (mkFrame attempts (good_enough_ideas f) (needs_improvement_ideas f)))
  | Some needs1 =>
      do sorted <-
        (if is_empty needs1 then ret (good_enough_ideas f, needs1)
         else evaluate_and_sort (good_enough_ideas f) needs1);
      improve_and_check attempts (fst sorted) (snd sorted)
  end.

(** The [while] loop. It returns the locals at the exit with the result. *)
Fixpoint while_loop (fuel : nat) (f : Frame) : M (Frame * list ref) :=
  match fuel with
  | 0 => fun w => (OutOfFuel, w)
  | S fuel' =>
      if attempts f <? max_attempts then
        do c <- loop_body f;
        match c with
        | Continue f' => while_loop fuel' f'
        | Return f' result => ret (f', result)
        end
      else
        logging LogMaxAttempts ;;
        ret (f, good_enough_ideas f ++ needs_improvement_ideas f)
  end.

Definition generate_ideas : M (list ref) :=
  do exit <- while_loop (S max_attempts) frame0;
  ret (snd exit).

End Program.

(** ** A decoder for the examples

    A reader of JSON texts made of [null], [true], [false], integers,
    strings with the simple escapes, arrays and objects. It is used to run
    the program on concrete replies; the theorems hold for every
    [json_loads]. *)

Module JsonText.

Definition is_ws (c : ascii) : bool :=
  let n := nat_of_ascii c in (n =? 32) || (n =? 9) || (n =? 10) || (n =? 13).

Definition is_digit (c : ascii) : bool :=
  let n := nat_of_ascii c in (48 <=? n) && (n <=? 57).

Fixpoint skip_ws (s : string) : string :=
  match s with
  | String c s' => if is_ws c then skip_ws s' else s
  | EmptyString => EmptyString
  end.

(** [expect lit s]: [s] without its prefix [lit]. *)
Fixpoint expect (lit s : string) : option string :=
  match lit, s with
  | EmptyString, _ => Some s
  | String a lit', String b s' => if Ascii.eqb a b then expect lit' s' else None
  | _, _ => None
  end.

Fixpoint digits (s : string) (acc : Z) : Z * string :=
  match s with
  | String c s' =>
      if is_digit c then digits s' (10 * acc + Z.of_nat (nat_of_ascii c - 48))%Z
      else (acc, s)
  | EmptyString => (acc, s)
  end.

Definition dquote : ascii := ascii_of_nat 34.
Definition backslash : ascii := ascii_of_nat 92.

Definition unescape (e : ascii) : option ascii :=
  match nat_of_ascii e with
  | 34 => Some dquote
  | 92 => Some backslash
  | 47 => Some "/"%char
  | 110 => Some (ascii_of_nat 10)
  | 116 => Some (ascii_of_nat 9)
  | 114 => Some (ascii_of_nat 13)
  | 98 => Some (ascii_of_nat 8)
  | 102 => Some (ascii_of_nat 12)
  | _ => None
  end.

Definition push (c : ascii) (r : option (string * string)) : option (string * string) :=
  match r with
  | Some (t, rest) => Some (String c t, rest)
  | None => None
  end.

(** The characters of a string literal, after its opening quote; [escaped]
    tells that the previous character was a backslash. *)
Fixpoint string_body (escaped : bool) (s : string) : option (string * string) :=
  match s with
  | EmptyString => None
  | String c rest =>
      if escaped then
        match unescape c with
        | Some c' => push c' (string_body false rest)
        | None => None
        end
      else if Ascii.eqb c dquote then Some (EmptyString, rest)
      else if Ascii.eqb c backslash then string_body true rest
      else if nat_of_ascii c <? 32 then None
      else push c (string_body false rest)
  end.

(** [d[k] = v] *)
Fixpoint dict_set (d : list (string * pyval)) (k : string) (v : pyval)
  : list (string * pyval) :=
  match d with
  | [] => [(k, v)]
  | (k', v') :: d' =>
      if String.eqb k' k then (k', v) :: d' else (k', v') :: dict_set d' k v
  end.

Definition number (negative : bool) (s : string) : option (pyval * string) :=
  match s with
  | String c _ =>
      if is_digit c then
        let '(z, rest) := digits s 0 in
        Some (PInt (if negative then - z else z), rest)
      else None
  | EmptyString => None
  end.

Definition keyword (s : string) : option (pyval * string) :=
  match expect "null" s, expect "true" s, expect "false" s with
  | Some rest, _, _ => Some (PNone, rest)
  | _, Some rest, _ => Some (PBool true, rest)
  | _, _, Some rest => Some (PBool false, rest)
  | _, _, _ => None
  end.

Fixpoint value (fuel : nat) (s : string) {struct fuel} : option (pyval * string) :=
  match fuel with
  | 0 => None
  | S n =>
      match skip_ws s with
      | EmptyString => None
      | String c rest =>
          if Ascii.eqb c dquote then
            match string_body false rest with
            | Some (t, rest') => Some (PStr t, rest')
            | None => None
            end
          else
            match c with
            | "["%char =>
                match skip_ws rest with
                | String "]" rest' => Some (PList [], rest')
                | _ => match elements n rest [] with
                       | Some (l, rest') => Some (PList l, rest')
                       | None => None
                       end
                end
            | "{"%char =>
                match skip_ws rest with
                | String "}" rest' => Some (PDict [], rest')
                | _ => match members n rest [] with
                       | Some (d, rest') => Some (PDict d, rest')
                       | None => None
                       end
                end
            | "-"%char => number true rest
            | _ => if is_digit c then number false (String c rest)
                   else keyword (String c rest)
            end
      end
  end
with elements (fuel : nat) (s : string) (acc : list pyval) {struct fuel}
  : option (list pyval * string) :=
  match fuel with
  | 0 => None
  | S n =>
      match value n s with
      | Some (v, rest) =>
          match skip_ws rest with
          | String "," rest' => elements n rest' (acc ++ [v])
          | String "]" rest' => Some (acc ++ [v], rest')
          | _ => None
          end
      | None => None
      end
  end
with members (fuel : nat) (s : string) (acc : list (string * pyval)) {struct fuel}
  : option (list (string * pyval) * string) :=
  match fuel with
  | 0 => None
  | S n =>
      match skip_ws s with
      | String c rest =>
          if Ascii.eqb c dquote then
            match string_body false rest with
            | Some (k, rest1) =>
                match skip_ws rest1 with
                | String ":" rest2 =>
                    match value n rest2 with
                    | Some (v, rest3) =>
                        match skip_ws rest3 with
                        | String "," rest4 => members n rest4 (dict_set acc k v)
                        | String "}" rest4 => Some (dict_set acc k v, rest4)
                        | _ => None
                        end
                    | None => None
                    end
                | _ => None
                end
            | None => None
            end
          else None
      | EmptyString => None
      end
  end.

(** The whole text must be one value, with white space around it at most. *)
Definition json_loads (s : string) : option pyval :=
  match value (2 * String.length s + 2) s with
  | Some (v, rest) =>
      match skip_ws rest with
      | EmptyString => Some v
      | _ => None
      end
  | None => None
  end.

(** To write a JSON text in an example: every ['] stands for a double quote. *)
Fixpoint dq (s : string) : string :=
  match s with
  | EmptyString => EmptyString
  | String c s' => String (if Ascii.eqb c "'"%char then dquote else c) (dq s')
  end.

End JsonText.

(** ** The words of the specification *)

Module Spec.

Definition newline : string := String (ascii_of_nat 10) EmptyString.

(** A text fully wrapped in a fenced code block whose opening fence carries
    the language tag [tag] (the empty tag is a bare fence). *)
Definition fenced (tag body : string) : string :=
  "```" +:+ tag +:+ newline +:+ body +:+ newline +:+ "```".

(** The gateway's "no usable content": an absent or an empty reply. *)
Definition no_usable_content (reply : option string) : Prop :=
  reply = None \/ reply = Some "".

(** Items as the specification counts them in a result, by what they say:
    no two ideas of [res] have the same title and the same description. *)
Definition no_duplicate_items (h : list IdeaItem) (res : list ref) : Prop :=
  NoDup ((fun r => (title (h !!! r), description (h !!! r))) <$> res).

End Spec.

(** The backend of an example: the listed replies in order, and no content
    for any later call. *)
Definition replies (l : list (option string)) : nat -> option string :=
  fun n => default None (l !! n).

(** ** What the loops compute

    Closed forms of the [for] loops, used to state their effect. *)

(** [obj.get(key, default)] when [obj] is a dict. *)
Definition field (obj : pyval) (key : string) (default : pyval) : pyval :=
  match obj with
  | PDict d => dict_get d key default
  | _ => default
  end.

(** The object [parse_ideas] builds from one record. *)
Definition item_of (idea_dict : pyval) : IdeaItem :=
  mkIdeaItem (field idea_dict "title" (PStr ""))
             (field idea_dict "description" (PStr "")) PNone.

(** The rating [evaluate_ideas] reads from one verdict. *)
Definition verdict (rating_obj : pyval) : pyval :=
  field rating_obj "rating" (PStr needs_improvement).

(** A sequence of assignments [idea.rating = v], in order. *)
Definition write_ratings (writes : list (ref * pyval)) (h : list IdeaItem)
  : list IdeaItem :=
  foldl (fun h p => alter (with_rating (snd p)) (fst p) h) h writes.

(** The ideas [sort_loop] appends to [good_enough_ideas], and those it marks. *)
Definition picked (needs : list ref) (results : list bool) : list ref :=
  fst <$> filter (fun p => snd p = true) (zip needs results).

Definition rejected (needs : list ref) (results : list bool) : list ref :=
  fst <$> filter (fun p => snd p = false) (zip needs results).

(** What a callee may do to the world: [grows] lets it allocate objects,
    [same_size] does not; neither writes to the log or to the history. *)
Definition grows (w w' : World) : Prop :=
  log w' = log w /\ accepted w' = accepted w
  /\ length (heap w) <= length (heap w').

Definition same_size (w w' : World) : Prop :=
  log w' = log w /\ accepted w' = accepted w
  /\ length (heap w') = length (heap w).

(** The exceptions that are not [json.JSONDecodeError]. *)
Definition may_escape (e : exn) : Prop :=
  e = BackendError \/ e = AttributeError \/ e = TypeError.

(** The records of a parse failure. *)
Definition parse_failure (e : event) : Prop :=
  e = LogInitialParseFailed \/ e = LogImprovedParseFailed.

(** The attempt numbers written to the log. *)
Fixpoint attempts_logged (l : list event) : list nat :=
  match l with
  | [] => []
  | LogAttempt n :: l' => n :: attempts_logged l'
  | _ :: l' => attempts_logged l'
  end.

(** The locals agree with the world: the two lists hold distinct objects of
    the heap, and the history is [good_enough_ideas]. *)
Definition frame_ok (f : Frame) (w : World) : Prop :=
  NoDup (good_enough_ideas f ++ needs_improvement_ideas f)
  /\ (forall r, r ∈ good_enough_ideas f ++ needs_improvement_ideas f ->
                r < length (heap w))
  /\ accepted w = good_enough_ideas f.

(** ** Replies of the examples *)

Module Example.

Definition json_array (items : list string) : string :=
  "[" +:+ String.concat ", " items +:+ "]".

(** An idea with the title [t]. *)
Definition idea (t : string) : string :=
  JsonText.dq "{'title': '" +:+ t +:+ JsonText.dq "', 'description': 'd'}".

Definition good_verdict : string :=
  JsonText.dq "{'rating': 'Good enough', 'reason': 'r'}".

Definition weak_verdict : string :=
  JsonText.dq "{'rating': 'Needs improvement', 'reason': 'r'}".

(** A generation reply of eleven ideas. *)
Definition eleven_ideas : string :=
  json_array (idea <$> ["1"; "2"; "3"; "4"; "5"; "6"; "7"; "8"; "9"; "10"; "11"]).

(** An evaluation reply for eleven ideas: the first is good, ten are weak. *)
Definition one_good_ten_weak : string :=
  json_array (good_verdict :: replicate 10 weak_verdict).

(** A run in which the improvement reply is the empty array. *)
Definition empty_improvement : nat -> option string :=
  replies [Some eleven_ideas; Some one_good_ten_weak; Some "[]"].

(** A run in which the backend has no content for the improvement request. *)
Definition no_improvement : nat -> option string :=
  replies [Some (json_array [idea "1"]); Some (json_array [weak_verdict])].

(** A run whose generation reply is an array of strings. *)
Definition ideas_as_strings : nat -> option string :=
  replies [Some (JsonText.dq "['an idea', 'another idea']")].

(** A run in which no idea ever passes and every improvement is one idea. *)
Definition never_good : nat -> option string :=
  fun n => match n with
           | 0 => Some (json_array [idea "1"])
           | _ => if Nat.even n then Some (json_array [idea "2"])
                  else Some (json_array [weak_verdict])
           end.


(** A run in which the improvement of the weak idea repeats the good one,
    and the copy passes. *)
Definition copycat : nat -> option string :=
  replies [Some (json_array [idea "1"; idea "2"]);
           Some (json_array [good_verdict; weak_verdict]);
           Some (json_array [idea "1"]);
           Some (json_array [good_verdict])].

(** A run in which the first of two ideas passes at once and the other one
    and its improvements never do. *)
Definition one_good : nat -> option string :=
  fun n => match n with
           | 0 => Some (json_array [idea "1"; idea "2"])
           | 1 => Some (json_array [good_verdict; weak_verdict])
           | _ => if Nat.even n then Some (json_array [idea "3"])
                  else Some (json_array [weak_verdict])
           end.

End Example.

(** What holds when one pass through the loop body, or a part of it that
    starts after the records [pre] were logged, ends with [out]; [a] is the
    value of [attempts] during the pass. *)
Definition body_post (a : nat) (pre : list event) (w : World)
    (out : outcome ctrl) (w' : World) : Prop :=
  match out with
  | Returned (Continue f') =>
      frame_ok f' w' /\ attempts f' = a
      /\ exists es, log w' = log w ++ pre ++ es /\ Forall parse_failure es
  | Returned (Return f' r) =>
      frame_ok f' w' /\ attempts f' = a
      /\ r = good_enough_ideas f' /\ needs_improvement_ideas f' = []
      /\ log w' = log w ++ pre ++ [LogAllGood]
  | Raised e => log w' = log w ++ pre /\ may_escape e
  | OutOfFuel => False
  end.

(** What holds when the loop, entered with the locals [f], ends with [out]:
    it made [k] passes, logged their attempt numbers in order, and either
    left through the test of step 4 or ran out of attempts. *)
Definition loop_post (f : Frame) (w : World)
    (out : outcome (Frame * list ref)) (w' : World) : Prop :=
  exists k es,
    attempts f + k <= max_attempts
    /\ log w' = log w ++ es
    /\ attempts_logged es = seq (attempts f + 1) k
    /\ match out with
       | Returned (f', res) =>
           frame_ok f' w' /\ attempts f' = attempts f + k
           /\ (((LogAllGood ∈ es) /\ res = good_enough_ideas f'
                /\ needs_improvement_ideas f' = [])
               \/ ((LogAllGood ∉ es) /\ attempts f' = max_attempts
                   /\ res = good_enough_ideas f' ++ needs_improvement_ideas f'))
       | Raised e => may_escape e
       | OutOfFuel => False
       end.

(** ** Relations between the worlds before and after *)

(** [m] relates the world it starts in to the world it ends in, however
    it ends. *)
Definition preserves {A} (R : World -> World -> Prop) (m : M A) : Prop :=
  forall w, R w (snd (run m w)).

(** The ratings agree with the two lists: a good idea is rated
    "Good enough"; a pending one is rated "Needs improvement" or not yet. *)
Definition rated_ok (f : Frame) (w : World) : Prop :=
  (forall r, r ∈ good_enough_ideas f -> rating (heap w !!! r) = PStr good_enough)
  /\ (forall r, r ∈ needs_improvement_ideas f ->
        rating (heap w !!! r) = PNone
        \/ rating (heap w !!! r) = PStr needs_improvement).

(** ** [categorize_ideas] and [main] *)

(** A line written by [print]; the values that are interpolated are kept,
    not their text. *)
Inductive line : Type :=
| FinalIdeas                          (* "Final Ideas:" *)
| IdeaTitle (i : nat) (t : pyval)     (* "{i}. Title: {idea.title}" *)
| IdeaDescription (d : pyval)         (* "   Description: {idea.description}" *)
| IdeaRating (r : pyval)              (* "   Rating: {idea.rating}" *)
| EmptyLine                           (* "" *)
| AffinityDiagram                     (* "\nAffinity Diagram (Themes):" *)
| Theme (name : string)               (* "\nTheme: {theme}" *)
| ThemeTitle (t : pyval).             (* "- {title}" *)

(** The process [main] runs in: the world of [generate_ideas], the
    categorization requests sent (the ideas they carry) and the standard
    output. The records that [categorize_ideas] logs are not kept: the log
    of the world is the log of [generate_ideas]. *)
Record Process : Type := mkProcess {
  world : World;
  categorization_sent : list pyval;
  printed : list line
}.

(** The number of calls of [OpenAIClient.query] so far. *)
Definition calls (p : Process) : nat :=
  length (sent (world p)) + length (categorization_sent p).

(** The four lines [main] prints for the idea number [i]. *)
Definition idea_lines (h : list IdeaItem) (i : nat) (idea : nat) : list line :=
  [IdeaTitle i (title (h !!! idea)); IdeaDescription (description (h !!! idea));
   IdeaRating (rating (h !!! idea)); EmptyLine].

(** [for i, idea in enumerate(final_ideas, start=i): print ...] *)
Fixpoint print_ideas (h : list IdeaItem) (i : nat) (final_ideas : list nat)
  : list line :=
  match final_ideas with
  | [] => []
  | idea :: rest => idea_lines h i idea ++ print_ideas h (S i) rest
  end.

(** [for theme, titles in items: print theme; for title in titles: print
    title]: the lines printed, and the exception that stopped the loop. *)
Fixpoint print_themes (items : list (string * pyval)) : list line * option exn :=
  match items with
  | [] => ([], None)
  | (theme, titles) :: rest =>
      match py_iter titles with
      | None => ([Theme theme], Some TypeError)
      | Some ts =>
          let '(ls, e) := print_themes rest in
          (Theme theme :: (ThemeTitle <$> ts) ++ ls, e)
      end
  end.

Section Main.

Variable json_loads : string -> option pyval.
Variable backend : nat -> option string.

Definition categorize_ideas (ideas : list nat) (p : Process)
  : outcome pyval * Process :=
  let ideas_json := ideas_to_json_in (heap (world p)) ideas in
  let p' := mkProcess (world p) (categorization_sent p ++ [ideas_json]) (printed p) in
  match backend (calls p) with
  | None => (Raised BackendError, p')
  | Some categorization_response =>
      match json_loads (clean_json_response categorization_response) with
      | Some categories => (Returned categories, p')
      | None => (Returned (PDict []), p')
      end
  end.

(** [main] from its second statement on, started in the world [w] with
    nothing categorized or printed. Its first statement builds the client,
    [OpenAIClient()], which reads the key from the environment and raises when
    it is not set; [backend] stands for the client it has built, so what is
    said of [main] is said of a run whose client exists. *)
Definition main (w : World) : outcome unit * Process :=
  match run (generate_ideas json_loads backend) w with
  | (Returned final_ideas, w1) =>
      let p1 := mkProcess w1 [] (FinalIdeas :: print_ideas (heap w1) 1 final_ideas) in
      match categorize_ideas final_ideas p1 with
      | (Returned categories, p2) =>
          let out := printed p2 ++ [AffinityDiagram] in
          match categories with
          | PDict items =>
              let '(ls, e) := print_themes items in
              (match e with None => Returned tt | Some x => Raised x end,
               mkProcess (world p2) (categorization_sent p2) (out ++ ls))
          | _ => (Raised AttributeError,
                  mkProcess (world p2) (categorization_sent p2) out)
          end
      | (Raised e, p2) => (Raised e, p2)
      | (OutOfFuel, p2) => (OutOfFuel, p2)
      end
  | (Raised e, w1) => (Raised e, mkProcess w1 [] [])
  | (OutOfFuel, w1) => (OutOfFuel, mkProcess w1 [] [])
  end.

End Main.

(** ** The requests of a run *)

(** No request is sent between [w] and [w']. *)
Definition same_sent (w w' : World) : Prop := sent w' = sent w.

(** The requests sent up to [w] are, in [w'], followed by others or none. *)
Definition extends_sent (w w' : World) : Prop :=
  exists ps, sent w' = sent w ++ ps.

(** [not good_enough_ideas and not needs_improvement_ideas] *)
Definition no_ideas (f : Frame) : bool :=
  is_empty (good_enough_ideas f) && is_empty (needs_improvement_ideas f).

(** The requests the loop can still send from its head with the locals [f]:
    two for each pass that is left, and one more to generate the ideas when
    there is none yet. *)
Definition requests_left (f : Frame) : nat :=
  let passes := max_attempts - attempts f in
  if no_ideas f then (if passes =? 0 then 0 else 2 * passes + 1) else 2 * passes.

(** ** Where the texts of the ideas come from *)

(** The title and the description of each object, in the order of the heap. *)
Definition idea_texts (h : list IdeaItem) : list (pyval * pyval) :=
  (fun it => (title it, description it)) <$> h.

(** What [parse_ideas] reads in one record. *)
Definition record_texts (idea_dict : pyval) : pyval * pyval :=
  (field idea_dict "title" (PStr ""), field idea_dict "description" (PStr "")).

(** Nothing is sent and no text is written between [w] and [w']. *)
Definition same_texts (w w' : World) : Prop :=
  sent w' = sent w /\ idea_texts (heap w') = idea_texts (heap w).

Section Provenance.

Variable json_loads : string -> option pyval.
Variable backend : nat -> option string.

(** [d] is an object among the elements of the value that the reply to one
    of the requests number [lo], ..., [hi - 1] decodes to. *)
Definition from_reply (lo hi : nat) (d : pyval) : Prop :=
  exists k reply v elems,
    lo <= k < hi
    /\ backend k = Some reply
    /\ json_loads (clean_json_response reply) = Some v
    /\ py_iter v = Some elems
    /\ d ∈ elems /\ is_dict d = true.

(** Between [w] and [w'] every object kept its title and its description,
    and each new object has those of a record of a reply received in
    between. *)
Definition texts_from (w w' : World) : Prop :=
  length (sent w) <= length (sent w')
  /\ exists records,
       idea_texts (heap w') = idea_texts (heap w) ++ (record_texts <$> records)
       /\ Forall (from_reply (length (sent w)) (length (sent w'))) records.

End Provenance.

(** * Properties *)

(** ** Strings *)

Lemma append_cons (c : ascii) (s t : string) :
  String c s +:+ t = String c (s +:+ t).
Proof. reflexivity. Qed.

Lemma append_nil (t : string) : EmptyString +:+ t = t.
Proof. reflexivity. Qed.

Lemma length_append (s t : string) :
  String.length (s +:+ t) = String.length s + String.length t.
Proof.
  induction s as [|c s IH]; [reflexivity |].
  rewrite append_cons. simpl. now rewrite IH.
Qed.

Lemma append_assoc (s t u : string) : (s +:+ t) +:+ u = s +:+ t +:+ u.
Proof.
  induction s as [|c s IH]; [reflexivity |].
  rewrite !append_cons. now rewrite IH.
Qed.

Lemma substring_all_append (s t : string) :
  String.substring 0 (String.length s) (s +:+ t) = s.
Proof.
  induction s as [|c s IH]; [now destruct t |].
  rewrite append_cons. simpl. now rewrite IH.
Qed.

Lemma substring_skip_append (s t : string) (m : nat) :
  String.substring (String.length s) m (s +:+ t) = String.substring 0 m t.
Proof.
  induction s as [|c s IH]; [reflexivity |].
  rewrite append_cons. simpl. exact IH.
Qed.

Lemma substring_whole (s : string) :
  String.substring 0 (String.length s) s = s.
Proof. induction s as [|c s IH]; simpl; [reflexivity | now rewrite IH]. Qed.

Lemma prefix_append (p s : string) : String.prefix p (p +:+ s) = true.
Proof.
  induction p as [|c p IH]; [now destruct s |].
  rewrite append_cons. simpl.
  destruct (ascii_dec c c); [exact IH | congruence].
Qed.

Lemma endswith_append (s p : string) : PyStr.endswith (s +:+ p) p = true.
Proof.
  unfold PyStr.endswith. rewrite length_append.
  replace (String.length s + String.length p - String.length p)
    with (String.length s) by lia.
  rewrite substring_skip_append, substring_whole, String.eqb_refl.
  rewrite andb_true_r. apply Nat.leb_le. lia.
Qed.

Lemma slice_fences (p body q : string) :
  PyStr.slice (String.length p) (String.length q) (p +:+ body +:+ q) = body.
Proof.
  unfold PyStr.slice. rewrite !length_append.
  replace (String.length p + (String.length body + String.length q)
           - String.length q - String.length p)
    with (String.length body) by lia.
  rewrite substring_skip_append. apply substring_all_append.
Qed.

(** What [strip] leaves has no white space at either end. *)
Lemma lstrip_head (s : string) (c : ascii) (t : string) :
  PyStr.lstrip s = String c t -> PyStr.is_space c = false.
Proof.
  induction s as [|a s IH]; simpl; [discriminate |].
  destruct (PyStr.is_space a) eqn:Ha; [exact IH |].
  intros [= -> _]. exact Ha.
Qed.

Lemma rstrip_last (s : string) (c : ascii) :
  PyStr.last_char (PyStr.rstrip s) = Some c -> PyStr.is_space c = false.
Proof.
  induction s as [|a s IH]; simpl; [discriminate |].
  destruct (PyStr.rstrip s) as [|b r] eqn:Hr.
  - destruct (PyStr.is_space a) eqn:Ha; simpl; [discriminate |].
    intros [= <-]. exact Ha.
  - simpl. exact IH.
Qed.

Lemma lstrip_last (s : string) : s <> EmptyString ->
  PyStr.lstrip s = EmptyString \/ PyStr.last_char (PyStr.lstrip s) = PyStr.last_char s.
Proof.
  induction s as [|a s IH]; [congruence |]. intros _. simpl.
  destruct (PyStr.is_space a).
  - destruct s as [|b s]; [now left |].
    destruct IH as [IH | IH]; [congruence | now left |].
    right. rewrite IH. reflexivity.
  - now right.
Qed.

Lemma strip_ends (s : string) :
  (forall c t, PyStr.strip s = String c t -> PyStr.is_space c = false)
  /\ (forall c, PyStr.last_char (PyStr.strip s) = Some c -> PyStr.is_space c = false).
Proof.
  unfold PyStr.strip. split.
  - intros c t. apply lstrip_head.
  - intros c Hc. destruct (PyStr.rstrip s) as [|a r] eqn:Hr; [discriminate |].
    destruct (lstrip_last (String a r)) as [He | He]; [congruence | |].
    + rewrite He in Hc. discriminate.
    + rewrite He, <- Hr in Hc. now apply rstrip_last in Hc.
Qed.

Lemma prefix_shorter (p q r : string) :
  String.prefix (p +:+ q) r = true -> String.prefix p r = true.
Proof.
  revert r. induction p as [|c p IH]; intros r; [now destruct r |].
  rewrite append_cons. destruct r as [|a r]; simpl; [discriminate |].
  destruct (ascii_dec c a); [apply IH | discriminate].
Qed.

Lemma prefix_cons (c a : ascii) (p r : string) :
  String.prefix (String c p) (String a r)
  = if ascii_dec c a then String.prefix p r else false.
Proof. reflexivity. Qed.

Lemma prefix_empty (r : string) : String.prefix EmptyString r = true.
Proof. now destruct r. Qed.

Ltac split_ascii_dec :=
  repeat match goal with
    | H : context [ascii_dec ?x ?y] |- _ => destruct (ascii_dec x y); try subst
    | |- context [ascii_dec ?x ?y] => destruct (ascii_dec x y); try subst
    end.

Lemma no_json_tag (body : string) :
  PyStr.startswith body "json" = false ->
  PyStr.startswith ("```" +:+ body +:+ "```") "```json" = false.
Proof.
  unfold PyStr.startswith. intros H.
  rewrite !append_cons, append_nil, !prefix_cons.
  destruct (ascii_dec "`" "`"); [| congruence].
  destruct body as [|a [|b [|c [|d body]]]];
    rewrite ?append_cons, ?append_nil, ?prefix_cons;
    rewrite ?prefix_cons in H;
    split_ascii_dec; try reflexivity; try discriminate; try congruence.
  rewrite prefix_empty in H. discriminate.
Qed.

(** ** C4: the fences [clean_json_response] removes *)

Lemma rstrip_append_space (s : string) (c : ascii) :
  PyStr.is_space c = true ->
  PyStr.rstrip (s +:+ String c EmptyString) = PyStr.rstrip s.
Proof.
  intros Hc. induction s as [|a s IH].
  - rewrite append_nil. simpl. now rewrite Hc.
  - rewrite append_cons. simpl. now rewrite IH.
Qed.

Lemma strip_cons_space (c : ascii) (s : string) :
  PyStr.is_space c = true -> PyStr.strip (String c s) = PyStr.strip s.
Proof.
  intros Hc. unfold PyStr.strip. simpl.
  destruct (PyStr.rstrip s); simpl; now rewrite Hc.
Qed.

Lemma strip_between_newlines (body : string) :
  PyStr.strip (Spec.newline +:+ body +:+ Spec.newline) = PyStr.strip body.
Proof.
  unfold Spec.newline. rewrite append_cons, append_nil.
  rewrite strip_cons_space by reflexivity.
  unfold PyStr.strip. now rewrite rstrip_append_space.
Qed.

Lemma clean_json_fence (body : string) :
  clean_json_response ("```json" +:+ body +:+ "```") = PyStr.strip body.
Proof.
  unfold clean_json_response, PyStr.startswith.
  rewrite prefix_append, <- append_assoc, endswith_append, append_assoc.
  simpl. change 7 with (String.length "```json").
  change 3 with (String.length "```") at 1.
  now rewrite slice_fences.
Qed.

Lemma clean_bare_fence (body : string) :
  PyStr.startswith body "json" = false ->
  clean_json_response ("```" +:+ body +:+ "```") = PyStr.strip body.
Proof.
  intros Htag. unfold clean_json_response.
  rewrite (no_json_tag body Htag). unfold PyStr.startswith.
  rewrite prefix_append, <- append_assoc, endswith_append, append_assoc.
  simpl. change 3 with (String.length "```").
  now rewrite slice_fences.
Qed.

Lemma clean_unfenced (response : string) :
  PyStr.startswith response "```" && PyStr.endswith response "```" = false ->
  clean_json_response response = response.
Proof.
  intros Hno. unfold clean_json_response. rewrite Hno.
  destruct (PyStr.startswith response "```json") eqn:Hj; [| reflexivity].
  apply (prefix_shorter "```" "json") in Hj.
  unfold PyStr.startswith in Hno. rewrite Hj in Hno. simpl in Hno.
  now rewrite Hno.
Qed.

(** A text of three to five backquotes starts and ends with a fence: the
    two cuts cross and nothing is left. *)
Lemma clean_overlapping_fences :
  clean_json_response "```" = ""
  /\ clean_json_response "````" = ""
  /\ clean_json_response "`````" = "".
Proof. repeat split. Qed.

(** What the code removes: a text that is [```json], a body and [```] is
    replaced by the body without its surrounding white space; so is a text
    that is [```], a body that does not start with [json], and [```]; a
    text that does not both start and end with [```] is returned unchanged.
    A block fenced with the tag [json], or with no tag, gives its content
    stripped. *)
Theorem clean_json_response_fences (body response : string) :
  clean_json_response ("```json" +:+ body +:+ "```") = PyStr.strip body
  /\ (PyStr.startswith body "json" = false ->
      clean_json_response ("```" +:+ body +:+ "```") = PyStr.strip body)
  /\ (PyStr.startswith response "```" && PyStr.endswith response "```" = false ->
      clean_json_response response = response)
  /\ clean_json_response (Spec.fenced "json" body) = PyStr.strip body
  /\ clean_json_response (Spec.fenced "" body) = PyStr.strip body.
Proof.
  split; [apply clean_json_fence |].
  split; [apply clean_bare_fence |].
  split; [apply clean_unfenced |].
  split.
  - unfold Spec.fenced.
    replace ("```" +:+ "json" +:+ Spec.newline +:+ body +:+ Spec.newline +:+ "```")
      with ("```json" +:+ (Spec.newline +:+ body +:+ Spec.newline) +:+ "```")
      by (now rewrite !append_assoc).
    now rewrite clean_json_fence, strip_between_newlines.
  - unfold Spec.fenced. rewrite append_nil.
    replace ("```" +:+ Spec.newline +:+ body +:+ Spec.newline +:+ "```")
      with ("```" +:+ (Spec.newline +:+ body +:+ Spec.newline) +:+ "```")
      by (now rewrite !append_assoc).
    rewrite clean_bare_fence; [apply strip_between_newlines | reflexivity].
Qed.

Lemma clean_json_response_fences_witness :
  clean_json_response "```json [1] ```" = "[1]"
  /\ clean_json_response "```python [1]```" = "python [1]"
  /\ clean_json_response "[1] ```" = "[1] ```".
Proof.
  destruct (clean_json_response_fences " [1] " "[1] ```") as (H1 & _ & H3 & _).
  destruct (clean_json_response_fences "python [1]" "") as (_ & H2 & _).
  split; [exact H1 | split; [apply H2; reflexivity | apply H3; reflexivity]].
Defined.

(** C4 fails on the code: the language hint is removed only when it is
    [json]. The block tagged [json] and the block without a tag give their
    content; the same block tagged [python] gives the tag, a line break and
    the content. The test for a wrapped text is that it starts and ends
    with a fence: a text made of two blocks with words between them loses
    its first and its last fence. *)
Theorem clean_json_response_language_tag :
  clean_json_response (Spec.fenced "json" "[1]") = "[1]"
  /\ clean_json_response (Spec.fenced "" "[1]") = "[1]"
  /\ clean_json_response (Spec.fenced "python" "[1]")
     = "python" +:+ Spec.newline +:+ "[1]"
  /\ clean_json_response (Spec.fenced "python" "[1]") <> PyStr.strip "[1]"
  /\ clean_json_response "```a``` and ```b```" = "a``` and ```b".
Proof. repeat split; try reflexivity. discriminate. Qed.

(** ** C5: [OpenAIClient.query] *)

(** C5 (as amended): [query] raises exactly when the content of the reply is
    absent; every text, the empty one included, is returned as it is. *)
Theorem query_raises_on_absent_content_only
    (backend : nat -> option string) (system_message : string)
    (user_message : prompt) (w : World) :
  fst (run (query backend system_message user_message) w)
  = match backend (length (sent w)) with
    | None => Raised BackendError
    | Some text => Returned text
    end.
Proof. unfold run, query. now destruct (backend (length (sent w))). Qed.

(** C5 (as stated) fails: the empty reply is no usable content, and it is
    returned, not raised. *)
Lemma query_returns_empty_reply :
  Spec.no_usable_content (replies [Some ""] (length (sent world0)))
  /\ fst (run (query (replies [Some ""]) "" GenerationPrompt) world0) = Returned "".
Proof. split; [right; reflexivity | reflexivity]. Qed.

(** ** The monad *)

Lemma world_eta (w : World) :
  mkWorld (sent w) (heap w) (log w) (accepted w) = w.
Proof. now destruct w. Qed.

Lemma run_bind {A B} (m : M A) (k : A -> M B) (w : World) :
  run (bind m k) w
  = match run m w with
    | (Returned a, w') => run (k a) w'
    | (Raised e, w') => (Raised e, w')
    | (OutOfFuel, w') => (OutOfFuel, w')
    end.
Proof. reflexivity. Qed.

Lemma run_bind_returned {A B} (m : M A) (k : A -> M B) (w w' : World) (a : A) :
  run m w = (Returned a, w') -> run (bind m k) w = run (k a) w'.
Proof. intros H. rewrite run_bind, H. reflexivity. Qed.

Lemma run_bind_raised {A B} (m : M A) (k : A -> M B) (w w' : World) (e : exn) :
  run m w = (Raised e, w') -> run (bind m k) w = (Raised e, w').
Proof. intros H. rewrite run_bind, H. reflexivity. Qed.

(** ** C10: [parse_ideas] and [ideas_to_json] *)

Lemma py_get_dict (v : pyval) (key : string) (default : pyval) (w : World) :
  is_dict v = true ->
  run (py_get v key default) w = (Returned (field v key default), w).
Proof. destruct v; simpl; try discriminate. reflexivity. Qed.

Lemma py_get_other (v : pyval) (key : string) (default : pyval) (w : World) :
  is_dict v = false ->
  run (py_get v key default) w = (Raised AttributeError, w).
Proof. destruct v; simpl; try discriminate; reflexivity. Qed.

Lemma parse_ideas_loop_dicts (elems : list pyval) :
  Forall (fun v => is_dict v = true) elems ->
  forall (acc : list ref) (w : World),
    run (parse_ideas_loop elems acc) w
    = (Returned (acc ++ seq (length (heap w)) (length elems)),
       mkWorld (sent w) (heap w ++ (item_of <$> elems)) (log w) (accepted w)).
Proof.
  induction 1 as [|v elems Hv _ IH]; intros acc w.
  - simpl. rewrite !app_nil_r, world_eta. reflexivity.
  - cbn [parse_ideas_loop].
    rewrite (run_bind_returned _ _ _ _ _ (py_get_dict v _ _ w Hv)).
    rewrite (run_bind_returned _ _ _ _ _ (py_get_dict v _ _ w Hv)).
    rewrite (run_bind_returned _ _ _ _ _ (eq_refl : run (new_IdeaItem _ _) w = _)).
    rewrite IH. cbn [sent heap log accepted].
    rewrite length_app, <- !app_assoc. simpl.
    replace (length (heap w) + 1) with (S (length (heap w))) by lia.
    reflexivity.
Qed.

Lemma run_ideas_to_json (ideas : list ref) (w : World) :
  run (ideas_to_json ideas) w = (Returned (ideas_to_json_in (heap w) ideas), w).
Proof. reflexivity. Qed.

Lemma run_parse_ideas_list (l : list pyval) (w : World) :
  run (parse_ideas (PList l)) w = run (parse_ideas_loop l []) w.
Proof. reflexivity. Qed.

Lemma ideas_to_json_dicts (h : list IdeaItem) (b : list ref) :
  Forall (fun v => is_dict v = true) (idea_to_json h <$> b).
Proof. apply Forall_fmap, Forall_true. reflexivity. Qed.

Lemma dict_get_missing (d : list (string * pyval)) (key : string) (default : pyval) :
  key ∉ fst <$> d -> dict_get d key default = default.
Proof.
  induction d as [|[k v] d IH]; simpl; [reflexivity |].
  intros Hk. apply not_elem_of_cons in Hk as [Hne Hk].
  destruct (String.eqb_spec k key); [congruence | auto].
Qed.

(** C10: decoding the encoding of a batch builds as many new objects, which
    carry the titles and descriptions of the batch in order (and no rating);
    and decoding records builds one object per record, in order, an absent
    title or description being read as the empty string, without raising. *)
Theorem parse_ideas_ideas_to_json (b : list ref) (records : list pyval) (w : World) :
  (exists b' w',
      run (do j <- ideas_to_json b; parse_ideas j) w = (Returned b', w')
      /\ length b' = length b
      /\ forall i r r', b !! i = Some r -> b' !! i = Some r' ->
           title (heap w' !!! r') = title (heap w !!! r)
           /\ description (heap w' !!! r') = description (heap w !!! r)
           /\ rating (heap w' !!! r') = PNone)
  /\ (Forall (fun v => is_dict v = true) records ->
      exists b' w',
        run (parse_ideas (PList records)) w = (Returned b', w')
        /\ length b' = length records
        /\ forall i r' d, b' !! i = Some r' -> records !! i = Some (PDict d) ->
             heap w' !!! r' = item_of (PDict d)
             /\ ("title" ∉ fst <$> d -> title (heap w' !!! r') = PStr "")
             /\ ("description" ∉ fst <$> d ->
                 description (heap w' !!! r') = PStr "")).
Proof.
  split.
  - eexists _, _. split; [| split].
    + rewrite (run_bind_returned _ _ _ _ _ (run_ideas_to_json b w)).
      unfold ideas_to_json_in. rewrite run_parse_ideas_list.
      apply parse_ideas_loop_dicts, ideas_to_json_dicts.
    + simpl. now rewrite length_seq, length_fmap.
    + intros i r r' Hr Hr'. cbn [heap app] in *.
      apply lookup_seq in Hr' as [-> Hi]. rewrite length_fmap in Hi.
      rewrite lookup_total_app_r by lia.
      replace (length (heap w) + i - length (heap w)) with i by lia.
      rewrite <- list_fmap_compose.
      erewrite list_lookup_total_correct
        by (rewrite list_lookup_fmap, Hr; reflexivity).
      simpl. auto.
  - intros Hd. eexists _, _. split; [| split].
    + rewrite run_parse_ideas_list. apply parse_ideas_loop_dicts, Hd.
    + simpl. now rewrite length_seq.
    + intros i r' d Hr' Hrec. cbn [heap app] in *.
      apply lookup_seq in Hr' as [-> Hi].
      rewrite lookup_total_app_r by lia.
      replace (length (heap w) + i - length (heap w)) with i by lia.
      erewrite list_lookup_total_correct
        by (rewrite list_lookup_fmap, Hrec; reflexivity).
      split; [reflexivity |].
      split; intros Hk; simpl; now apply dict_get_missing.
Qed.

Lemma parse_ideas_ideas_to_json_witness :
  (exists r' w',
      run (do j <- ideas_to_json [0]; parse_ideas j)
          (mkWorld [] [mkIdeaItem (PStr "t") (PStr "d") (PStr good_enough)] [] [])
      = (Returned [r'], w')
      /\ title (heap w' !!! r') = PStr "t"
      /\ description (heap w' !!! r') = PStr "d"
      /\ rating (heap w' !!! r') = PNone)
  /\ (exists r' w',
        run (parse_ideas (PList [PDict [("description", PStr "d")]])) world0
        = (Returned [r'], w')
        /\ title (heap w' !!! r') = PStr "").
Proof.
  destruct (parse_ideas_ideas_to_json [0] [PDict [("description", PStr "d")]]
              (mkWorld [] [mkIdeaItem (PStr "t") (PStr "d") (PStr good_enough)] [] []))
    as [(b' & w' & Hrun & Hlen & Hsame) _].
  destruct (parse_ideas_ideas_to_json [] [PDict [("description", PStr "d")]] world0)
    as [_ Hrecords].
  destruct Hrecords as (c' & v' & Hrun' & Hlen' & Hfields).
  { repeat constructor. }
  destruct b' as [|r' [|]]; try discriminate Hlen.
  destruct c' as [|s' [|]]; try discriminate Hlen'.
  split.
  - exists r', w'. split; [exact Hrun |]. exact (Hsame 0 0 r' eq_refl eq_refl).
  - exists s', v'. split; [exact Hrun' |].
    destruct (Hfields 0 s' [("description", PStr "d")] eq_refl eq_refl)
      as (_ & Htitle & _).
    apply Htitle. simpl. intros Hin. apply list_elem_of_singleton in Hin. discriminate.
Defined.

(** ** Writing ratings *)

Lemma write_ratings_cons (p : ref * pyval) (ws : list (ref * pyval)) (h : list IdeaItem) :
  write_ratings (p :: ws) h = write_ratings ws (alter (with_rating (snd p)) (fst p) h).
Proof. reflexivity. Qed.

Lemma write_ratings_snoc (ws : list (ref * pyval)) (p : ref * pyval) (h : list IdeaItem) :
  write_ratings (ws ++ [p]) h = alter (with_rating (snd p)) (fst p) (write_ratings ws h).
Proof. unfold write_ratings. now rewrite foldl_snoc. Qed.

Lemma length_write_ratings (ws : list (ref * pyval)) (h : list IdeaItem) :
  length (write_ratings ws h) = length h.
Proof.
  induction ws as [|p ws IH] using rev_ind; [reflexivity |].
  now rewrite write_ratings_snoc, length_alter.
Qed.

Lemma write_ratings_other (ws : list (ref * pyval)) (h : list IdeaItem) (r : ref) :
  r ∉ fst <$> ws -> write_ratings ws h !! r = h !! r.
Proof.
  induction ws as [|p ws IH] using rev_ind; [reflexivity |].
  rewrite fmap_app, not_elem_of_app. intros [Hws Hp].
  rewrite write_ratings_snoc, list_lookup_alter_ne; [auto |].
  intros Heq. apply Hp. simpl. rewrite Heq. apply list_elem_of_here.
Qed.

Lemma rating_after_alter (v : pyval) (h : list IdeaItem) (r : ref) :
  r < length h -> rating (alter (with_rating v) r h !!! r) = v.
Proof.
  intros Hr. destruct (lookup_lt_is_Some_2 h r Hr) as [it Hit].
  erewrite list_lookup_total_correct; [| rewrite list_lookup_alter_eq, Hit; reflexivity].
  reflexivity.
Qed.

(** When every write carries the same value, every written object has it. *)
Lemma write_ratings_constant (v : pyval) (ws : list (ref * pyval)) (h : list IdeaItem) (r : ref) :
  Forall (fun p => snd p = v) ws -> r ∈ fst <$> ws -> r < length h ->
  rating (write_ratings ws h !!! r) = v.
Proof.
  induction ws as [|p ws IH] using rev_ind; intros Hv Hr Hlt.
  - simpl in Hr. now apply elem_of_nil in Hr.
  - apply Forall_app in Hv as [Hv Hp]. apply Forall_inv in Hp.
    rewrite write_ratings_snoc.
    destruct (decide (fst p = r)) as [-> | Hne].
    + rewrite rating_after_alter; [exact Hp | now rewrite length_write_ratings].
    + rewrite list_lookup_total_alter_ne by exact Hne.
      apply IH; [exact Hv | | exact Hlt].
      rewrite fmap_app in Hr. apply elem_of_app in Hr as [Hr | Hr]; [exact Hr |].
      simpl in Hr. apply list_elem_of_singleton in Hr. congruence.
Qed.

(** When no object is written twice, each keeps what was written to it. *)
Lemma write_ratings_distinct (ws : list (ref * pyval)) (h : list IdeaItem) (r : ref) (v : pyval) :
  NoDup (fst <$> ws) -> (r, v) ∈ ws -> r < length h ->
  rating (write_ratings ws h !!! r) = v.
Proof.
  induction ws as [|p ws IH] using rev_ind; intros Hnd Hin Hlt.
  - now apply elem_of_nil in Hin.
  - rewrite fmap_app in Hnd. apply NoDup_app in Hnd as (Hnd & Hdis & _).
    rewrite write_ratings_snoc.
    apply elem_of_app in Hin as [Hin | Hin].
    + assert (fst p <> r) as Hne.
      { intros Heq. apply (Hdis r).
        - apply list_elem_of_fmap. exists (r, v). auto.
        - simpl. rewrite Heq. apply list_elem_of_here. }
      rewrite list_lookup_total_alter_ne by exact Hne. now apply IH.
    + apply list_elem_of_singleton in Hin. subst p. simpl.
      apply rating_after_alter. now rewrite length_write_ratings.
Qed.

Lemma lookup_total_eq (h h' : list IdeaItem) (r : ref) :
  h' !! r = h !! r -> h' !!! r = h !!! r.
Proof. intros H. rewrite !list_lookup_total_alt. now rewrite H. Qed.

(** ** The steps of [evaluate_ideas] *)

Section Evaluate.

Variable json_loads : string -> option pyval.
Variable backend : nat -> option string.

Lemma run_query_text (system_message : string) (p : prompt) (w : World) (text : string) :
  backend (length (sent w)) = Some text ->
  run (query backend system_message p) w
  = (Returned text, mkWorld (sent w ++ [p]) (heap w) (log w) (accepted w)).
Proof. intros H. unfold run, query. now rewrite H. Qed.

Lemma run_query_absent (system_message : string) (p : prompt) (w : World) :
  backend (length (sent w)) = None ->
  run (query backend system_message p) w
  = (Raised BackendError, mkWorld (sent w ++ [p]) (heap w) (log w) (accepted w)).
Proof. intros H. unfold run, query. now rewrite H. Qed.

Lemma run_try_loads (s : string) (w : World) :
  run (try_except_JSONDecodeError
         (do ratings_data <- loads json_loads s; ret (Some ratings_data))
         (ret None)) w
  = (Returned (json_loads s), w).
Proof.
  unfold run, try_except_JSONDecodeError, bind, loads.
  now destruct (json_loads s).
Qed.

Lemma run_mark_all (ideas : list ref) (w : World) :
  run (mark_all ideas) w
  = (Returned tt,
     mkWorld (sent w)
       (write_ratings ((fun r => (r, PStr needs_improvement)) <$> ideas) (heap w))
       (log w) (accepted w)).
Proof.
  revert w. induction ideas as [|r ideas IH]; intros w.
  - simpl. now rewrite world_eta.
  - cbn [mark_all].
    rewrite (run_bind_returned _ _ _ _ _ (eq_refl : run (set_rating _ _) w = _)).
    rewrite IH. reflexivity.
Qed.

Lemma run_rate_loop_dicts (pairs : list (ref * pyval)) :
  Forall (fun p => is_dict (snd p) = true) pairs ->
  forall (acc : list bool) (w : World),
    run (rate_loop pairs acc) w
    = (Returned (acc ++ ((fun p => py_eq_str (verdict (snd p)) good_enough) <$> pairs)),
       mkWorld (sent w)
         (write_ratings ((fun p => (fst p, verdict (snd p))) <$> pairs) (heap w))
         (log w) (accepted w)).
Proof.
  induction 1 as [|[r v] pairs Hv _ IH]; intros acc w.
  - simpl. now rewrite app_nil_r, world_eta.
  - cbn [rate_loop]. simpl in Hv.
    rewrite (run_bind_returned _ _ _ _ _ (py_get_dict v _ _ w Hv)).
    rewrite (run_bind_returned _ _ _ _ _ (py_get_dict v _ _ w Hv)).
    rewrite (run_bind_returned _ _ _ _ _ (eq_refl : run (set_rating _ _) w = _)).
    rewrite IH. cbn [sent heap log accepted fmap list_fmap].
    now rewrite <- app_assoc.
Qed.

(** C6: when the evaluation reply does not parse, [evaluate_ideas] returns
    one [False] per idea and leaves the rating of every idea of the batch at
    "Needs improvement"; it does not raise. *)
Theorem evaluate_ideas_unparsable (ideas : list ref) (w : World) (reply : string) :
  backend (length (sent w)) = Some reply ->
  json_loads (clean_json_response reply) = None ->
  exists w',
    run (evaluate_ideas json_loads backend ideas) w
    = (Returned (replicate (length ideas) false), w')
    /\ forall r, r ∈ ideas -> r < length (heap w) ->
         rating (heap w' !!! r) = PStr needs_improvement.
Proof.
  intros Hreply Hparse. eexists. split.
  - unfold evaluate_ideas.
    rewrite (run_bind_returned _ _ _ _ _ (run_ideas_to_json ideas w)).
    rewrite (run_bind_returned _ _ _ _ _ (run_query_text _ _ w reply Hreply)).
    rewrite (run_bind_returned _ _ _ _ _ (run_try_loads _ _)).
    rewrite Hparse.
    rewrite (run_bind_returned _ _ _ _ _ (run_mark_all _ _)).
    reflexivity.
  - intros r Hr Hlt. cbn [heap].
    apply write_ratings_constant; [| | exact Hlt].
    + apply Forall_fmap, Forall_true. reflexivity.
    + rewrite <- list_fmap_compose. simpl.
      now rewrite list_fmap_id.
Qed.

End Evaluate.

Lemma evaluate_ideas_unparsable_witness :
  exists w',
    run (evaluate_ideas JsonText.json_loads (replies [Some "no verdicts"]) [0])
        (mkWorld [] [mkIdeaItem (PStr "t") (PStr "d") PNone] [] [])
    = (Returned [false], w')
    /\ rating (heap w' !!! 0) = PStr needs_improvement.
Proof.
  destruct (evaluate_ideas_unparsable JsonText.json_loads
              (replies [Some "no verdicts"]) [0]
              (mkWorld [] [mkIdeaItem (PStr "t") (PStr "d") PNone] [] [])
              "no verdicts" eq_refl eq_refl) as (w' & Hrun & Hrating).
  exists w'. split; [exact Hrun |].
  apply Hrating; [apply list_elem_of_here | simpl; lia].
Defined.

(** ** C1: the length of the verdict list *)

Section Verdicts.

Variable json_loads : string -> option pyval.
Variable backend : nat -> option string.

Lemma grows_refl (w : World) : grows w w.
Proof. unfold grows. auto. Qed.

Lemma same_size_refl (w : World) : same_size w w.
Proof. unfold same_size. auto. Qed.

Lemma same_size_grows (w w' : World) : same_size w w' -> grows w w'.
Proof. unfold same_size, grows. intros (? & ? & ?). repeat split; auto; lia. Qed.

Lemma grows_trans (w1 w2 w3 : World) : grows w1 w2 -> grows w2 w3 -> grows w1 w3.
Proof.
  unfold grows. intros (? & ? & ?) (? & ? & ?).
  repeat split; try congruence; lia.
Qed.

Lemma same_size_trans (w1 w2 w3 : World) :
  same_size w1 w2 -> same_size w2 w3 -> same_size w1 w3.
Proof. unfold same_size. intros (? & ? & ?) (? & ? & ?). repeat split; congruence. Qed.

Lemma rate_loop_raises (pairs : list (ref * pyval)) :
  ~ Forall (fun p => is_dict (snd p) = true) pairs ->
  forall (acc : list bool) (w : World),
    fst (run (rate_loop pairs acc) w) = Raised AttributeError
    /\ same_size w (snd (run (rate_loop pairs acc) w)).
Proof.
  induction pairs as [|[r v] pairs IH]; intros Hno acc w.
  - exfalso. apply Hno. constructor.
  - cbn [rate_loop]. destruct (is_dict v) eqn:Hv.
    + rewrite (run_bind_returned _ _ _ _ _ (py_get_dict v _ _ w Hv)).
      rewrite (run_bind_returned _ _ _ _ _ (py_get_dict v _ _ w Hv)).
      rewrite (run_bind_returned _ _ _ _ _ (eq_refl : run (set_rating _ _) w = _)).
      assert (~ Forall (fun p : nat * pyval => is_dict (snd p) = true) pairs) as Hno'
        by (intros H; apply Hno; constructor; [exact Hv | exact H]).
      destruct (IH Hno'
                  (acc ++ [py_eq_str (field v "rating" (PStr needs_improvement)) good_enough])
                  (mkWorld (sent w) (alter (with_rating (field v "rating" (PStr needs_improvement))) r (heap w))
                     (log w) (accepted w))) as [Hout Hsz].
      split; [exact Hout |].
      eapply same_size_trans; [| exact Hsz].
      unfold same_size. cbn [log accepted heap]. now rewrite length_alter.
    + rewrite (run_bind_raised _ _ _ _ _ (py_get_other v _ _ w Hv)).
      split; [reflexivity | apply same_size_refl].
Qed.

(** With a reply that is an array of objects, the ideas and the verdicts
    are paired by [zip]: the result has one entry per pair. *)
Lemma evaluate_ideas_verdicts (ideas : list ref) (w : World) (reply : string)
    (verdicts : list pyval) :
  backend (length (sent w)) = Some reply ->
  json_loads (clean_json_response reply) = Some (PList verdicts) ->
  Forall (fun v => is_dict v = true) verdicts ->
  run (evaluate_ideas json_loads backend ideas) w
  = (Returned ((fun p => py_eq_str (verdict (snd p)) good_enough) <$> zip ideas verdicts),
     mkWorld (sent w ++ [EvaluationPrompt (ideas_to_json_in (heap w) ideas)])
       (write_ratings ((fun p => (fst p, verdict (snd p))) <$> zip ideas verdicts) (heap w))
       (log w) (accepted w)).
Proof.
  intros Hreply Hparse Hd. unfold evaluate_ideas.
  rewrite (run_bind_returned _ _ _ _ _ (run_ideas_to_json ideas w)).
  rewrite (run_bind_returned _ _ _ _ _ (run_query_text _ _ _ w reply Hreply)).
  rewrite (run_bind_returned _ _ _ _ _ (run_try_loads _ _ _)).
  rewrite Hparse.
  rewrite (run_bind_returned _ _ _ _ _ (eq_refl : run (iter (PList verdicts)) _ = _)).
  rewrite run_rate_loop_dicts; [reflexivity |].
  apply Forall_forall. intros [r v] Hin.
  apply elem_of_zip_r in Hin. simpl.
  now apply (proj1 (Forall_forall _ _) Hd).
Qed.

Lemma evaluate_ideas_length (ideas : list ref) (w : World) (reply : string)
    (verdicts : list pyval) (results : list bool) (w' : World) :
  backend (length (sent w)) = Some reply ->
  json_loads (clean_json_response reply) = Some (PList verdicts) ->
  Forall (fun v => is_dict v = true) verdicts ->
  run (evaluate_ideas json_loads backend ideas) w = (Returned results, w') ->
  length results = length ideas `min` length verdicts.
Proof.
  intros Hreply Hparse Hd Hrun.
  rewrite (evaluate_ideas_verdicts ideas w reply verdicts Hreply Hparse Hd) in Hrun.
  injection Hrun as <- _. now rewrite length_fmap, length_zip.
Qed.

End Verdicts.

(** C1 fails on the code: two ideas and a reply that is an array of one
    verdict give a list of one boolean; the second idea gets no entry and
    keeps the rating it had. *)
Theorem evaluate_ideas_short_verdict_array :
  run (evaluate_ideas JsonText.json_loads
         (replies [Some (JsonText.dq "[{'rating': 'Good enough', 'reason': 'ok'}]")])
         [0; 1])
      (mkWorld [] [mkIdeaItem (PStr "a") (PStr "x") PNone;
                   mkIdeaItem (PStr "b") (PStr "y") PNone] [] [])
  = (Returned [true],
     mkWorld
       [EvaluationPrompt
          (PList [PDict [("title", PStr "a"); ("description", PStr "x")];
                  PDict [("title", PStr "b"); ("description", PStr "y")]])]
       [mkIdeaItem (PStr "a") (PStr "x") (PStr "Good enough");
        mkIdeaItem (PStr "b") (PStr "y") PNone] [] []).
Proof. vm_compute. reflexivity. Qed.

(** ** Sorting the evaluated ideas *)

Lemma picked_cons (r : ref) (needs : list ref) (b : bool) (bs : list bool) :
  picked (r :: needs) (b :: bs)
  = if b then r :: picked needs bs else picked needs bs.
Proof.
  unfold picked. cbn [zip zip_with]. rewrite filter_cons.
  destruct b; reflexivity.
Qed.

Lemma rejected_cons (r : ref) (needs : list ref) (b : bool) (bs : list bool) :
  rejected (r :: needs) (b :: bs)
  = if b then rejected needs bs else r :: rejected needs bs.
Proof.
  unfold rejected. cbn [zip zip_with]. rewrite filter_cons.
  destruct b; reflexivity.
Qed.

Lemma picked_nil_r (needs : list ref) : picked needs [] = [].
Proof. now destruct needs. Qed.

Lemma rejected_nil_r (needs : list ref) : rejected needs [] = [].
Proof. now destruct needs. Qed.

Lemma picked_sublist (needs : list ref) (bs : list bool) :
  picked needs bs `sublist_of` needs.
Proof.
  revert bs. induction needs as [|r needs IH]; intros bs; [constructor |].
  destruct bs as [|b bs]; [rewrite picked_nil_r; apply sublist_nil_l |].
  rewrite picked_cons. destruct b; [apply sublist_skip | apply sublist_cons]; apply IH.
Qed.

Lemma elem_of_picked (needs : list ref) (bs : list bool) (r : ref) :
  r ∈ picked needs bs -> exists i, needs !! i = Some r /\ bs !! i = Some true.
Proof.
  revert bs. induction needs as [|x needs IH]; intros bs Hr.
  - now apply elem_of_nil in Hr.
  - destruct bs as [|b bs]; [rewrite picked_nil_r in Hr; now apply elem_of_nil in Hr |].
    rewrite picked_cons in Hr. destruct b.
    + apply elem_of_cons in Hr as [-> | Hr]; [now exists 0 |].
      destruct (IH bs Hr) as (i & ? & ?). now exists (S i).
    + destruct (IH bs Hr) as (i & ? & ?). now exists (S i).
Qed.

Lemma elem_of_rejected (needs : list ref) (bs : list bool) (r : ref) :
  r ∈ rejected needs bs -> exists i, needs !! i = Some r /\ bs !! i = Some false.
Proof.
  revert bs. induction needs as [|x needs IH]; intros bs Hr.
  - now apply elem_of_nil in Hr.
  - destruct bs as [|b bs]; [rewrite rejected_nil_r in Hr; now apply elem_of_nil in Hr |].
    rewrite rejected_cons in Hr. destruct b.
    + destruct (IH bs Hr) as (i & ? & ?). now exists (S i).
    + apply elem_of_cons in Hr as [-> | Hr]; [now exists 0 |].
      destruct (IH bs Hr) as (i & ? & ?). now exists (S i).
Qed.

Lemma run_sort_loop (bs : list bool) :
  forall (idx : nat) (needs good : list ref) (w : World),
    idx + length bs <= length needs ->
    run (sort_loop bs idx needs good) w
    = (Returned (good ++ picked (drop idx needs) bs),
       mkWorld (sent w)
         (write_ratings ((fun r => (r, PStr needs_improvement))
                           <$> rejected (drop idx needs) bs) (heap w))
         (log w) (accepted w ++ picked (drop idx needs) bs)).
Proof.
  induction bs as [|b bs IH]; intros idx needs good w Hlen.
  - simpl. rewrite picked_nil_r, rejected_nil_r, !app_nil_r. simpl.
    now rewrite world_eta.
  - simpl in Hlen.
    destruct (lookup_lt_is_Some_2 needs idx ltac:(lia)) as [r Hr].
    rewrite (drop_S _ _ _ Hr), picked_cons, rejected_cons.
    cbn [sort_loop]. unfold py_index. rewrite Hr.
    rewrite (run_bind_returned _ _ _ _ _ (eq_refl : run (ret r) w = _)).
    destruct b.
    + rewrite (run_bind_returned _ _ _ _ _ (eq_refl : run (note_accepted r) w = _)).
      rewrite IH by lia. cbn [sent heap log accepted].
      now rewrite <- !app_assoc.
    + rewrite (run_bind_returned _ _ _ _ _ (eq_refl : run (set_rating r _) w = _)).
      rewrite IH by lia. reflexivity.
Qed.

(** ** What each step may do, whatever the replies *)

Lemma parse_ideas_loop_raises (elems : list pyval) :
  ~ Forall (fun v => is_dict v = true) elems ->
  forall (acc : list ref) (w : World),
    fst (run (parse_ideas_loop elems acc) w) = Raised AttributeError
    /\ grows w (snd (run (parse_ideas_loop elems acc) w)).
Proof.
  induction elems as [|v elems IH]; intros Hno acc w.
  - exfalso. apply Hno. constructor.
  - cbn [parse_ideas_loop]. destruct (is_dict v) eqn:Hv.
    + rewrite (run_bind_returned _ _ _ _ _ (py_get_dict v _ _ w Hv)).
      rewrite (run_bind_returned _ _ _ _ _ (py_get_dict v _ _ w Hv)).
      rewrite (run_bind_returned _ _ _ _ _ (eq_refl : run (new_IdeaItem _ _) w = _)).
      assert (~ Forall (fun v => is_dict v = true) elems) as Hno'
        by (intros H; apply Hno; constructor; [exact Hv | exact H]).
      match goal with
      | |- context [run (parse_ideas_loop elems ?a) ?w1] =>
          destruct (IH Hno' a w1) as [Hout Hg]
      end.
      split; [exact Hout |].
      eapply grows_trans; [| exact Hg].
      unfold grows. cbn [log accepted heap]. rewrite length_app. repeat split. lia.
    + rewrite (run_bind_raised _ _ _ _ _ (py_get_other v _ _ w Hv)).
      split; [reflexivity | apply grows_refl].
Qed.

Lemma parse_ideas_spec (v : pyval) (w : World) (out : outcome (list ref)) (w' : World) :
  run (parse_ideas v) w = (out, w') ->
  grows w w'
  /\ match out with
     | Returned l => l = seq (length (heap w)) (length l)
                     /\ length (heap w') = length (heap w) + length l
     | Raised e => e = AttributeError \/ e = TypeError
     | OutOfFuel => False
     end.
Proof.
  unfold parse_ideas, iter. destruct (py_iter v) as [elems|].
  - rewrite (run_bind_returned _ _ _ _ _ (eq_refl : run (ret elems) w = _)).
    destruct (decide (Forall (fun v => is_dict v = true) elems)) as [Hd | Hno].
    + rewrite (parse_ideas_loop_dicts _ Hd). intros [= <- <-].
      cbn [heap log accepted app]. rewrite length_seq.
      unfold grows. cbn [heap log accepted]. rewrite length_app, length_fmap.
      repeat split; lia.
    + destruct (parse_ideas_loop_raises elems Hno [] w) as [Hout Hg].
      intros Hrun. rewrite Hrun in Hout, Hg. simpl in Hout, Hg. subst out.
      split; [exact Hg | now left].
  - intros [= <- <-]. split; [apply grows_refl | now right].
Qed.

Section Steps.

Variable json_loads : string -> option pyval.
Variable backend : nat -> option string.

Lemma run_try_parse (g : list ref -> list ref) (ev : event) (s : string) (w : World) :
  run (try_except_JSONDecodeError
         (do v <- loads json_loads s;
          do l <- parse_ideas v;
          ret (Some (g l)))
         (logging ev ;; ret None)) w
  = match json_loads s with
    | None => (Returned None, mkWorld (sent w) (heap w) (log w ++ [ev]) (accepted w))
    | Some v =>
        match run (parse_ideas v) w with
        | (Returned l, w1) => (Returned (Some (g l)), w1)
        | (Raised JSONDecodeError, w1) =>
            (Returned None, mkWorld (sent w1) (heap w1) (log w1 ++ [ev]) (accepted w1))
        | (Raised e, w1) => (Raised e, w1)
        | (OutOfFuel, w1) => (OutOfFuel, w1)
        end
    end.
Proof.
  unfold run, try_except_JSONDecodeError, bind, loads.
  destruct (json_loads s) as [v|]; [unfold ret at 1 | reflexivity].
  destruct (parse_ideas v w) as [[l|e|] w1]; try reflexivity.
  destruct e; reflexivity.
Qed.

Lemma try_parse_spec (g : list ref -> list ref) (ev : event) (s : string)
    (w : World) (out : outcome (option (list ref))) (w' : World) :
  run (try_except_JSONDecodeError
         (do v <- loads json_loads s;
          do l <- parse_ideas v;
          ret (Some (g l)))
         (logging ev ;; ret None)) w = (out, w') ->
  accepted w' = accepted w
  /\ length (heap w) <= length (heap w')
  /\ match out with
     | Returned (Some l') =>
         log w' = log w
         /\ exists n, l' = g (seq (length (heap w)) n)
                      /\ length (heap w') = length (heap w) + n
     | Returned None => log w' = log w ++ [ev]
     | Raised e => log w' = log w /\ may_escape e
     | OutOfFuel => False
     end.
Proof.
  rewrite run_try_parse. destruct (json_loads s) as [v|].
  - destruct (run (parse_ideas v) w) as [o w1] eqn:Hp.
    destruct (parse_ideas_spec v w o w1 Hp) as [(Hlog & Hacc & Hlen) Ho].
    destruct o as [l|e|]; [| | contradiction].
    + intros [= <- <-]. destruct Ho as [Hl Hh].
      repeat split; auto. exists (length l). split; [congruence | exact Hh].
    + destruct Ho as [-> | ->]; intros [= <- <-]; repeat split; auto;
        unfold may_escape; auto.
  - intros [= <- <-]. cbn [accepted heap log]. auto.
Qed.

Lemma generate_initial_spec (needs : list ref) (w : World)
    (out : outcome (option (list ref))) (w' : World) :
  run (generate_initial json_loads backend needs) w = (out, w') ->
  accepted w' = accepted w
  /\ length (heap w) <= length (heap w')
  /\ match out with
     | Returned (Some l') =>
         log w' = log w
         /\ exists n, l' = needs ++ seq (length (heap w)) n
                      /\ length (heap w') = length (heap w) + n
     | Returned None => log w' = log w ++ [LogInitialParseFailed]
     | Raised e => log w' = log w /\ may_escape e
     | OutOfFuel => False
     end.
Proof.
  unfold generate_initial.
  destruct (backend (length (sent w))) as [text|] eqn:Hreply.
  - rewrite (run_bind_returned _ _ _ _ _ (run_query_text _ _ _ w text Hreply)).
    intros Hrun. apply (try_parse_spec (fun l => needs ++ l)) in Hrun. exact Hrun.
  - rewrite (run_bind_raised _ _ _ _ _ (run_query_absent _ _ _ w Hreply)).
    intros [= <- <-]. cbn [accepted heap log]. unfold may_escape. auto.
Qed.

Lemma improve_spec (good needs : list ref) (w : World)
    (out : outcome (option (list ref))) (w' : World) :
  run (improve json_loads backend good needs) w = (out, w') ->
  accepted w' = accepted w
  /\ length (heap w) <= length (heap w')
  /\ match out with
     | Returned (Some l') =>
         log w' = log w
         /\ exists n, l' = seq (length (heap w)) n
                      /\ length (heap w') = length (heap w) + n
     | Returned None => log w' = log w ++ [LogImprovedParseFailed]
     | Raised e => log w' = log w /\ may_escape e
     | OutOfFuel => False
     end.
Proof.
  unfold improve.
  rewrite (run_bind_returned _ _ _ _ _ (run_ideas_to_json needs w)).
  rewrite (run_bind_returned _ _ _ _ _ (run_ideas_to_json good w)).
  destruct (backend (length (sent w))) as [text|] eqn:Hreply.
  - rewrite (run_bind_returned _ _ _ _ _ (run_query_text _ _ _ w text Hreply)).
    intros Hrun. apply (try_parse_spec (fun l => l)) in Hrun. exact Hrun.
  - rewrite (run_bind_raised _ _ _ _ _ (run_query_absent _ _ _ w Hreply)).
    intros [= <- <-]. cbn [accepted heap log]. unfold may_escape. auto.
Qed.

End Steps.

(** ** What an evaluation leaves behind *)

Lemma fst_zip_sublist (l : list ref) (k : list pyval) :
  fst <$> zip l k `sublist_of` l.
Proof.
  revert k. induction l as [|r l IH]; intros k; [constructor |].
  destruct k as [|v k]; [apply sublist_nil_l |].
  simpl. apply sublist_skip, IH.
Qed.

Lemma good_is_not_weak (v : pyval) :
  py_eq_str v good_enough = true -> py_eq_str v needs_improvement = false.
Proof.
  destruct v; simpl; try discriminate.
  intros H. apply String.eqb_eq in H. now subst.
Qed.

Section Evaluation.

Variable json_loads : string -> option pyval.
Variable backend : nat -> option string.

Lemma evaluate_ideas_spec (ideas : list ref) (w : World)
    (out : outcome (list bool)) (w' : World) :
  NoDup ideas ->
  (forall r, r ∈ ideas -> r < length (heap w)) ->
  run (evaluate_ideas json_loads backend ideas) w = (out, w') ->
  same_size w w'
  /\ match out with
     | Returned bs =>
         length bs <= length ideas
         /\ forall i r, ideas !! i = Some r -> bs !! i = Some true ->
              py_eq_str (rating (heap w' !!! r)) good_enough = true
     | Raised e => may_escape e
     | OutOfFuel => False
     end.
Proof.
  intros Hnd Hvalid. unfold evaluate_ideas.
  rewrite (run_bind_returned _ _ _ _ _ (run_ideas_to_json ideas w)).
  destruct (backend (length (sent w))) as [reply|] eqn:Hreply.
  2:{ rewrite (run_bind_raised _ _ _ _ _ (run_query_absent _ _ _ w Hreply)).
      intros [= <- <-]. split; [unfold same_size; cbn; auto | now left]. }
  rewrite (run_bind_returned _ _ _ _ _ (run_query_text _ _ _ w reply Hreply)).
  rewrite (run_bind_returned _ _ _ _ _ (run_try_loads _ _ _)).
  destruct (json_loads (clean_json_response reply)) as [v|].
  2:{ rewrite (run_bind_returned _ _ _ _ _ (run_mark_all _ _)).
      intros [= <- <-]. split.
      - unfold same_size. cbn [log accepted heap].
        now rewrite length_write_ratings.
      - split; [now rewrite length_replicate |].
        intros i r _ Hb. apply lookup_replicate in Hb as [Hb _]. discriminate. }
  unfold iter. destruct (py_iter v) as [ratings|].
  2:{ intros [= <- <-]. split; [unfold same_size; cbn; auto | right; now right]. }
  rewrite (run_bind_returned _ _ _ _ _ (eq_refl : run (ret ratings) _ = _)).
  destruct (decide (Forall (fun p : nat * pyval => is_dict (snd p) = true)
                      (zip ideas ratings))) as [Hd | Hno].
  - rewrite (run_rate_loop_dicts _ Hd). intros [= <- <-]. split.
    + unfold same_size. cbn [log accepted heap].
      now rewrite length_write_ratings.
    + split.
      * rewrite ?app_nil_l, length_fmap, length_zip. lia.
      * intros i r Hi Hb. cbn [heap]. rewrite ?app_nil_l, list_lookup_fmap in Hb.
        destruct (zip ideas ratings !! i) as [[r' v']|] eqn:Hz; [| discriminate].
        simpl in Hb. injection Hb as Hb.
        pose proof Hz as Hz'. apply lookup_zip_Some in Hz' as [Hr' _].
        assert (r' = r) by congruence. subst r'.
        rewrite (write_ratings_distinct _ _ r (verdict v')); [exact Hb | | |].
        -- rewrite <- list_fmap_compose.
           eapply sublist_NoDup; [exact Hnd | apply fst_zip_sublist].
        -- apply list_elem_of_fmap. exists (r, v'). split; [reflexivity |].
           eapply list_elem_of_lookup_2. exact Hz.
        -- apply Hvalid. eapply list_elem_of_lookup_2. exact Hi.
  - destruct (rate_loop_raises _ Hno [] (mkWorld
        (sent w ++ [EvaluationPrompt (ideas_to_json_in (heap w) ideas)])
        (heap w) (log w) (accepted w))) as [Hout Hsz].
    intros Hrun. rewrite Hrun in Hout, Hsz. simpl in Hout, Hsz. subst out.
    split; [exact Hsz | right; now left].
Qed.

End Evaluation.

Lemma fst_marks (l : list ref) (v : pyval) :
  fst <$> ((fun r => (r, v)) <$> l) = l.
Proof.
  induction l as [|r l IH]; [reflexivity |].
  cbn [fmap list_fmap fst] in *. now rewrite IH.
Qed.

Lemma picked_not_rejected (needs : list ref) (bs : list bool) (r : ref) :
  NoDup needs -> r ∈ picked needs bs -> r ∉ rejected needs bs.
Proof.
  intros Hnd Hp Hr.
  apply elem_of_picked in Hp as (i & Hi & Hbi).
  apply elem_of_rejected in Hr as (j & Hj & Hbj).
  assert (i = j) by (eapply NoDup_lookup; eauto). subst j. congruence.
Qed.

Section Sorting.

Variable json_loads : string -> option pyval.
Variable backend : nat -> option string.

Lemma evaluate_and_sort_spec (good needs : list ref) (w : World)
    (out : outcome (list ref * list ref)) (w' : World) :
  NoDup (good ++ needs) ->
  (forall r, r ∈ good ++ needs -> r < length (heap w)) ->
  run (evaluate_and_sort json_loads backend good needs) w = (out, w') ->
  log w' = log w
  /\ length (heap w') = length (heap w)
  /\ match out with
     | Returned (good', needs') =>
         NoDup (good' ++ needs')
         /\ (forall r, r ∈ good' ++ needs' -> r < length (heap w))
         /\ exists p, good' = good ++ p /\ accepted w' = accepted w ++ p
     | Raised e => accepted w' = accepted w /\ may_escape e
     | OutOfFuel => False
     end.
Proof.
  intros Hnd Hvalid. pose proof Hnd as Hnd'.
  apply NoDup_app in Hnd' as (Hg & Hdis & Hn).
  unfold evaluate_and_sort.
  destruct (run (evaluate_ideas json_loads backend needs) w) as [o w1] eqn:He.
  destruct (evaluate_ideas_spec json_loads backend needs w o w1 Hn) as
    [(Hlog & Hacc & Hlen) Ho]; [| exact He |].
  { intros r Hr. apply Hvalid, elem_of_app. now right. }
  rewrite run_bind, He.
  destruct o as [bs|e|]; [| intros [= <- <-]; auto | contradiction].
  destruct Ho as [Hle Hgood].
  rewrite (run_bind_returned _ _ _ _ _
             (run_sort_loop bs 0 needs good w1 ltac:(simpl; lia))).
  rewrite drop_0.
  match goal with
  | |- run (bind get_heap _) ?w2 = _ -> _ =>
      rewrite (run_bind_returned _ _ _ _ _ (eq_refl : run get_heap w2 = _))
  end.
  intros [= <- <-]. cbn [log heap accepted].
  rewrite length_write_ratings.
  split; [exact Hlog |]. split; [exact Hlen |].
  set (h2 := write_ratings _ (heap w1)).
  assert (forall r, r ∈ picked needs bs -> r ∈ needs) as Hpn
    by (intros r Hr; eapply elem_of_sublist; [exact Hr | apply picked_sublist]).
  assert (forall r, r ∈ picked needs bs -> is_weak h2 r = false) as Hpw.
  { intros r Hr. unfold is_weak, h2.
    rewrite (lookup_total_eq (heap w1)).
    - apply good_is_not_weak.
      apply elem_of_picked in Hr as (i & Hi & Hbi). eauto.
    - apply write_ratings_other. rewrite fst_marks.
      now apply picked_not_rejected. }
  split; [| split].
  - apply NoDup_app. split; [| split].
    + apply NoDup_app. split; [exact Hg | split].
      * intros r Hr Hp. apply (Hdis r Hr), Hpn, Hp.
      * eapply sublist_NoDup; [exact Hn | apply picked_sublist].
    + intros r Hr Hf. apply list_elem_of_filter in Hf as [Hw Hrn].
      apply elem_of_app in Hr as [Hr | Hr].
      * exact (Hdis r Hr Hrn).
      * rewrite (Hpw r Hr) in Hw. discriminate.
    + apply NoDup_filter, Hn.
  - intros r Hr. apply Hvalid.
    rewrite !elem_of_app in Hr. rewrite elem_of_app.
    destruct Hr as [[Hr | Hr] | Hr]; [now left | right; now apply Hpn |].
    apply list_elem_of_filter in Hr as [_ Hr]. now right.
  - exists (picked needs bs). split; [reflexivity | now rewrite Hacc].
Qed.

End Sorting.

(** ** One pass through the loop body *)

Lemma frame_ok_grows (f : Frame) (w w' : World) :
  frame_ok f w -> accepted w' = accepted w -> length (heap w) <= length (heap w') ->
  frame_ok f w'.
Proof.
  intros (Hnd & Hvalid & Hacc) Ha Hlen. split; [exact Hnd | split].
  - intros r Hr. specialize (Hvalid r Hr). lia.
  - congruence.
Qed.

Lemma NoDup_fresh (good : list ref) (base n : nat) :
  NoDup good -> (forall r, r ∈ good -> r < base) -> NoDup (good ++ seq base n).
Proof.
  intros Hnd Hvalid. apply NoDup_app. split; [exact Hnd | split].
  - intros r Hr Hs. apply elem_of_seq in Hs. specialize (Hvalid r Hr). lia.
  - apply NoDup_seq.
Qed.

Section Body.

Variable json_loads : string -> option pyval.
Variable backend : nat -> option string.

Lemma improve_and_check_spec (a : nat) (good needs : list ref) (w : World)
    (out : outcome ctrl) (w' : World) :
  frame_ok (mkFrame a good needs) w ->
  run (improve_and_check json_loads backend a good needs) w = (out, w') ->
  body_post a [] w out w'.
Proof.
  intros Hok. pose proof Hok as (Hnd & Hvalid & Hacc). cbn in Hnd, Hvalid, Hacc.
  assert (NoDup good) as Hg by (apply NoDup_app in Hnd; tauto).
  assert (forall r, r ∈ good -> r < length (heap w)) as Hgv
    by (intros r Hr; apply Hvalid, elem_of_app; now left).
  unfold improve_and_check. destruct needs as [|x needs]; cbn [is_empty].
  - rewrite (run_bind_returned _ _ _ _ _ (eq_refl : run (ret (Some [])) w = _)).
    cbn [is_empty].
    rewrite (run_bind_returned _ _ _ _ _ (eq_refl : run (logging LogAllGood) w = _)).
    intros [= <- <-]. unfold body_post. cbn [log app].
    split; [| auto]. eapply frame_ok_grows; eauto.
  - destruct (run (improve json_loads backend good (x :: needs)) w) as [o w1] eqn:Hi.
    destruct (improve_spec json_loads backend _ _ _ _ _ Hi) as (Ha & Hlen & Ho).
    rewrite run_bind, Hi.
    destruct o as [[l'|]|e|]; [| | | contradiction].
    + destruct Ho as (Hlog & n & -> & Hh).
      assert (frame_ok (mkFrame a good (seq (length (heap w)) n)) w1) as Hok1.
      { split; [| split]; cbn.
        - now apply NoDup_fresh.
        - intros r Hr. apply elem_of_app in Hr as [Hr | Hr].
          + specialize (Hgv r Hr). lia.
          + apply elem_of_seq in Hr. lia.
        - congruence. }
      destruct n as [|n]; cbn [seq is_empty] in *.
      * rewrite (run_bind_returned _ _ _ _ _
                   (eq_refl : run (logging LogAllGood) w1 = _)).
        intros [= <- <-]. unfold body_post. cbn [log app].
        split; [eapply frame_ok_grows; eauto |].
        repeat split; auto. congruence.
      * intros [= <- <-]. unfold body_post. cbn [app].
        split; [exact Hok1 | split; [reflexivity |]].
        exists []. rewrite app_nil_r. auto.
    + intros [= <- <-]. unfold body_post. cbn [app].
      split; [| split; [reflexivity |]].
      * eapply frame_ok_grows; eauto.
      * exists [LogImprovedParseFailed]. split; [exact Ho |].
        constructor; [now right | constructor].
    + intros [= <- <-]. unfold body_post. now rewrite app_nil_r.
Qed.

Lemma evaluate_improve_spec (a : nat) (good needs : list ref) (w : World)
    (out : outcome ctrl) (w' : World) :
  frame_ok (mkFrame a good needs) w ->
  run (do sorted <- (if is_empty needs then ret (good, needs)
                     else evaluate_and_sort json_loads backend good needs);
       improve_and_check json_loads backend a (fst sorted) (snd sorted)) w
  = (out, w') ->
  body_post a [] w out w'.
Proof.
  intros Hok. pose proof Hok as (Hnd & Hvalid & Hacc). cbn in Hnd, Hvalid, Hacc.
  destruct needs as [|x needs]; cbn [is_empty].
  - rewrite (run_bind_returned _ _ _ _ _ (eq_refl : run (ret (good, [])) w = _)).
    now apply improve_and_check_spec.
  - destruct (run (evaluate_and_sort json_loads backend good (x :: needs)) w)
      as [o w1] eqn:He.
    destruct (evaluate_and_sort_spec json_loads backend _ _ _ _ _ Hnd Hvalid He)
      as (Hlog & Hlen & Ho).
    rewrite run_bind, He.
    destruct o as [[good' needs']|e|]; [| | contradiction].
    + destruct Ho as (Hnd' & Hvalid' & p & -> & Ha). cbn [fst snd].
      intros Hrun. apply improve_and_check_spec in Hrun.
      * unfold body_post in *. now rewrite Hlog in Hrun.
      * split; [exact Hnd' | split; cbn].
        -- intros r Hr. rewrite Hlen. now apply Hvalid'.
        -- congruence.
    + intros [= <- <-]. cbn. rewrite app_nil_r. destruct Ho. auto.
Qed.

Lemma loop_body_spec (f : Frame) (w : World) (out : outcome ctrl) (w' : World) :
  frame_ok f w ->
  run (loop_body json_loads backend f) w = (out, w') ->
  body_post (attempts f + 1) [LogAttempt (attempts f + 1)] w out w'.
Proof.
  intros Hok. unfold loop_body.
  rewrite (run_bind_returned _ _ _ _ _ (eq_refl : run (logging _) w = _)).
  set (w0 := mkWorld (sent w) (heap w) (log w ++ [LogAttempt (attempts f + 1)])
               (accepted w)).
  assert (frame_ok f w0) as Hok0 by (eapply frame_ok_grows; eauto).
  assert (forall o1 w1,
             body_post (attempts f + 1) [] w0 o1 w1 ->
             body_post (attempts f + 1) [LogAttempt (attempts f + 1)] w o1 w1)
    as Hshift.
  { intros o1 w1. unfold body_post, w0. cbn [log app].
    destruct o1 as [[f'|f' r]|e|]; [| | | auto].
    - intros (H1 & H2 & es & H3 & H4). split; [exact H1 | split; [exact H2 |]].
      exists es. split; [| exact H4]. now rewrite H3, <- app_assoc.
    - intros (H1 & H2 & H3 & H4 & H5).
      split; [exact H1 | split; [exact H2 | split; [exact H3 | split; [exact H4 |]]]].
      now rewrite H5, <- app_assoc.
    - intros [H1 H2]. split; [| exact H2]. now rewrite H1, app_nil_r. }
  clearbody w0.
  destruct f as [a good needs]. cbn [attempts good_enough_ideas needs_improvement_ideas] in *.
  destruct (is_empty good && is_empty needs) eqn:Hempty.
  - destruct good; [| discriminate]. destruct needs; [| discriminate].
    destruct (run (generate_initial json_loads backend []) w0) as [o w1] eqn:Hg.
    destruct (generate_initial_spec json_loads backend _ _ _ _ Hg) as (Ha & Hlen & Ho).
    rewrite run_bind, Hg.
    destruct o as [[l'|]|e|]; [| | | contradiction].
    + destruct Ho as (Hlog & n & -> & Hh). intros Hrun.
      apply evaluate_improve_spec in Hrun.
      * apply Hshift. unfold body_post in *. now rewrite Hlog in Hrun.
      * destruct Hok0 as (_ & _ & Hacc). cbn in Hacc.
        split; [| split]; cbn.
        -- apply NoDup_seq.
        -- intros r Hr. apply elem_of_seq in Hr. lia.
        -- congruence.
    + intros [= <- <-]. apply Hshift. cbn. split; [| split; [reflexivity |]].
      * eapply frame_ok_grows; eauto.
      * exists [LogInitialParseFailed]. split; [exact Ho |].
        constructor; [now left | constructor].
    + intros [= <- <-]. apply Hshift. cbn. now rewrite app_nil_r.
  - rewrite (run_bind_returned _ _ _ _ _ (eq_refl : run (ret (Some needs)) w0 = _)).
    intros Hrun. apply evaluate_improve_spec in Hrun; auto.
Qed.

End Body.

(** ** The loop *)

Lemma attempts_logged_app (l k : list event) :
  attempts_logged (l ++ k) = attempts_logged l ++ attempts_logged k.
Proof.
  induction l as [|e l IH]; [reflexivity |].
  destruct e; simpl; now rewrite IH.
Qed.

Lemma attempts_logged_failures (es : list event) :
  Forall parse_failure es -> attempts_logged es = [].
Proof.
  induction 1 as [|e es [-> | ->] _ IH]; [reflexivity | exact IH | exact IH].
Qed.

Lemma all_good_not_failure (es : list event) :
  Forall parse_failure es -> LogAllGood ∉ es.
Proof.
  intros Hf Hin. apply (proj1 (Forall_forall _ _) Hf) in Hin.
  destruct Hin; discriminate.
Qed.

Section Loop.

Variable json_loads : string -> option pyval.
Variable backend : nat -> option string.

Lemma while_loop_spec (fuel : nat) :
  forall (f : Frame) (w : World) (out : outcome (Frame * list ref)) (w' : World),
    frame_ok f w ->
    attempts f <= max_attempts ->
    max_attempts - attempts f < fuel ->
    run (while_loop json_loads backend fuel f) w = (out, w') ->
    loop_post f w out w'.
Proof.
  induction fuel as [|fuel IH]; intros f w out w' Hok Hle Hfuel; [lia |].
  cbn [while_loop]. destruct (attempts f <? max_attempts) eqn:Hlt.
  - apply Nat.ltb_lt in Hlt.
    destruct (run (loop_body json_loads backend f) w) as [o w1] eqn:Hb.
    pose proof (loop_body_spec json_loads backend f w o w1 Hok Hb) as Hpost.
    rewrite run_bind, Hb.
    destruct o as [[f'|f' r]|e|]; cbn in Hpost; [| | | contradiction].
    + destruct Hpost as (Hok' & Ha & es1 & Hlog & Hes1). intros Hrun.
      apply IH in Hrun; [| exact Hok' | lia | lia].
      destruct Hrun as (k & es & Hk & Hlog' & Hatt & Hout).
      exists (S k), (LogAttempt (attempts f + 1) :: es1 ++ es).
      split; [lia |]. split; [| split].
      * rewrite Hlog', Hlog. now rewrite <- !app_assoc.
      * cbn [attempts_logged]. rewrite attempts_logged_app.
        rewrite (attempts_logged_failures _ Hes1), Hatt, Ha. cbn [app seq].
        f_equal. f_equal. lia.
      * destruct out as [[f2 res]|e|]; [| exact Hout | exact Hout].
        destruct Hout as (Hok2 & Ha2 & Hexit).
        split; [exact Hok2 | split; [lia |]].
        destruct Hexit as [(Hin & Hres & Hneeds) | (Hnin & Hmax & Hres)].
        -- left. split; [| auto].
           apply elem_of_cons. right. apply elem_of_app. now right.
        -- right. split; [| auto].
           intros Hin. apply elem_of_cons in Hin as [Hin | Hin]; [discriminate |].
           apply elem_of_app in Hin as [Hin | Hin]; [| exact (Hnin Hin)].
           exact (all_good_not_failure _ Hes1 Hin).
    + destruct Hpost as (Hok' & Ha & Hr & Hneeds & Hlog).
      intros [= <- <-].
      exists 1, [LogAttempt (attempts f + 1); LogAllGood].
      split; [lia |]. split; [exact Hlog |]. split; [reflexivity |].
      split; [exact Hok' | split; [exact Ha |]].
      left. split; [| auto]. apply elem_of_cons. right. apply list_elem_of_here.
    + destruct Hpost as [Hlog He]. intros [= <- <-].
      exists 1, [LogAttempt (attempts f + 1)].
      split; [lia |]. split; [exact Hlog |]. split; [reflexivity | exact He].
  - apply Nat.ltb_ge in Hlt.
    rewrite (run_bind_returned _ _ _ _ _ (eq_refl : run (logging LogMaxAttempts) w = _)).
    intros [= <- <-]. exists 0, [LogMaxAttempts].
    split; [lia |]. split; [reflexivity |]. split; [reflexivity |].
    split; [eapply frame_ok_grows; eauto | split; [lia |]].
    right. split; [| split; [unfold max_attempts in *; lia | reflexivity]].
    intros Hin. apply list_elem_of_singleton in Hin. discriminate.
Qed.

End Loop.

(** ** The run of [generate_ideas] *)

Section Run.

Variable json_loads : string -> option pyval.
Variable backend : nat -> option string.

Lemma run_generate_ideas (w : World) :
  run (generate_ideas json_loads backend) w
  = match run (while_loop json_loads backend (S max_attempts) frame0) w with
    | (Returned exit, w') => (Returned (snd exit), w')
    | (Raised e, w') => (Raised e, w')
    | (OutOfFuel, w') => (OutOfFuel, w')
    end.
Proof. reflexivity. Qed.

Lemma frame0_ok (w : World) : accepted w = [] -> frame_ok frame0 w.
Proof.
  intros Hacc. split; [constructor | split; [| exact Hacc]].
  intros r Hr. now apply elem_of_nil in Hr.
Qed.

Lemma generate_ideas_loop_post (w : World) :
  accepted w = [] ->
  loop_post frame0 w
    (fst (run (while_loop json_loads backend (S max_attempts) frame0) w))
    (snd (run (while_loop json_loads backend (S max_attempts) frame0) w)).
Proof.
  intros Hacc. apply (while_loop_spec json_loads backend (S max_attempts)).
  - now apply frame0_ok.
  - unfold frame0, max_attempts. cbn [attempts]. lia.
  - unfold frame0, max_attempts. cbn [attempts]. lia.
  - now destruct (run _ w).
Qed.

(** The exceptions that leave [generate_ideas]: never the decode error. *)
Lemma generate_ideas_escaping_exceptions (w : World) (e : exn) (w' : World) :
  accepted w = [] ->
  run (generate_ideas json_loads backend) w = (Raised e, w') ->
  may_escape e.
Proof.
  intros Hacc. rewrite run_generate_ideas.
  pose proof (generate_ideas_loop_post w Hacc) as (k & es & _ & _ & _ & Hout).
  destruct (run (while_loop _ _ _ _) w) as [[[f res]|e0|] w1];
    simpl in Hout; [discriminate | | contradiction].
  now intros [= <- <-].
Qed.

Lemma improve_and_check_attempts (a : nat) (good needs : list ref) (w : World)
    (c : ctrl) (w' : World) :
  run (improve_and_check json_loads backend a good needs) w = (Returned c, w') ->
  attempts (ctrl_frame c) = a.
Proof.
  unfold improve_and_check. rewrite run_bind.
  destruct (run _ w) as [[[l|]|e|] w1]; try discriminate.
  - destruct (is_empty l).
    + rewrite (run_bind_returned _ _ _ _ _
                 (eq_refl : run (logging LogAllGood) w1 = _)).
      now intros [= <- _].
    + now intros [= <- _].
  - now intros [= <- _].
Qed.

Lemma loop_body_attempts (f : Frame) (w : World) (c : ctrl) (w' : World) :
  run (loop_body json_loads backend f) w = (Returned c, w') ->
  attempts (ctrl_frame c) = attempts f + 1.
Proof.
  unfold loop_body.
  rewrite (run_bind_returned _ _ _ _ _ (eq_refl : run (logging _) w = _)).
  rewrite run_bind.
  destruct (run _ _) as [[[needs1|]|e|] w1]; try discriminate.
  - rewrite run_bind.
    destruct (run _ w1) as [[sorted|e|] w2]; try discriminate.
    apply improve_and_check_attempts.
  - now intros [= <- _].
Qed.

(** C8: whatever the replies, the run ends, by a return or by an exception;
    the passes through the loop body are at most [max_attempts], and the
    attempt numbers they log are 1, 2, ..., one more at each pass; a pass
    that ends, by [continue], at the end of the body or at the [return],
    leaves [attempts] one above what it found. *)
Theorem generate_ideas_attempts_bounded (w : World)
    (out : outcome (list ref)) (w' : World) :
  accepted w = [] ->
  run (generate_ideas json_loads backend) w = (out, w') ->
  (out <> OutOfFuel
   /\ exists k es,
        k <= max_attempts
        /\ log w' = log w ++ es
        /\ attempts_logged es = seq 1 k)
  /\ (forall f w0 c w1,
        run (loop_body json_loads backend f) w0 = (Returned c, w1) ->
        attempts (ctrl_frame c) = attempts f + 1).
Proof.
  intros Hacc Hrun. split; [| apply loop_body_attempts].
  revert Hrun. rewrite run_generate_ideas.
  pose proof (generate_ideas_loop_post w Hacc) as (k & es & Hk & Hlog & Hatt & Hout).
  destruct (run (while_loop _ _ _ _) w) as [[[f res]|e0|] w1];
    simpl in Hout, Hlog; [| | contradiction];
    intros [= <- <-]; (split; [discriminate |]);
    exists k, es; auto.
Qed.

(** C7 (as amended): when the run returns -- no exception was raised -- and
    never left through the test of step 4, it made exactly [max_attempts]
    passes and its result is the good ideas followed by the pending ones. *)
Theorem generate_ideas_exhausted (w : World) (res : list ref) (w' : World)
    (es : list event) :
  accepted w = [] ->
  run (generate_ideas json_loads backend) w = (Returned res, w') ->
  log w' = log w ++ es ->
  LogAllGood ∉ es ->
  attempts_logged es = seq 1 max_attempts
  /\ exists f',
       run (while_loop json_loads backend (S max_attempts) frame0) w
       = (Returned (f', res), w')
       /\ attempts f' = max_attempts
       /\ good_enough_ideas f' = accepted w'
       /\ res = good_enough_ideas f' ++ needs_improvement_ideas f'.
Proof.
  intros Hacc. rewrite run_generate_ideas.
  pose proof (generate_ideas_loop_post w Hacc) as (k & es0 & Hk & Hlog & Hatt & Hout).
  destruct (run (while_loop _ _ _ _) w) as [[[f res0]|e0|] w1];
    simpl in Hout, Hlog; [| discriminate | discriminate].
  intros [= <- <-] Hlog' Hnot.
  assert (es0 = es) by (apply (app_inv_head (log w)); congruence). subst es0.
  destruct Hout as ((_ & _ & Hhist) & Ha & [(Hin & _) | (_ & Hmax & Hres)]);
    [contradiction |].
  simpl in Ha. split.
  - rewrite Hatt. f_equal. lia.
  - exists f. auto.
Qed.

(** C9 (as amended): when the run returns, on either exit, the result
    begins with every idea that was ever appended to the good ones, in the
    order of their acceptance, and no object occurs in it twice; the
    improvement puts in the place of the pending ideas -- it does not add to
    them -- exactly the batch built from its reply, made of distinct objects
    that did not exist before, so none of them is a good idea or a replaced
    one, and it leaves the good ideas as they are. *)
Theorem generate_ideas_keeps_accepted (w : World) (res : list ref) (w' : World) :
  accepted w = [] ->
  run (generate_ideas json_loads backend) w = (Returned res, w') ->
  (NoDup res
   /\ (forall r, r ∈ accepted w' -> r ∈ res)
   /\ exists pending, res = accepted w' ++ pending)
  /\ (forall a good needs w0 improved w1,
        run (improve json_loads backend good needs) w0 = (Returned (Some improved), w1) ->
        NoDup improved
        /\ (forall r, r ∈ improved -> length (heap w0) <= r)
        /\ (needs <> [] ->
            exists c w2,
              run (improve_and_check json_loads backend a good needs) w0
              = (Returned c, w2)
              /\ good_enough_ideas (ctrl_frame c) = good
              /\ needs_improvement_ideas (ctrl_frame c) = improved
              /\ accepted w2 = accepted w0)).
Proof.
  intros Hacc Hrun. split.
  2:{ intros a good needs w0 improved w1 Hi.
      pose proof Hi as Hspec.
      apply improve_spec in Hspec as (Ha & _ & _ & n & -> & _).
      split; [apply NoDup_seq | split].
      - intros r Hr. apply elem_of_seq in Hr. lia.
      - intros Hneeds. unfold improve_and_check.
        destruct needs as [|x needs]; [congruence |]. cbn [is_empty].
        rewrite (run_bind_returned _ _ _ _ _ Hi).
        destruct (seq (length (heap w0)) n) as [|y l] eqn:Hseq; cbn [is_empty].
        + rewrite (run_bind_returned _ _ _ _ _
                     (eq_refl : run (logging LogAllGood) w1 = _)).
          eexists _, _. split; [reflexivity |]. cbn. auto.
        + eexists _, _. split; [reflexivity |]. cbn. auto. }
  revert Hrun. rewrite run_generate_ideas.
  pose proof (generate_ideas_loop_post w Hacc) as (k & es & _ & _ & _ & Hout).
  destruct (run (while_loop _ _ _ _) w) as [[[f res0]|e0|] w1];
    simpl in Hout; [| discriminate | discriminate].
  intros [= <- <-].
  destruct Hout as ((Hnd & _ & Hhist) & _ & Hexit).
  assert (NoDup res0 /\ exists pending, res0 = accepted w1 ++ pending) as [H1 H2].
  { destruct Hexit as [(_ & -> & Hneeds) | (_ & _ & ->)].
    - split.
      + apply NoDup_app in Hnd. tauto.
      + exists []. now rewrite app_nil_r, Hhist.
    - split; [exact Hnd |]. exists (needs_improvement_ideas f). now rewrite Hhist. }
  split; [exact H1 | split; [| exact H2]].
  destruct H2 as [pending ->]. intros r Hr. apply elem_of_app. now left.
Qed.


End Run.

(** ** The runs of the examples *)


Lemma generate_ideas_attempts_bounded_witness :
  (fst (run (generate_ideas JsonText.json_loads Example.never_good) world0) <> OutOfFuel
   /\ exists k es,
        k <= max_attempts
        /\ log (snd (run (generate_ideas JsonText.json_loads Example.never_good) world0))
           = log world0 ++ es
        /\ attempts_logged es = seq 1 k)
  /\ attempts (ctrl_frame (Continue (mkFrame 1 [] [1]))) = 0 + 1.
Proof.
  destruct (generate_ideas_attempts_bounded JsonText.json_loads Example.never_good
              world0
              (fst (run (generate_ideas JsonText.json_loads Example.never_good) world0))
              (snd (run (generate_ideas JsonText.json_loads Example.never_good) world0)))
    as [Hrun Hpass].
  - reflexivity.
  - vm_compute. reflexivity.
  - split; [exact Hrun |].
    apply (Hpass frame0 world0 (Continue (mkFrame 1 [] [1]))
             (snd (run (loop_body JsonText.json_loads Example.never_good frame0)
                       world0))).
    vm_compute. reflexivity.
Defined.

Lemma generate_ideas_exhausted_witness :
  attempts_logged
    [LogAttempt 1; LogAttempt 2; LogAttempt 3; LogAttempt 4; LogAttempt 5;
     LogMaxAttempts] = seq 1 max_attempts
  /\ exists f',
       run (while_loop JsonText.json_loads Example.never_good (S max_attempts) frame0)
           world0
       = (Returned (f', [5]),
          snd (run (generate_ideas JsonText.json_loads Example.never_good) world0))
       /\ attempts f' = max_attempts
       /\ good_enough_ideas f'
          = accepted (snd (run (generate_ideas JsonText.json_loads
                                  Example.never_good) world0))
       /\ [5] = good_enough_ideas f' ++ needs_improvement_ideas f'.
Proof.
  apply (generate_ideas_exhausted JsonText.json_loads Example.never_good world0).
  - reflexivity.
  - vm_compute. reflexivity.
  - vm_compute. reflexivity.
  - intros H. repeat (apply elem_of_cons in H as [H | H]; [discriminate |]).
    now apply elem_of_nil in H.
Defined.

Lemma generate_ideas_keeps_accepted_witness :
  (NoDup [0; 6]
   /\ (forall r,
         r ∈ accepted (snd (run (generate_ideas JsonText.json_loads
                                   Example.one_good) world0)) ->
         r ∈ [0; 6])
   /\ exists pending,
        [0; 6] = accepted (snd (run (generate_ideas JsonText.json_loads
                                       Example.one_good) world0)) ++ pending)
  /\ accepted (snd (run (generate_ideas JsonText.json_loads Example.one_good) world0))
     = [0]
  /\ (NoDup [2]
      /\ (forall r, r ∈ [2] -> 2 <= r)
      /\ exists c w2,
           run (improve_and_check JsonText.json_loads Example.one_good 1 [0] [1])
               (mkWorld [GenerationPrompt; EvaluationPrompt
                           (PList [PDict [("title", PStr "1"); ("description", PStr "d")];
                                   PDict [("title", PStr "2"); ("description", PStr "d")]])]
                  [mkIdeaItem (PStr "1") (PStr "d") (PStr good_enough);
                   mkIdeaItem (PStr "2") (PStr "d") (PStr needs_improvement)] [] [0])
           = (Returned c, w2)
           /\ good_enough_ideas (ctrl_frame c) = [0]
           /\ needs_improvement_ideas (ctrl_frame c) = [2]
           /\ accepted w2 = [0]).
Proof.
  destruct (generate_ideas_keeps_accepted JsonText.json_loads
              Example.one_good world0 [0; 6]
              (snd (run (generate_ideas JsonText.json_loads
                           Example.one_good) world0)))
    as [Hrun Hstep].
  - reflexivity.
  - vm_compute. reflexivity.
  - split; [exact Hrun | split; [vm_compute; reflexivity |]].
    destruct (Hstep 1 [0] [1]
                (mkWorld [GenerationPrompt; EvaluationPrompt
                           (PList [PDict [("title", PStr "1"); ("description", PStr "d")];
                                   PDict [("title", PStr "2"); ("description", PStr "d")]])]
                   [mkIdeaItem (PStr "1") (PStr "d") (PStr good_enough);
                    mkIdeaItem (PStr "2") (PStr "d") (PStr needs_improvement)] [] [0])
                [2]
                (snd (run (improve JsonText.json_loads Example.one_good [0] [1])
                          (mkWorld [GenerationPrompt; EvaluationPrompt
                           (PList [PDict [("title", PStr "1"); ("description", PStr "d")];
                                   PDict [("title", PStr "2"); ("description", PStr "d")]])]
                             [mkIdeaItem (PStr "1") (PStr "d") (PStr good_enough);
                              mkIdeaItem (PStr "2") (PStr "d") (PStr needs_improvement)]
                             [] [0]))))
      as (Hnd & Hnew & Hloop).
    + vm_compute. reflexivity.
    + split; [exact Hnd | split; [exact Hnew |]].
      apply Hloop. discriminate.
Defined.

(** C9 (as stated) fails: the reply to the improvement request repeats the
    idea that was accepted in the first pass, and the copy passes the next
    evaluation; the result then holds the idea twice, the second time in the
    object that the improvement built. *)
Lemma generate_ideas_copied_idea :
  fst (run (generate_ideas JsonText.json_loads Example.copycat) world0)
  = Returned [0; 2]
  /\ heap (snd (run (generate_ideas JsonText.json_loads Example.copycat) world0))
     = [mkIdeaItem (PStr "1") (PStr "d") (PStr good_enough);
        mkIdeaItem (PStr "2") (PStr "d") (PStr needs_improvement);
        mkIdeaItem (PStr "1") (PStr "d") (PStr good_enough)]
  /\ ~ Spec.no_duplicate_items
        (heap (snd (run (generate_ideas JsonText.json_loads Example.copycat) world0)))
        [0; 2].
Proof.
  assert (heap (snd (run (generate_ideas JsonText.json_loads Example.copycat) world0))
          = [mkIdeaItem (PStr "1") (PStr "d") (PStr good_enough);
             mkIdeaItem (PStr "2") (PStr "d") (PStr needs_improvement);
             mkIdeaItem (PStr "1") (PStr "d") (PStr good_enough)]) as Hheap
    by (vm_compute; reflexivity).
  split; [vm_compute; reflexivity | split; [exact Hheap |]].
  rewrite Hheap. unfold Spec.no_duplicate_items. cbn.
  intros H. apply NoDup_cons in H as [H _]. apply H. now left.
Qed.

(** C7 (as stated) fails: after a generation of one idea and a verdict that
    keeps it pending, the backend has no content for the improvement
    request; the run ends in the first pass, with the exception. *)
Lemma generate_ideas_stops_on_backend_error :
  run (generate_ideas JsonText.json_loads Example.no_improvement) world0
  = (Raised BackendError,
     mkWorld
       [GenerationPrompt;
        EvaluationPrompt (PList [PDict [("title", PStr "1"); ("description", PStr "d")]]);
        ImprovementPrompt (PList [])
          (PList [PDict [("title", PStr "1"); ("description", PStr "d")]])]
       [mkIdeaItem (PStr "1") (PStr "d") (PStr "Needs improvement")]
       [LogAttempt 1] []).
Proof. vm_compute. reflexivity. Qed.

(** C2 fails on the code: a generation reply that is an array of strings is
    valid JSON, and [parse_ideas] raises on its first element; the handler
    catches the decode error only. *)
Theorem generate_ideas_raises_on_array_of_strings :
  run (generate_ideas JsonText.json_loads Example.ideas_as_strings) world0
  = (Raised AttributeError, mkWorld [GenerationPrompt] [] [LogAttempt 1] []).
Proof. vm_compute. reflexivity. Qed.

(** ** More on [parse_ideas] *)

Lemma run_parse_ideas_loop_app (pre rest : list pyval) :
  Forall (fun v => is_dict v = true) pre ->
  forall (acc : list ref) (w : World),
    run (parse_ideas_loop (pre ++ rest) acc) w
    = run (parse_ideas_loop rest (acc ++ seq (length (heap w)) (length pre)))
          (mkWorld (sent w) (heap w ++ (item_of <$> pre)) (log w) (accepted w)).
Proof.
  induction 1 as [|v pre Hv _ IH]; intros acc w.
  - simpl. now rewrite !app_nil_r, world_eta.
  - cbn [app parse_ideas_loop].
    rewrite (run_bind_returned _ _ _ _ _ (py_get_dict v _ _ w Hv)).
    rewrite (run_bind_returned _ _ _ _ _ (py_get_dict v _ _ w Hv)).
    rewrite (run_bind_returned _ _ _ _ _ (eq_refl : run (new_IdeaItem _ _) w = _)).
    rewrite IH. cbn [sent heap log accepted].
    rewrite length_app, <- !app_assoc. simpl.
    replace (length (heap w) + 1) with (S (length (heap w))) by lia.
    reflexivity.
Qed.

(** X2: the first record that is not an object stops the decoding. *)
Theorem parse_ideas_stops_at_bad_record (pre post : list pyval) (v : pyval) (w : World) :
  Forall (fun x => is_dict x = true) pre ->
  is_dict v = false ->
  run (parse_ideas (PList (pre ++ v :: post))) w
  = (Raised AttributeError,
     mkWorld (sent w) (heap w ++ (item_of <$> pre)) (log w) (accepted w)).
Proof.
  intros Hpre Hv. rewrite run_parse_ideas_list, (run_parse_ideas_loop_app _ _ Hpre).
  cbn [parse_ideas_loop]. now rewrite (run_bind_raised _ _ _ _ _ (py_get_other v _ _ _ Hv)).
Qed.

Lemma first_bad_record (l : list pyval) :
  ~ Forall (fun x => is_dict x = true) l ->
  exists pre v post,
    l = pre ++ v :: post
    /\ Forall (fun x => is_dict x = true) pre /\ is_dict v = false.
Proof.
  induction l as [|x l IH]; intros Hno.
  - exfalso. apply Hno. constructor.
  - destruct (is_dict x) eqn:Hx.
    + destruct IH as (pre & v & post & -> & Hpre & Hv).
      { intros H. apply Hno. now constructor. }
      exists (x :: pre), v, post. repeat split; [now constructor | exact Hv].
    + exists [], x, l. repeat split; [constructor | exact Hx].
Qed.

(** X1: [parse_ideas] returns exactly on an array of objects -- and on the
    empty object and the empty string, which have nothing to iterate;
    it raises [TypeError] exactly on a value that cannot be iterated. *)
Theorem parse_ideas_returns_iff (v : pyval) (w : World) :
  ((exists l w', run (parse_ideas v) w = (Returned l, w'))
   <-> (exists records, v = PList records
                        /\ Forall (fun x => is_dict x = true) records)
       \/ v = PDict [] \/ v = PStr "")
  /\ (fst (run (parse_ideas v) w) = Raised TypeError
      <-> match v with PList _ | PDict _ | PStr _ => False | _ => True end).
Proof.
  split.
  - split.
    + intros (l & w' & Hrun). destruct v as [| | | |s|records|d]; try discriminate.
      * destruct s; [auto | discriminate].
      * left. exists records. split; [reflexivity |].
        destruct (decide (Forall (fun x => is_dict x = true) records)) as [Hd | Hno];
          [exact Hd |].
        apply first_bad_record in Hno as (pre & x & post & -> & Hpre & Hx).
        rewrite run_parse_ideas_list, (run_parse_ideas_loop_app _ _ Hpre) in Hrun.
        cbn [parse_ideas_loop] in Hrun.
        rewrite (run_bind_raised _ _ _ _ _ (py_get_other x _ _ _ Hx)) in Hrun.
        discriminate.
      * destruct d as [|[k x] d]; [auto | discriminate].
    + intros [(records & -> & Hd) | [-> | ->]].
      * eexists _, _. rewrite run_parse_ideas_list. now apply parse_ideas_loop_dicts.
      * now exists [], w.
      * now exists [], w.
  - destruct v as [| | | |s|records|d]; try (split; [intros _; exact I | reflexivity]).
    + split; [| contradiction]. destruct s; discriminate.
    + split; [| contradiction].
      destruct (decide (Forall (fun x => is_dict x = true) records)) as [Hd | Hno].
      * rewrite run_parse_ideas_list, (parse_ideas_loop_dicts _ Hd). discriminate.
      * apply first_bad_record in Hno as (pre & x & post & -> & Hpre & Hx).
        rewrite run_parse_ideas_list, (run_parse_ideas_loop_app _ _ Hpre).
        cbn [parse_ideas_loop].
        rewrite (run_bind_raised _ _ _ _ _ (py_get_other x _ _ _ Hx)). discriminate.
    + split; [| contradiction]. destruct d as [|[k x] d]; discriminate.
Qed.

(** What [parse_ideas] does to the world. *)
Lemma parse_ideas_allocates (v : pyval) (w : World) :
  exists news,
    snd (run (parse_ideas v) w)
    = mkWorld (sent w) (heap w ++ news) (log w) (accepted w)
    /\ Forall (fun it => rating it = PNone) news
    /\ forall l, fst (run (parse_ideas v) w) = Returned l ->
         l = seq (length (heap w)) (length news).
Proof.
  assert (forall l : list pyval, Forall (fun it => rating it = PNone) (item_of <$> l))
    as Hunrated by (intros l; apply Forall_fmap, Forall_true; reflexivity).
  unfold parse_ideas, iter. destruct (py_iter v) as [elems|].
  - rewrite (run_bind_returned _ _ _ _ _ (eq_refl : run (ret elems) w = _)).
    destruct (decide (Forall (fun x => is_dict x = true) elems)) as [Hd | Hno].
    + exists (item_of <$> elems). rewrite (parse_ideas_loop_dicts _ Hd).
      split; [reflexivity | split; [apply Hunrated |]].
      intros l [= <-]. now rewrite length_fmap.
    + apply first_bad_record in Hno as (pre & x & post & -> & Hpre & Hx).
      exists (item_of <$> pre). rewrite (run_parse_ideas_loop_app _ _ Hpre).
      cbn [parse_ideas_loop].
      rewrite (run_bind_raised _ _ _ _ _ (py_get_other x _ _ _ Hx)).
      split; [reflexivity | split; [apply Hunrated | discriminate]].
  - exists []. cbn. rewrite app_nil_r, world_eta. repeat split; [constructor | discriminate].
Qed.

(** X3: whatever it is given and however it ends, [parse_ideas] only adds
    objects, all of them unrated. *)
Theorem parse_ideas_only_allocates (v : pyval) (w : World) :
  exists news,
    snd (run (parse_ideas v) w)
    = mkWorld (sent w) (heap w ++ news) (log w) (accepted w)
    /\ Forall (fun it => rating it = PNone) news
    /\ forall l, fst (run (parse_ideas v) w) = Returned l ->
         l = seq (length (heap w)) (length news).
Proof. exact (parse_ideas_allocates v w). Qed.

(** ** More on [evaluate_ideas] *)

Lemma first_bad_pair (l : list (nat * pyval)) :
  ~ Forall (fun p => is_dict (snd p) = true) l ->
  exists pre p post,
    l = pre ++ p :: post
    /\ Forall (fun p => is_dict (snd p) = true) pre /\ is_dict (snd p) = false.
Proof.
  induction l as [|x l IH]; intros Hno.
  - exfalso. apply Hno. constructor.
  - destruct (is_dict (snd x)) eqn:Hx.
    + destruct IH as (pre & v & post & -> & Hpre & Hv).
      { intros H. apply Hno. now constructor. }
      exists (x :: pre), v, post. repeat split; [now constructor | exact Hv].
    + exists [], x, l. repeat split; [constructor | exact Hx].
Qed.

Lemma write_ratings_app (ws1 ws2 : list (nat * pyval)) (h : list IdeaItem) :
  write_ratings (ws1 ++ ws2) h = write_ratings ws2 (write_ratings ws1 h).
Proof. unfold write_ratings. now rewrite foldl_app. Qed.

Lemma texts_after_alter (v : pyval) (i r : nat) (h : list IdeaItem) :
  title (alter (with_rating v) i h !!! r) = title (h !!! r)
  /\ description (alter (with_rating v) i h !!! r) = description (h !!! r).
Proof.
  rewrite !list_lookup_total_alt, list_lookup_alter.
  case_decide as Hi; [subst i |]; [| auto].
  now destruct (h !! r).
Qed.

Lemma write_ratings_texts (ws : list (nat * pyval)) (h : list IdeaItem) (r : nat) :
  title (write_ratings ws h !!! r) = title (h !!! r)
  /\ description (write_ratings ws h !!! r) = description (h !!! r).
Proof.
  induction ws as [|p ws IH] using rev_ind; [auto |].
  rewrite write_ratings_snoc.
  destruct (texts_after_alter (snd p) (fst p) r (write_ratings ws h)) as [Ht Hd].
  rewrite Ht, Hd. exact IH.
Qed.

Lemma run_rate_loop_app (ps rest : list (nat * pyval)) :
  Forall (fun p => is_dict (snd p) = true) ps ->
  forall (acc : list bool) (w : World),
    run (rate_loop (ps ++ rest) acc) w
    = run (rate_loop rest
             (acc ++ ((fun p => py_eq_str (verdict (snd p)) good_enough) <$> ps)))
          (mkWorld (sent w)
             (write_ratings ((fun p => (fst p, verdict (snd p))) <$> ps) (heap w))
             (log w) (accepted w)).
Proof.
  induction 1 as [|[r v] ps Hv _ IH]; intros acc w.
  - simpl. now rewrite app_nil_r, world_eta.
  - cbn [app rate_loop]. simpl in Hv.
    rewrite (run_bind_returned _ _ _ _ _ (py_get_dict v _ _ w Hv)).
    rewrite (run_bind_returned _ _ _ _ _ (py_get_dict v _ _ w Hv)).
    rewrite (run_bind_returned _ _ _ _ _ (eq_refl : run (set_rating _ _) w = _)).
    rewrite IH. cbn [sent heap log accepted fmap list_fmap].
    now rewrite <- app_assoc.
Qed.

Section MoreEvaluate.

Variable json_loads : string -> option pyval.
Variable backend : nat -> option string.

(** Whatever the reply, an evaluation is one request and some assignments
    of ratings to ideas of the batch. *)
Lemma evaluate_ideas_writes (ideas : list nat) (w : World) :
  exists ws,
    snd (run (evaluate_ideas json_loads backend ideas) w)
    = mkWorld (sent w ++ [EvaluationPrompt (ideas_to_json_in (heap w) ideas)])
        (write_ratings ws (heap w)) (log w) (accepted w)
    /\ forall r, r ∈ fst <$> ws -> r ∈ ideas.
Proof.
  unfold evaluate_ideas.
  rewrite (run_bind_returned _ _ _ _ _ (run_ideas_to_json ideas w)).
  destruct (backend (length (sent w))) as [reply|] eqn:Hreply.
  2:{ rewrite (run_bind_raised _ _ _ _ _ (run_query_absent _ _ _ w Hreply)).
      exists []. split; [reflexivity |]. intros r Hr. now apply elem_of_nil in Hr. }
  rewrite (run_bind_returned _ _ _ _ _ (run_query_text _ _ _ w reply Hreply)).
  rewrite (run_bind_returned _ _ _ _ _ (run_try_loads _ _ _)).
  destruct (json_loads (clean_json_response reply)) as [v|].
  2:{ rewrite (run_bind_returned _ _ _ _ _ (run_mark_all _ _)).
      eexists. split; [reflexivity |]. intros r Hr. now rewrite fst_marks in Hr. }
  unfold iter. destruct (py_iter v) as [ratings|].
  2:{ exists []. split; [reflexivity |]. intros r Hr. now apply elem_of_nil in Hr. }
  rewrite (run_bind_returned _ _ _ _ _ (eq_refl : run (ret ratings) _ = _)).
  assert (forall ps : list (nat * pyval),
             (forall p, p ∈ ps -> p ∈ zip ideas ratings) ->
             forall r, r ∈ fst <$> ((fun p => (fst p, verdict (snd p))) <$> ps) ->
                       r ∈ ideas) as Hin.
  { intros ps Hps r Hr. rewrite <- list_fmap_compose in Hr.
    apply list_elem_of_fmap in Hr as ([r' v'] & -> & Hp).
    apply Hps in Hp. now apply elem_of_zip_l in Hp. }
  destruct (decide (Forall (fun p : nat * pyval => is_dict (snd p) = true)
                      (zip ideas ratings))) as [Hd | Hno].
  - rewrite (run_rate_loop_dicts _ Hd). eexists. split; [reflexivity |].
    apply Hin. auto.
  - apply first_bad_pair in Hno as (pre & [r x] & post & Hzip & Hpre & Hx).
    rewrite Hzip, (run_rate_loop_app _ _ Hpre). cbn [rate_loop]. simpl in Hx.
    rewrite (run_bind_raised _ _ _ _ _ (py_get_other x _ _ _ Hx)).
    eexists. split; [reflexivity |]. apply Hin. intros p Hp.
    rewrite Hzip. apply elem_of_app. now left.
Qed.

(** X4: an evaluation sends one request, which carries the titles and the
    descriptions of the batch; however it ends, it leaves every title and
    description as it was, builds no object, writes nothing to the log and
    touches no object outside the batch. *)
Theorem evaluate_ideas_frame (ideas : list nat) (w : World) :
  let w' := snd (run (evaluate_ideas json_loads backend ideas) w) in
  sent w' = sent w ++ [EvaluationPrompt (ideas_to_json_in (heap w) ideas)]
  /\ log w' = log w
  /\ accepted w' = accepted w
  /\ length (heap w') = length (heap w)
  /\ (forall r, title (heap w' !!! r) = title (heap w !!! r)
                /\ description (heap w' !!! r) = description (heap w !!! r))
  /\ (forall r, r ∉ ideas -> heap w' !! r = heap w !! r).
Proof.
  destruct (evaluate_ideas_writes ideas w) as (ws & Hw & Hin).
  cbv zeta. rewrite Hw. cbn [sent heap log accepted].
  repeat split; try apply write_ratings_texts.
  - apply length_write_ratings.
  - intros r Hr. apply write_ratings_other. intros H. exact (Hr (Hin r H)).
Qed.

(** X5: with one verdict object per idea the result has one boolean per
    idea, [True] exactly for the rating "Good enough"; each idea is left
    with the rating of its verdict, "Needs improvement" when the verdict has
    none; verdicts beyond the batch are not looked at. *)
Theorem evaluate_ideas_rated (ideas : list nat) (w : World) (reply : string)
    (verdicts extra : list pyval) :
  NoDup ideas ->
  (forall r, r ∈ ideas -> r < length (heap w)) ->
  backend (length (sent w)) = Some reply ->
  json_loads (clean_json_response reply) = Some (PList (verdicts ++ extra)) ->
  length verdicts = length ideas ->
  Forall (fun v => is_dict v = true) verdicts ->
  exists w',
    run (evaluate_ideas json_loads backend ideas) w
    = (Returned ((fun v => py_eq_str (field v "rating" (PStr needs_improvement))
                              good_enough) <$> verdicts), w')
    /\ forall i r v, ideas !! i = Some r -> verdicts !! i = Some v ->
         rating (heap w' !!! r) = field v "rating" (PStr needs_improvement).
Proof.
  intros Hnd Hvalid Hreply Hparse Hlen Hd.
  assert (zip ideas (verdicts ++ extra) = zip ideas verdicts) as Hzip.
  { rewrite (zip_with_app_r pair ideas verdicts extra).
    rewrite (drop_ge ideas) by lia. rewrite (take_ge ideas) by lia.
    apply app_nil_r. }
  assert (Forall (fun p : nat * pyval => is_dict (snd p) = true) (zip ideas verdicts))
    as Hdz.
  { apply Forall_forall. intros [r v] Hin. apply elem_of_zip_r in Hin.
    exact (proj1 (Forall_forall _ _) Hd v Hin). }
  eexists. split.
  - unfold evaluate_ideas.
    rewrite (run_bind_returned _ _ _ _ _ (run_ideas_to_json ideas w)).
    rewrite (run_bind_returned _ _ _ _ _ (run_query_text _ _ _ w reply Hreply)).
    rewrite (run_bind_returned _ _ _ _ _ (run_try_loads _ _ _)).
    rewrite Hparse.
    rewrite (run_bind_returned _ _ _ _ _ (eq_refl : run (iter (PList _)) _ = _)).
    rewrite Hzip, (run_rate_loop_dicts _ Hdz). cbn [app].
    f_equal. f_equal.
    rewrite <- (snd_zip ideas verdicts) at 2 by lia.
    now rewrite <- list_fmap_compose.
  - intros i r v Hi Hv. cbn [heap].
    apply write_ratings_distinct.
    + rewrite <- list_fmap_compose.
      eapply sublist_NoDup; [exact Hnd | apply fst_zip_sublist].
    + apply list_elem_of_fmap. exists (r, v). split; [reflexivity |].
      apply (list_elem_of_lookup_2 _ i). now apply lookup_zip_Some.
    + apply Hvalid. eapply list_elem_of_lookup_2. exact Hi.
Qed.

(** X6: when the content is absent, or decodes to a value that cannot be
    iterated, the evaluation raises before it writes any rating. *)
Theorem evaluate_ideas_fails_before_rating (ideas : list nat) (w : World) :
  (backend (length (sent w)) = None ->
   run (evaluate_ideas json_loads backend ideas) w
   = (Raised BackendError,
      mkWorld (sent w ++ [EvaluationPrompt (ideas_to_json_in (heap w) ideas)])
        (heap w) (log w) (accepted w)))
  /\ (forall reply v,
        backend (length (sent w)) = Some reply ->
        json_loads (clean_json_response reply) = Some v ->
        match v with PList _ | PDict _ | PStr _ => False | _ => True end ->
        run (evaluate_ideas json_loads backend ideas) w
        = (Raised TypeError,
           mkWorld (sent w ++ [EvaluationPrompt (ideas_to_json_in (heap w) ideas)])
             (heap w) (log w) (accepted w))).
Proof.
  split.
  - intros Hreply. unfold evaluate_ideas.
    rewrite (run_bind_returned _ _ _ _ _ (run_ideas_to_json ideas w)).
    now rewrite (run_bind_raised _ _ _ _ _ (run_query_absent _ _ _ w Hreply)).
  - intros reply v Hreply Hparse Hv. unfold evaluate_ideas.
    rewrite (run_bind_returned _ _ _ _ _ (run_ideas_to_json ideas w)).
    rewrite (run_bind_returned _ _ _ _ _ (run_query_text _ _ _ w reply Hreply)).
    rewrite (run_bind_returned _ _ _ _ _ (run_try_loads _ _ _)).
    rewrite Hparse. destruct v; try contradiction; reflexivity.
Qed.

(** X7: a verdict that is not an object, met while ideas remain, stops the
    evaluation with [AttributeError]; the ideas before it keep the ratings
    they were just given and the others are not touched. *)
Theorem evaluate_ideas_stops_at_bad_verdict (ideas : list nat) (w : World)
    (reply : string) (pre post : list pyval) (x : pyval) :
  NoDup ideas ->
  (forall r, r ∈ ideas -> r < length (heap w)) ->
  backend (length (sent w)) = Some reply ->
  json_loads (clean_json_response reply) = Some (PList (pre ++ x :: post)) ->
  Forall (fun v => is_dict v = true) pre ->
  is_dict x = false ->
  length pre < length ideas ->
  exists w',
    run (evaluate_ideas json_loads backend ideas) w = (Raised AttributeError, w')
    /\ (forall i r v, ideas !! i = Some r -> pre !! i = Some v ->
          rating (heap w' !!! r) = field v "rating" (PStr needs_improvement))
    /\ (forall i r, ideas !! i = Some r -> length pre <= i ->
          heap w' !! r = heap w !! r).
Proof.
  intros Hnd Hvalid Hreply Hparse Hpre Hx Hlen.
  destruct (lookup_lt_is_Some_2 ideas (length pre) Hlen) as [r0 Hr0].
  assert (zip ideas (pre ++ x :: post)
          = zip (take (length pre) ideas) pre
              ++ (r0, x) :: zip (drop (S (length pre)) ideas) post) as Hzip.
  { rewrite (zip_with_app_r pair ideas pre (x :: post)).
    now rewrite (drop_S _ _ _ Hr0). }
  assert (Forall (fun p : nat * pyval => is_dict (snd p) = true)
            (zip (take (length pre) ideas) pre)) as Hdz.
  { apply Forall_forall. intros [r v] Hin. apply elem_of_zip_r in Hin.
    exact (proj1 (Forall_forall _ _) Hpre v Hin). }
  assert (forall r, r ∈ fst <$> ((fun p : nat * pyval => (fst p, verdict (snd p)))
                                  <$> zip (take (length pre) ideas) pre) ->
                    exists j, j < length pre /\ ideas !! j = Some r) as Hwritten.
  { intros r Hr. rewrite <- list_fmap_compose in Hr.
    apply list_elem_of_fmap in Hr as ([r' v'] & -> & Hp).
    apply elem_of_zip_l, elem_of_take in Hp as (j & Hj & Hlt). eauto. }
  eexists. split; [| split].
  - unfold evaluate_ideas.
    rewrite (run_bind_returned _ _ _ _ _ (run_ideas_to_json ideas w)).
    rewrite (run_bind_returned _ _ _ _ _ (run_query_text _ _ _ w reply Hreply)).
    rewrite (run_bind_returned _ _ _ _ _ (run_try_loads _ _ _)).
    rewrite Hparse.
    rewrite (run_bind_returned _ _ _ _ _ (eq_refl : run (iter (PList _)) _ = _)).
    rewrite Hzip, (run_rate_loop_app _ _ Hdz). cbn [rate_loop].
    now rewrite (run_bind_raised _ _ _ _ _ (py_get_other x _ _ _ Hx)).
  - intros i r v Hi Hv. cbn [heap].
    apply write_ratings_distinct.
    + rewrite <- list_fmap_compose.
      eapply sublist_NoDup; [| apply fst_zip_sublist].
      eapply sublist_NoDup; [exact Hnd | apply sublist_take].
    + apply list_elem_of_fmap. exists (r, v). split; [reflexivity |].
      apply (list_elem_of_lookup_2 _ i). apply lookup_zip_Some. split; [| exact Hv].
      rewrite lookup_take_lt; [exact Hi |]. now apply lookup_lt_Some in Hv.
    + apply Hvalid. eapply list_elem_of_lookup_2. exact Hi.
  - intros i r Hi Hge. cbn [heap]. apply write_ratings_other. intros Hr.
    apply Hwritten in Hr as (j & Hj & Hrj).
    assert (i = j) by (eapply NoDup_lookup; eauto). lia.
Qed.

End MoreEvaluate.

(** ** Runs of [generate_ideas] that the replies determine *)

Lemma filter_none (l : list nat) (P : nat -> Prop) `{!forall x, Decision (P x)} :
  (forall x, x ∈ l -> ~ P x) -> filter P l = [].
Proof.
  induction l as [|x l IH]; intros Hall; [reflexivity |].
  rewrite filter_cons_False by (apply Hall, list_elem_of_here).
  apply IH. intros y Hy. apply Hall. now apply list_elem_of_further.
Qed.

Lemma picked_all_true (needs : list nat) (k : nat) :
  picked needs (replicate k true) = take k needs
  /\ rejected needs (replicate k true) = [].
Proof.
  revert k. induction needs as [|r needs IH]; intros k.
  - destruct k; split; reflexivity.
  - destruct k as [|k]; [split; reflexivity |].
    cbn [replicate]. rewrite picked_cons, rejected_cons.
    destruct (IH k) as [-> ->]. split; reflexivity.
Qed.

Lemma fmap_all_true {A} (f : A -> bool) (l : list A) :
  (forall x, x ∈ l -> f x = true) -> f <$> l = replicate (length l) true.
Proof.
  induction l as [|x l IH]; intros Hall; [reflexivity |].
  cbn [fmap list_fmap length replicate].
  rewrite (Hall x) by apply list_elem_of_here.
  f_equal. apply IH. intros y Hy. apply Hall. now apply list_elem_of_further.
Qed.

Lemma write_ratings_nil (h : list IdeaItem) : write_ratings [] h = h.
Proof. reflexivity. Qed.

Lemma item_eq (it : IdeaItem) (t d r : pyval) :
  title it = t -> description it = d -> rating it = r -> it = mkIdeaItem t d r.
Proof. destruct it. simpl. now intros -> -> ->. Qed.

Section Scenarios.

Variable json_loads : string -> option pyval.
Variable backend : nat -> option string.

(** X8: when the first generation reply is a non-empty array of objects and
    the first evaluation reply an array of verdicts that all say
    "Good enough", the run ends in its first pass after two requests; it
    returns, in order, the ideas that have a verdict, rated "Good enough";
    an idea without a verdict is built, stays unrated and is not returned. *)
Theorem generate_ideas_first_pass_all_good (w : World) (g e : string)
    (records verdicts : list pyval) :
  records <> [] ->
  backend (length (sent w)) = Some g ->
  json_loads (clean_json_response g) = Some (PList records) ->
  Forall (fun v => is_dict v = true) records ->
  backend (S (length (sent w))) = Some e ->
  json_loads (clean_json_response e) = Some (PList verdicts) ->
  Forall (fun v => is_dict v = true
                   /\ field v "rating" (PStr needs_improvement) = PStr good_enough)
         verdicts ->
  exists w',
    run (generate_ideas json_loads backend) w
    = (Returned (seq (length (heap w)) (length records `min` length verdicts)), w')
    /\ log w' = log w ++ [LogAttempt 1; LogAllGood]
    /\ length (sent w') = length (sent w) + 2
    /\ forall i v, records !! i = Some v ->
         heap w' !!! (length (heap w) + i)
         = if decide (i < length verdicts)
           then with_rating (PStr good_enough) (item_of v)
           else item_of v.
Proof.
  intros Hne Hg Hgp Hrec He Hep Hver.
  set (base := length (heap w)).
  set (n := length records). set (m := length verdicts).
  set (needs1 := seq base n).
  set (h1 := heap w ++ (item_of <$> records)).
  set (ws := (fun p : nat * pyval => (fst p, verdict (snd p))) <$> zip needs1 verdicts).
  assert (Forall (fun v => is_dict v = true) verdicts) as Hvd
    by (eapply Forall_impl; [exact Hver | now intros v [? ?]]).
  assert ((fun p : nat * pyval => py_eq_str (verdict (snd p)) good_enough)
            <$> zip needs1 verdicts = replicate (n `min` m) true) as Hbs.
  { assert (length (zip needs1 verdicts) = n `min` m) as <-
      by (rewrite length_zip; unfold needs1; now rewrite length_seq).
    apply fmap_all_true. intros [r v] Hz. apply elem_of_zip_r in Hz.
    apply (proj1 (Forall_forall _ _) Hver) in Hz as [_ Hz].
    unfold verdict. simpl. now rewrite Hz. }
  assert (NoDup (fst <$> ws)) as Hwnd.
  { unfold ws. rewrite <- list_fmap_compose.
    eapply sublist_NoDup; [apply (NoDup_seq base n) | apply fst_zip_sublist]. }
  assert (forall i v, records !! i = Some v ->
            write_ratings ws h1 !!! (base + i)
            = if decide (i < m) then with_rating (PStr good_enough) (item_of v)
              else item_of v) as Hobj.
  { intros i v Hi.
    assert (i < n) as Hin by (now apply lookup_lt_Some in Hi).
    assert (h1 !!! (base + i) = item_of v) as Hh1.
    { unfold h1. rewrite lookup_total_app_r by (unfold base; lia).
      replace (base + i - length (heap w)) with i by (unfold base; lia).
      apply list_lookup_total_correct. now rewrite list_lookup_fmap, Hi. }
    destruct (write_ratings_texts ws h1 (base + i)) as [Ht Hd].
    case_decide as Hlt.
    - destruct (lookup_lt_is_Some_2 verdicts i Hlt) as [x Hx].
      apply item_eq; [now rewrite Ht, Hh1 | now rewrite Hd, Hh1 |].
      destruct (proj1 (Forall_forall _ _) Hver x (list_elem_of_lookup_2 _ _ _ Hx))
        as [_ <-].
      apply write_ratings_distinct; [exact Hwnd | |].
      + apply list_elem_of_fmap. exists (base + i, x). split; [reflexivity |].
        apply (list_elem_of_lookup_2 _ i). apply lookup_zip_Some.
        split; [| exact Hx]. unfold needs1. now apply lookup_seq_lt.
      + unfold h1. rewrite length_app, length_fmap. unfold base, n in *. lia.
    - rewrite (lookup_total_eq h1); [exact Hh1 |].
      apply write_ratings_other. intros Hr. unfold ws in Hr.
      rewrite <- list_fmap_compose in Hr.
      apply list_elem_of_fmap in Hr as ([r' v'] & Hr' & Hp). simpl in Hr'. subst r'.
      apply list_elem_of_lookup in Hp as (j & Hj).
      apply lookup_zip_Some in Hj as [Hj1 Hj2].
      apply lookup_seq in Hj1 as [Hj1 _]. apply lookup_lt_Some in Hj2.
      unfold m in *. lia. }
  assert (filter (fun idea => is_weak (write_ratings ws h1) idea = true) needs1 = [])
    as Hfilter.
  { apply filter_none. intros r Hr. unfold needs1 in Hr.
    apply elem_of_seq in Hr as [Hr1 Hr2].
    destruct (lookup_lt_is_Some_2 records (r - base)) as [v Hv]; [unfold n in *; lia |].
    specialize (Hobj _ _ Hv). replace (base + (r - base)) with r in Hobj by lia.
    unfold is_weak. rewrite Hobj. now case_decide. }
  set (w0 := mkWorld (sent w) (heap w) (log w ++ [LogAttempt 1]) (accepted w)).
  set (w1 := mkWorld (sent w ++ [GenerationPrompt]) h1 (log w ++ [LogAttempt 1])
               (accepted w)).
  assert (run (generate_initial json_loads backend []) w0 = (Returned (Some needs1), w1))
    as Hgen.
  { unfold generate_initial.
    rewrite (run_bind_returned _ _ _ _ _ (run_query_text _ _ _ w0 g Hg)).
    rewrite run_try_parse, Hgp, run_parse_ideas_list,
      (parse_ideas_loop_dicts _ Hrec). reflexivity. }
  assert (is_empty needs1 = false) as Hne1.
  { unfold needs1, n. destruct records; [congruence | reflexivity]. }
  set (w2 := mkWorld
               (sent w1 ++ [EvaluationPrompt (ideas_to_json_in (heap w1) needs1)])
               (write_ratings ws h1) (log w1)
               (accepted w1 ++ seq base (n `min` m))).
  assert (run (evaluate_and_sort json_loads backend [] needs1) w1
          = (Returned (seq base (n `min` m), []), w2)) as Hsort.
  { unfold evaluate_and_sort.
    assert (backend (length (sent w1)) = Some e) as He1.
    { unfold w1. cbn [sent]. rewrite length_app. simpl.
      now replace (length (sent w) + 1) with (S (length (sent w))) by lia. }
    rewrite (run_bind_returned _ _ _ _ _
               (evaluate_ideas_verdicts json_loads backend needs1 w1 e verdicts
                  He1 Hep Hvd)).
    rewrite Hbs.
    rewrite (run_bind_returned _ _ _ _ _
               (run_sort_loop (replicate (n `min` m) true) 0 needs1 [] _
                  ltac:(rewrite length_replicate; unfold needs1;
                        rewrite length_seq; lia))).
    rewrite drop_0. destruct (picked_all_true needs1 (n `min` m)) as [-> ->].
    cbn [fmap list_fmap sent heap log accepted app].
    rewrite write_ratings_nil.
    match goal with
    | |- run (bind get_heap _) ?x = _ =>
        rewrite (run_bind_returned _ _ _ _ _ (eq_refl : run get_heap x = _))
    end.
    cbn [heap]. fold ws. change (heap w1) with h1. rewrite Hfilter.
    assert (take (n `min` m) needs1 = seq base (n `min` m)) as ->.
    { unfold needs1. rewrite take_seq. f_equal. lia. }
    reflexivity. }
  exists (mkWorld (sent w2) (heap w2) (log w2 ++ [LogAllGood]) (accepted w2)).
  split; [| split; [| split]].
  - assert (run (loop_body json_loads backend frame0) w
            = (Returned (Return (mkFrame 1 (seq base (n `min` m)) [])
                           (seq base (n `min` m))),
               mkWorld (sent w2) (heap w2) (log w2 ++ [LogAllGood]) (accepted w2)))
      as Hbody.
    { unfold loop_body.
      cbn [attempts good_enough_ideas needs_improvement_ideas frame0 is_empty andb].
      rewrite (run_bind_returned _ _ _ _ _ (eq_refl : run (logging _) w = _)).
      fold w0. rewrite (run_bind_returned _ _ _ _ _ Hgen). rewrite Hne1.
      rewrite (run_bind_returned _ _ _ _ _ Hsort). reflexivity. }
    rewrite run_generate_ideas. cbn [while_loop].
    change (attempts frame0 <? max_attempts) with true. cbn iota.
    rewrite (run_bind_returned _ _ _ _ _ Hbody). reflexivity.
  - cbn [log w2 w1]. now rewrite <- app_assoc.
  - cbn [sent w2 w1]. rewrite !length_app. simpl. lia.
  - intros i v Hi. cbn [heap w2]. apply Hobj, Hi.
Qed.

Lemma while_loop_never_parsed (fuel : nat) :
  forall (a : nat) (w : World),
    a <= max_attempts ->
    max_attempts - a < fuel ->
    (forall k, k < max_attempts - a ->
               exists s, backend (length (sent w) + k) = Some s
                         /\ json_loads (clean_json_response s) = None) ->
    run (while_loop json_loads backend fuel (mkFrame a [] [])) w
    = (Returned (mkFrame max_attempts [] [], []),
       mkWorld (sent w ++ replicate (max_attempts - a) GenerationPrompt)
         (heap w)
         (log w ++ (seq (a + 1) (max_attempts - a)
                      ≫= fun n => [LogAttempt n; LogInitialParseFailed])
                ++ [LogMaxAttempts])
         (accepted w)).
Proof.
  induction fuel as [|fuel IH]; intros a w Hle Hfuel Hfail; [lia |].
  cbn [while_loop attempts].
  destruct (a <? max_attempts) eqn:Hlt.
  - apply Nat.ltb_lt in Hlt.
    destruct (Hfail 0 ltac:(lia)) as (s & Hs & Hp).
    rewrite Nat.add_0_r in Hs.
    assert (run (loop_body json_loads backend (mkFrame a [] [])) w
            = (Returned (Continue (mkFrame (a + 1) [] [])),
               mkWorld (sent w ++ [GenerationPrompt]) (heap w)
                 (log w ++ [LogAttempt (a + 1); LogInitialParseFailed])
                 (accepted w))) as Hbody.
    { unfold loop_body.
      cbn [attempts good_enough_ideas needs_improvement_ideas is_empty andb].
      rewrite (run_bind_returned _ _ _ _ _ (eq_refl : run (logging _) w = _)).
      assert (run (generate_initial json_loads backend [])
                (mkWorld (sent w) (heap w) (log w ++ [LogAttempt (a + 1)])
                   (accepted w))
              = (Returned None,
                 mkWorld (sent w ++ [GenerationPrompt]) (heap w)
                   ((log w ++ [LogAttempt (a + 1)]) ++ [LogInitialParseFailed])
                   (accepted w))) as Hgen.
      { unfold generate_initial.
        rewrite (run_bind_returned _ _ _ _ _
                   (run_query_text _ _ _
                      (mkWorld (sent w) (heap w) (log w ++ [LogAttempt (a + 1)])
                         (accepted w)) s Hs)).
        now rewrite run_try_parse, Hp. }
      rewrite (run_bind_returned _ _ _ _ _ Hgen).
      now rewrite <- app_assoc. }
    rewrite (run_bind_returned _ _ _ _ _ Hbody).
    rewrite IH; [| lia | lia |].
    + cbn [sent heap log accepted].
      replace (max_attempts - a) with (S (max_attempts - (a + 1))) by lia.
      cbn [replicate seq mbind list_bind].
      replace (S (a + 1)) with (a + 1 + 1) by lia.
      now rewrite <- !app_assoc.
    + intros k Hk. cbn [sent]. rewrite length_app. simpl.
      destruct (Hfail (S k) ltac:(lia)) as (s' & Hs' & Hp').
      exists s'. split; [| exact Hp'].
      now replace (length (sent w) + 1 + k) with (length (sent w) + S k) by lia.
  - apply Nat.ltb_ge in Hlt. assert (a = max_attempts) as -> by lia.
    rewrite Nat.sub_diag. cbn [replicate seq mbind list_bind].
    rewrite (run_bind_returned _ _ _ _ _ (eq_refl : run (logging _) w = _)).
    cbn. now rewrite !app_nil_r.
Qed.

(** X9: when none of the generation replies decodes, the run asks for a
    generation at each of its [max_attempts] passes, asks for nothing else,
    builds no object and returns the empty list, without an error. *)
Theorem generate_ideas_never_parsed (w : World) :
  (forall k, k < max_attempts ->
             exists s, backend (length (sent w) + k) = Some s
                       /\ json_loads (clean_json_response s) = None) ->
  run (generate_ideas json_loads backend) w
  = (Returned [],
     mkWorld (sent w ++ replicate max_attempts GenerationPrompt)
       (heap w)
       (log w ++ (seq 1 max_attempts
                    ≫= fun n => [LogAttempt n; LogInitialParseFailed])
              ++ [LogMaxAttempts])
       (accepted w)).
Proof.
  intros Hfail. rewrite run_generate_ideas.
  change frame0 with (mkFrame 0 [] []).
  rewrite (while_loop_never_parsed (S max_attempts) 0 w); [reflexivity | | |].
  - lia.
  - unfold max_attempts. lia.
  - intros k Hk. apply Hfail. lia.
Qed.

End Scenarios.

(** ** Instances of the theorems above *)

Lemma parse_ideas_stops_at_bad_record_witness :
  run (parse_ideas (PList [PDict [("title", PStr "t")]; PStr "x"; PDict []])) world0
  = (Raised AttributeError,
     mkWorld [] [mkIdeaItem (PStr "t") (PStr "") PNone] [] []).
Proof.
  apply (parse_ideas_stops_at_bad_record [PDict [("title", PStr "t")]] [PDict []]
           (PStr "x") world0).
  - repeat constructor.
  - reflexivity.
Defined.

Lemma parse_ideas_returns_iff_witness :
  (exists l w', run (parse_ideas (PList [PDict []])) world0 = (Returned l, w'))
  /\ fst (run (parse_ideas (PInt 3)) world0) = Raised TypeError.
Proof.
  split.
  - apply (proj1 (parse_ideas_returns_iff (PList [PDict []]) world0)).
    left. exists [PDict []]. split; [reflexivity | repeat constructor].
  - apply (proj2 (parse_ideas_returns_iff (PInt 3) world0)). exact I.
Defined.

Lemma parse_ideas_only_allocates_witness :
  exists news,
    snd (run (parse_ideas (PList [PDict []])) world0) = mkWorld [] news [] []
    /\ Forall (fun it => rating it = PNone) news
    /\ [0] = seq 0 (length news).
Proof.
  destruct (parse_ideas_only_allocates (PList [PDict []]) world0)
    as (news & Hw & Hr & Hl).
  exists news. split; [exact Hw | split; [exact Hr |]].
  apply Hl. reflexivity.
Defined.

Lemma evaluate_ideas_frame_witness :
  heap (snd (run (evaluate_ideas JsonText.json_loads (replies [Some "[]"]) [0])
                 (mkWorld [] [mkIdeaItem (PStr "a") PNone PNone;
                              mkIdeaItem (PStr "b") PNone PNone] [] []))) !! 1
  = Some (mkIdeaItem (PStr "b") PNone PNone).
Proof.
  destruct (evaluate_ideas_frame JsonText.json_loads (replies [Some "[]"]) [0]
              (mkWorld [] [mkIdeaItem (PStr "a") PNone PNone;
                           mkIdeaItem (PStr "b") PNone PNone] [] []))
    as (_ & _ & _ & _ & _ & H).
  apply (H 1). intros Hin. apply list_elem_of_singleton in Hin. discriminate.
Defined.

Lemma evaluate_ideas_rated_witness :
  exists w',
    run (evaluate_ideas JsonText.json_loads
           (replies [Some (JsonText.dq "[{'rating': 'Good enough'}, {}, 7]")]) [0; 1])
        (mkWorld [] [mkIdeaItem (PStr "a") PNone PNone;
                     mkIdeaItem (PStr "b") PNone PNone] [] [])
    = (Returned [true; false], w')
    /\ rating (heap w' !!! 0) = PStr "Good enough"
    /\ rating (heap w' !!! 1) = PStr "Needs improvement".
Proof.
  destruct (evaluate_ideas_rated JsonText.json_loads
              (replies [Some (JsonText.dq "[{'rating': 'Good enough'}, {}, 7]")])
              [0; 1]
              (mkWorld [] [mkIdeaItem (PStr "a") PNone PNone;
                           mkIdeaItem (PStr "b") PNone PNone] [] [])
              (JsonText.dq "[{'rating': 'Good enough'}, {}, 7]")
              [PDict [("rating", PStr "Good enough")]; PDict []] [PInt 7])
    as (w' & Hrun & Hr).
  - repeat constructor; intros Hin; repeat (apply elem_of_cons in Hin as [Hin | Hin];
      [discriminate |]); now apply elem_of_nil in Hin.
  - intros r Hr. simpl.
    repeat (apply elem_of_cons in Hr as [-> | Hr]; [lia |]).
    now apply elem_of_nil in Hr.
  - reflexivity.
  - vm_compute. reflexivity.
  - reflexivity.
  - repeat constructor.
  - exists w'. split; [exact Hrun |]. split.
    + exact (Hr 0 0 _ eq_refl eq_refl).
    + exact (Hr 1 1 _ eq_refl eq_refl).
Defined.

Lemma evaluate_ideas_fails_before_rating_witness :
  fst (run (evaluate_ideas JsonText.json_loads (replies []) [0])
           (mkWorld [] [mkIdeaItem (PStr "a") PNone PNone] [] []))
  = Raised BackendError
  /\ fst (run (evaluate_ideas JsonText.json_loads (replies [Some "12"]) [0])
              (mkWorld [] [mkIdeaItem (PStr "a") PNone PNone] [] []))
     = Raised TypeError.
Proof.
  destruct (evaluate_ideas_fails_before_rating JsonText.json_loads (replies []) [0]
              (mkWorld [] [mkIdeaItem (PStr "a") PNone PNone] [] [])) as [H1 _].
  destruct (evaluate_ideas_fails_before_rating JsonText.json_loads
              (replies [Some "12"]) [0]
              (mkWorld [] [mkIdeaItem (PStr "a") PNone PNone] [] [])) as [_ H2].
  split.
  - rewrite H1; reflexivity.
  - rewrite (H2 "12" (PInt 12)); [reflexivity | reflexivity | | exact I].
    vm_compute. reflexivity.
Defined.

Lemma evaluate_ideas_stops_at_bad_verdict_witness :
  exists w',
    run (evaluate_ideas JsonText.json_loads
           (replies [Some (JsonText.dq "[{'rating': 'Good enough'}, 7]")]) [0; 1])
        (mkWorld [] [mkIdeaItem (PStr "a") PNone PNone;
                     mkIdeaItem (PStr "b") PNone PNone] [] [])
    = (Raised AttributeError, w')
    /\ rating (heap w' !!! 0) = PStr "Good enough"
    /\ heap w' !! 1 = Some (mkIdeaItem (PStr "b") PNone PNone).
Proof.
  destruct (evaluate_ideas_stops_at_bad_verdict JsonText.json_loads
              (replies [Some (JsonText.dq "[{'rating': 'Good enough'}, 7]")])
              [0; 1]
              (mkWorld [] [mkIdeaItem (PStr "a") PNone PNone;
                           mkIdeaItem (PStr "b") PNone PNone] [] [])
              (JsonText.dq "[{'rating': 'Good enough'}, 7]")
              [PDict [("rating", PStr "Good enough")]] [] (PInt 7))
    as (w' & Hrun & Hr & Hu).
  - repeat constructor; intros Hin; repeat (apply elem_of_cons in Hin as [Hin | Hin];
      [discriminate |]); now apply elem_of_nil in Hin.
  - intros r Hr. simpl.
    repeat (apply elem_of_cons in Hr as [-> | Hr]; [lia |]).
    now apply elem_of_nil in Hr.
  - reflexivity.
  - vm_compute. reflexivity.
  - repeat constructor.
  - reflexivity.
  - simpl. lia.
  - exists w'. split; [exact Hrun |]. split.
    + exact (Hr 0 0 _ eq_refl eq_refl).
    + apply (Hu 1 1 eq_refl). simpl. lia.
Defined.

Lemma generate_ideas_first_pass_all_good_witness :
  exists w',
    run (generate_ideas JsonText.json_loads
           (replies [Some (Example.json_array [Example.idea "1"; Example.idea "2"]);
                     Some (Example.json_array [Example.good_verdict])])) world0
    = (Returned [0], w')
    /\ log w' = [LogAttempt 1; LogAllGood]
    /\ heap w' !!! 1 = mkIdeaItem (PStr "2") (PStr "d") PNone.
Proof.
  destruct (generate_ideas_first_pass_all_good JsonText.json_loads
              (replies [Some (Example.json_array [Example.idea "1"; Example.idea "2"]);
                        Some (Example.json_array [Example.good_verdict])]) world0
              (Example.json_array [Example.idea "1"; Example.idea "2"])
              (Example.json_array [Example.good_verdict])
              [PDict [("title", PStr "1"); ("description", PStr "d")];
               PDict [("title", PStr "2"); ("description", PStr "d")]]
              [PDict [("rating", PStr "Good enough"); ("reason", PStr "r")]])
    as (w' & Hrun & Hlog & _ & Hobj).
  - discriminate.
  - reflexivity.
  - vm_compute. reflexivity.
  - repeat constructor.
  - reflexivity.
  - vm_compute. reflexivity.
  - repeat constructor.
  - exists w'. split; [exact Hrun | split; [exact Hlog |]].
    exact (Hobj 1 _ eq_refl).
Defined.

Lemma generate_ideas_never_parsed_witness :
  fst (run (generate_ideas JsonText.json_loads (fun _ => Some "no ideas")) world0)
  = Returned [].
Proof.
  rewrite (generate_ideas_never_parsed JsonText.json_loads (fun _ => Some "no ideas")
             world0); [reflexivity |].
  intros k _. exists "no ideas". split; reflexivity.
Defined.

(** ** Relations that every step keeps *)

Section Preserves.

Variable R : World -> World -> Prop.
Hypothesis R_refl : forall w, R w w.
Hypothesis R_trans : forall w1 w2 w3, R w1 w2 -> R w2 w3 -> R w1 w3.

Lemma preserves_ret {A} (a : A) : preserves R (ret a).
Proof. intros w. apply R_refl. Qed.

Lemma preserves_raise {A} (e : exn) : preserves R (@raise A e).
Proof. intros w. apply R_refl. Qed.

Lemma preserves_bind {A B} (m : M A) (k : A -> M B) :
  preserves R m -> (forall a, preserves R (k a)) -> preserves R (bind m k).
Proof.
  intros Hm Hk w. specialize (Hm w). rewrite run_bind.
  destruct (run m w) as [[a|e|] w1]; simpl in *; [| exact Hm | exact Hm].
  eapply R_trans; [exact Hm | apply Hk].
Qed.

Lemma preserves_try {A} (body handler : M A) :
  preserves R body -> preserves R handler ->
  preserves R (try_except_JSONDecodeError body handler).
Proof.
  intros Hb Hh w. specialize (Hb w). unfold run, try_except_JSONDecodeError in *.
  destruct (body w) as [[a|e|] w1]; simpl in *; try exact Hb.
  destruct e; try exact Hb.
  eapply R_trans; [exact Hb | apply Hh].
Qed.

End Preserves.

(** ** The ratings of the ideas in the two lists *)

Lemma py_eq_str_true (v : pyval) (s : string) : py_eq_str v s = true -> v = PStr s.
Proof.
  destruct v; simpl; try discriminate.
  intros H. apply String.eqb_eq in H. now subst.
Qed.

Lemma unrated_lookup (h news : list IdeaItem) (r : nat) :
  Forall (fun it => rating it = PNone) news ->
  length h <= r < length h + length news ->
  rating ((h ++ news) !!! r) = PNone.
Proof.
  intros Hnews [Hge Hlt]. rewrite lookup_total_app_r by exact Hge.
  destruct (lookup_lt_is_Some_2 news (r - length h) ltac:(lia)) as [it Hit].
  rewrite (list_lookup_total_correct _ _ _ Hit).
  exact (proj1 (Forall_forall _ _) Hnews it (list_elem_of_lookup_2 _ _ _ Hit)).
Qed.

Section Ratings.

Variable json_loads : string -> option pyval.
Variable backend : nat -> option string.

Lemma try_parse_heap (g : list nat -> list nat) (ev : event) (s : string)
    (w : World) (o : option (list nat)) (w' : World) :
  run (try_except_JSONDecodeError
         (do v <- loads json_loads s;
          do l <- parse_ideas v;
          ret (Some (g l)))
         (logging ev ;; ret None)) w = (Returned o, w') ->
  exists news,
    heap w' = heap w ++ news
    /\ Forall (fun it => rating it = PNone) news
    /\ forall l', o = Some l' -> l' = g (seq (length (heap w)) (length news)).
Proof.
  rewrite run_try_parse. destruct (json_loads s) as [v|].
  - destruct (parse_ideas_allocates v w) as (news & Hw & Hr & Hl).
    destruct (run (parse_ideas v) w) as [[l|e|] w1]; simpl in Hw, Hl;
      [| | discriminate].
    + intros [= <- <-]. exists news. subst w1. cbn [heap].
      split; [reflexivity | split; [exact Hr |]].
      intros l' [= <-]. now rewrite (Hl l eq_refl).
    + destruct e; try discriminate. intros [= <- <-].
      exists news. subst w1. cbn [heap].
      split; [reflexivity | split; [exact Hr | discriminate]].
  - intros [= <- <-]. exists []. cbn [heap]. rewrite app_nil_r.
    split; [reflexivity | split; [constructor | discriminate]].
Qed.

Lemma generate_initial_heap (needs : list nat) (w : World)
    (o : option (list nat)) (w' : World) :
  run (generate_initial json_loads backend needs) w = (Returned o, w') ->
  exists news,
    heap w' = heap w ++ news
    /\ Forall (fun it => rating it = PNone) news
    /\ forall l', o = Some l' -> l' = needs ++ seq (length (heap w)) (length news).
Proof.
  unfold generate_initial.
  destruct (backend (length (sent w))) as [text|] eqn:Hreply.
  - rewrite (run_bind_returned _ _ _ _ _ (run_query_text _ _ _ w text Hreply)).
    intros Hrun. apply (try_parse_heap (fun l => needs ++ l)) in Hrun. exact Hrun.
  - rewrite (run_bind_raised _ _ _ _ _ (run_query_absent _ _ _ w Hreply)).
    discriminate.
Qed.

Lemma improve_heap (good needs : list nat) (w : World)
    (o : option (list nat)) (w' : World) :
  run (improve json_loads backend good needs) w = (Returned o, w') ->
  exists news,
    heap w' = heap w ++ news
    /\ Forall (fun it => rating it = PNone) news
    /\ forall l', o = Some l' -> l' = seq (length (heap w)) (length news).
Proof.
  unfold improve.
  rewrite (run_bind_returned _ _ _ _ _ (run_ideas_to_json needs w)).
  rewrite (run_bind_returned _ _ _ _ _ (run_ideas_to_json good w)).
  destruct (backend (length (sent w))) as [text|] eqn:Hreply.
  - rewrite (run_bind_returned _ _ _ _ _ (run_query_text _ _ _ w text Hreply)).
    intros Hrun. apply (try_parse_heap (fun l => l)) in Hrun. exact Hrun.
  - rewrite (run_bind_raised _ _ _ _ _ (run_query_absent _ _ _ w Hreply)).
    discriminate.
Qed.

Lemma evaluate_and_sort_heap (good needs : list nat) (w : World)
    (good' needs' : list nat) (w' : World) :
  NoDup needs ->
  (forall r, r ∈ needs -> r < length (heap w)) ->
  run (evaluate_and_sort json_loads backend good needs) w
  = (Returned (good', needs'), w') ->
  (forall r, r ∉ needs -> heap w' !! r = heap w !! r)
  /\ (exists p, good' = good ++ p
                /\ forall r, r ∈ p ->
                     r ∈ needs /\ rating (heap w' !!! r) = PStr good_enough)
  /\ (forall r, r ∈ needs' ->
        r ∈ needs /\ rating (heap w' !!! r) = PStr needs_improvement).
Proof.
  intros Hn Hvalid. unfold evaluate_and_sort.
  destruct (evaluate_ideas_writes json_loads backend needs w) as (ws & Hw1 & Hws).
  destruct (run (evaluate_ideas json_loads backend needs) w) as [o w1] eqn:He.
  destruct (evaluate_ideas_spec json_loads backend needs w o w1 Hn Hvalid He)
    as [_ Ho].
  simpl in Hw1. rewrite run_bind, He.
  destruct o as [bs|e|]; [| discriminate | discriminate].
  destruct Ho as [Hle Hgood].
  rewrite (run_bind_returned _ _ _ _ _
             (run_sort_loop bs 0 needs good w1 ltac:(simpl; lia))).
  rewrite drop_0.
  match goal with
  | |- run (bind get_heap _) ?w2 = _ -> _ =>
      rewrite (run_bind_returned _ _ _ _ _ (eq_refl : run get_heap w2 = _))
  end.
  intros [= <- <- <-]. cbn [heap].
  assert (forall r, r ∈ rejected needs bs -> r ∈ needs) as Hrej.
  { intros r Hr. apply elem_of_rejected in Hr as (i & Hi & _).
    eapply list_elem_of_lookup_2. exact Hi. }
  assert (forall r, r ∈ picked needs bs -> r ∈ needs) as Hpn
    by (intros r Hr; eapply elem_of_sublist; [exact Hr | apply picked_sublist]).
  split; [| split].
  - intros r Hr. rewrite write_ratings_other.
    + subst w1. cbn [heap]. apply write_ratings_other.
      intros H. exact (Hr (Hws r H)).
    + rewrite fst_marks. intros H. exact (Hr (Hrej r H)).
  - exists (picked needs bs). split; [reflexivity |].
    intros r Hr. split; [now apply Hpn |].
    rewrite (lookup_total_eq (heap w1)).
    + pose proof Hr as Hr'. apply elem_of_picked in Hr' as (i & Hi & Hbi).
      apply py_eq_str_true. eauto.
    + apply write_ratings_other. rewrite fst_marks.
      now apply picked_not_rejected.
  - intros r Hr. apply list_elem_of_filter in Hr as [Hweak Hr].
    split; [exact Hr |]. apply py_eq_str_true. exact Hweak.
Qed.

Lemma rated_ok_same_heap (f : Frame) (w w' : World) :
  heap w' = heap w -> rated_ok f w -> rated_ok f w'.
Proof. unfold rated_ok. now intros ->. Qed.

Lemma rated_after_allocation (a : nat) (good : list nat) (w w' : World)
    (news : list IdeaItem) :
  (forall r, r ∈ good -> r < length (heap w)) ->
  (forall r, r ∈ good -> rating (heap w !!! r) = PStr good_enough) ->
  heap w' = heap w ++ news ->
  Forall (fun it => rating it = PNone) news ->
  rated_ok (mkFrame a good (seq (length (heap w)) (length news))) w'.
Proof.
  intros Hvalid Hgood Hheap Hnews. split; cbn; intros r Hr; rewrite Hheap.
  - rewrite lookup_total_app_l by now apply Hvalid. now apply Hgood.
  - left. apply elem_of_seq in Hr. apply unrated_lookup; [exact Hnews | lia].
Qed.

Lemma improve_and_check_rated (a : nat) (good needs : list nat) (w : World)
    (c : ctrl) (w' : World) :
  frame_ok (mkFrame a good needs) w ->
  rated_ok (mkFrame a good needs) w ->
  run (improve_and_check json_loads backend a good needs) w = (Returned c, w') ->
  rated_ok (ctrl_frame c) w'.
Proof.
  intros (Hnd & Hvalid & _) Hrated. cbn in Hnd, Hvalid.
  pose proof Hrated as [Hgood Hneeds]. cbn in Hgood, Hneeds.
  assert (forall r, r ∈ good -> r < length (heap w)) as Hgv
    by (intros r Hr; apply Hvalid, elem_of_app; now left).
  unfold improve_and_check. destruct needs as [|x needs]; cbn [is_empty].
  - rewrite (run_bind_returned _ _ _ _ _ (eq_refl : run (ret (Some [])) w = _)).
    cbn [is_empty].
    rewrite (run_bind_returned _ _ _ _ _ (eq_refl : run (logging LogAllGood) w = _)).
    intros [= <- <-]. now apply (rated_ok_same_heap _ w).
  - destruct (run (improve json_loads backend good (x :: needs)) w) as [o w1] eqn:Hi.
    rewrite run_bind, Hi. destruct o as [o|e|]; [| discriminate | discriminate].
    apply improve_heap in Hi as (news & Hheap & Hnews & Hl).
    destruct o as [l'|].
    + rewrite (Hl l' eq_refl).
      pose proof (rated_after_allocation a good w w1 news Hgv Hgood Hheap Hnews)
        as Hnew.
      destruct (is_empty (seq (length (heap w)) (length news))) eqn:Hempty.
      * rewrite (run_bind_returned _ _ _ _ _
                   (eq_refl : run (logging LogAllGood) w1 = _)).
        intros [= <- <-]. now apply (rated_ok_same_heap _ w1).
      * now intros [= <- <-].
    + intros [= <- <-]. split; cbn; intros r Hr; rewrite Hheap.
      * rewrite lookup_total_app_l by now apply Hgv. now apply Hgood.
      * rewrite lookup_total_app_l by (apply Hvalid, elem_of_app; now right).
        now apply Hneeds.
Qed.

Lemma evaluate_improve_rated (a : nat) (good needs : list nat) (w : World)
    (c : ctrl) (w' : World) :
  frame_ok (mkFrame a good needs) w ->
  rated_ok (mkFrame a good needs) w ->
  run (do sorted <- (if is_empty needs then ret (good, needs)
                     else evaluate_and_sort json_loads backend good needs);
       improve_and_check json_loads backend a (fst sorted) (snd sorted)) w
  = (Returned c, w') ->
  rated_ok (ctrl_frame c) w'.
Proof.
  intros Hok Hrated. pose proof Hok as (Hnd & Hvalid & Hacc).
  cbn in Hnd, Hvalid, Hacc. pose proof Hrated as [Hgood _]. cbn in Hgood.
  destruct needs as [|x needs]; cbn [is_empty].
  - rewrite (run_bind_returned _ _ _ _ _ (eq_refl : run (ret (good, [])) w = _)).
    now apply improve_and_check_rated.
  - destruct (run (evaluate_and_sort json_loads backend good (x :: needs)) w)
      as [o w1] eqn:He.
    destruct (evaluate_and_sort_spec json_loads backend _ _ _ _ _ Hnd Hvalid He)
      as (Hlog & Hlen & Ho).
    rewrite run_bind, He.
    destruct o as [[good' needs']|e|]; [| discriminate | contradiction].
    destruct Ho as (Hnd' & Hvalid' & p & Hp & Ha). cbn [fst snd].
    pose proof Hnd as Hsplit. apply NoDup_app in Hsplit as (_ & Hdis & Hn).
    apply evaluate_and_sort_heap in He as (Hout & (p' & Hp' & Hrp) & Hweak);
      [| exact Hn | intros r Hr; apply Hvalid, elem_of_app; now right].
    apply improve_and_check_rated.
    + split; [exact Hnd' | split; cbn].
      * intros r Hr. rewrite Hlen. now apply Hvalid'.
      * congruence.
    + split; cbn.
      * intros r Hr. rewrite Hp' in Hr. apply elem_of_app in Hr as [Hr | Hr].
        -- rewrite (lookup_total_eq (heap w)); [now apply Hgood |].
           apply Hout. exact (Hdis r Hr).
        -- now apply Hrp.
      * intros r Hr. right. now apply Hweak.
Qed.

Lemma loop_body_rated (f : Frame) (w : World) (c : ctrl) (w' : World) :
  frame_ok f w -> rated_ok f w ->
  run (loop_body json_loads backend f) w = (Returned c, w') ->
  rated_ok (ctrl_frame c) w'.
Proof.
  intros Hok Hrated. unfold loop_body.
  rewrite (run_bind_returned _ _ _ _ _ (eq_refl : run (logging _) w = _)).
  set (w0 := mkWorld (sent w) (heap w) (log w ++ [LogAttempt (attempts f + 1)])
               (accepted w)).
  assert (frame_ok f w0) as Hok0 by (eapply frame_ok_grows; eauto).
  assert (rated_ok f w0) as Hrated0 by (now apply (rated_ok_same_heap _ w)).
  clearbody w0. clear Hok Hrated.
  destruct f as [a good needs].
  cbn [attempts good_enough_ideas needs_improvement_ideas] in *.
  destruct (is_empty good && is_empty needs) eqn:Hempty.
  - destruct good; [| discriminate]. destruct needs; [| discriminate].
    destruct (run (generate_initial json_loads backend []) w0) as [o w1] eqn:Hg.
    rewrite run_bind, Hg. destruct o as [o|e|]; [| discriminate | discriminate].
    destruct (generate_initial_spec json_loads backend _ _ _ _ Hg) as (Ha & Hlen & _).
    apply generate_initial_heap in Hg as (news & Hheap & Hnews & Hl).
    destruct o as [l'|].
    + rewrite (Hl l' eq_refl). cbn [app]. apply evaluate_improve_rated.
      * destruct Hok0 as (_ & _ & Hacc). cbn in Hacc.
        split; [| split]; cbn.
        -- apply NoDup_seq.
        -- intros r Hr. apply elem_of_seq in Hr. rewrite Hheap, length_app. lia.
        -- congruence.
      * apply (rated_after_allocation _ [] w0 w1 news); auto;
          intros r Hr; now apply elem_of_nil in Hr.
    + intros [= <- <-]. split; cbn; intros r Hr; now apply elem_of_nil in Hr.
  - rewrite (run_bind_returned _ _ _ _ _ (eq_refl : run (ret (Some needs)) w0 = _)).
    now apply evaluate_improve_rated.
Qed.

Lemma while_loop_rated (fuel : nat) :
  forall (f : Frame) (w : World) (f' : Frame) (res : list nat) (w' : World),
    frame_ok f w -> rated_ok f w ->
    run (while_loop json_loads backend fuel f) w = (Returned (f', res), w') ->
    rated_ok f' w'.
Proof.
  induction fuel as [|fuel IH]; intros f w f' res w' Hok Hrated; [discriminate |].
  cbn [while_loop]. destruct (attempts f <? max_attempts).
  - destruct (run (loop_body json_loads backend f) w) as [o w1] eqn:Hb.
    pose proof (loop_body_spec json_loads backend f w o w1 Hok Hb) as Hpost.
    rewrite run_bind, Hb. destruct o as [c|e|]; [| discriminate | discriminate].
    apply loop_body_rated in Hb; [| exact Hok | exact Hrated].
    destruct c as [f1|f1 r]; cbn in Hpost, Hb.
    + apply IH; [tauto | exact Hb].
    + now intros [= <- <- <-].
  - rewrite (run_bind_returned _ _ _ _ _ (eq_refl : run (logging _) w = _)).
    intros [= <- <- <-]. now apply (rated_ok_same_heap _ w).
Qed.

(** The ratings of the ideas of a result. *)
Lemma generate_ideas_ratings (w : World) (res : list nat) (w' : World) :
  accepted w = [] ->
  run (generate_ideas json_loads backend) w = (Returned res, w') ->
  (forall r, r ∈ accepted w' -> rating (heap w' !!! r) = PStr good_enough)
  /\ (forall r, r ∈ res -> r ∉ accepted w' ->
        rating (heap w' !!! r) = PNone
        \/ rating (heap w' !!! r) = PStr needs_improvement)
  /\ (forall es, log w' = log w ++ es -> LogAllGood ∈ es ->
        forall r, r ∈ res -> rating (heap w' !!! r) = PStr good_enough).
Proof.
  intros Hacc. rewrite run_generate_ideas.
  pose proof (generate_ideas_loop_post json_loads backend w Hacc)
    as (k & es0 & _ & Hlog & _ & Hout).
  destruct (run (while_loop _ _ _ _) w) as [[[f res0]|e0|] w1] eqn:Hloop;
    simpl in Hout, Hlog; [| discriminate | discriminate].
  intros [= <- <-].
  apply while_loop_rated in Hloop as [Hgood Hneeds]; [| now apply frame0_ok |].
  2:{ split; cbn; intros r Hr; now apply elem_of_nil in Hr. }
  destruct Hout as ((_ & _ & Hhist) & _ & Hexit).
  rewrite Hhist. split; [exact Hgood | split].
  - intros r Hr Hnot.
    destruct Hexit as [(_ & Hres & _) | (_ & _ & Hres)]; simpl in Hres; subst res0.
    + contradiction.
    + apply elem_of_app in Hr as [Hr | Hr]; [contradiction | now apply Hneeds].
  - intros es Hes Hin r Hr.
    assert (es0 = es) by (apply (app_inv_head (log w)); congruence). subst es0.
    destruct Hexit as [(_ & Hres & _) | (Hno & _)]; [| contradiction].
    simpl in Hres. subst res0. now apply Hgood.
Qed.

(** X12: when the run returns, every idea it ever accepted is rated
    "Good enough", and the other ideas of the result are rated
    "Needs improvement" or not rated at all; when it returned through the
    test of step 4, every idea of the result is rated "Good enough". *)
Theorem generate_ideas_result_ratings (w : World) (res : list nat) (w' : World) :
  accepted w = [] ->
  run (generate_ideas json_loads backend) w = (Returned res, w') ->
  (forall r, r ∈ accepted w' -> rating (heap w' !!! r) = PStr good_enough)
  /\ (forall r, r ∈ res -> r ∉ accepted w' ->
        rating (heap w' !!! r) = PNone
        \/ rating (heap w' !!! r) = PStr needs_improvement)
  /\ (forall es, log w' = log w ++ es -> LogAllGood ∈ es ->
        forall r, r ∈ res -> rating (heap w' !!! r) = PStr good_enough).
Proof. exact (generate_ideas_ratings w res w'). Qed.

End Ratings.

(** ** The end of the pipeline *)

Lemma print_themes_outcome (items : list (string * pyval)) :
  (snd (print_themes items) = None
   <-> Forall (fun kv => is_Some (py_iter (snd kv))) items)
  /\ (snd (print_themes items) = None \/ snd (print_themes items) = Some TypeError).
Proof.
  induction items as [|[theme titles] items [IH1 IH2]]; simpl.
  - split; [split; [constructor | reflexivity] | now left].
  - destruct (py_iter titles) as [ts|] eqn:Hts.
    + destruct (print_themes items) as [ls e]. simpl in *. split; [| exact IH2].
      rewrite IH1. split.
      * intros H. constructor; [simpl; rewrite Hts; eauto | exact H].
      * intros H. now apply Forall_cons in H as [_ H].
    + simpl. split; [| now right]. split; [discriminate |].
      intros H. apply Forall_cons in H as [[x Hx] _]. simpl in Hx. congruence.
Qed.

Lemma length_print_ideas (h : list IdeaItem) (final : list nat) :
  forall i, length (print_ideas h i final) = 4 * length final.
Proof.
  induction final as [|idea final IH]; intros i; [reflexivity |].
  cbn [print_ideas idea_lines app length]. rewrite IH. lia.
Qed.

Lemma print_ideas_ratings (h : list IdeaItem) (final : list nat) (r : pyval) :
  forall i, IdeaRating r ∈ print_ideas h i final ->
            exists idea, idea ∈ final /\ r = rating (h !!! idea).
Proof.
  induction final as [|idea final IH]; intros i; cbn [print_ideas idea_lines app].
  - intros H. now apply elem_of_nil in H.
  - rewrite !elem_of_cons. intros [H | [H | [H | [H | H]]]]; try discriminate.
    + injection H as ->. exists idea. split; [now left | reflexivity].
    + apply IH in H as (x & Hx & ->). exists x. split; [now right | reflexivity].
Qed.

Lemma print_themes_lines (items : list (string * pyval)) (l : line) :
  l ∈ fst (print_themes items) -> (exists n, l = Theme n) \/ exists t, l = ThemeTitle t.
Proof.
  induction items as [|[theme titles] items IH]; simpl.
  - intros H. now apply elem_of_nil in H.
  - destruct (py_iter titles) as [ts|].
    + destruct (print_themes items) as [ls e]. simpl in *.
      rewrite elem_of_cons, elem_of_app. intros [-> | [H | H]].
      * left. eauto.
      * apply list_elem_of_fmap in H as (t & -> & _). right. eauto.
      * now apply IH.
    + simpl. intros H. apply list_elem_of_singleton in H. left. eauto.
Qed.

Section MainProperties.

Variable json_loads : string -> option pyval.
Variable backend : nat -> option string.

(** X14: [main] ends normally exactly when [generate_ideas] returns and the
    categorization reply has a content that either does not decode (no
    theme is then printed) or decodes to an object whose values can all be
    iterated. *)
Theorem main_returns_iff (w : World) :
  fst (main json_loads backend w) = Returned tt
  <-> exists final w1,
        run (generate_ideas json_loads backend) w = (Returned final, w1)
        /\ exists reply,
             backend (length (sent w1)) = Some reply
             /\ (json_loads (clean_json_response reply) = None
                 \/ exists items,
                      json_loads (clean_json_response reply) = Some (PDict items)
                      /\ Forall (fun kv => is_Some (py_iter (snd kv))) items).
Proof.
  unfold main, categorize_ideas, calls.
  destruct (run (generate_ideas json_loads backend) w) as [[final|e|] w1].
  2,3: split; [discriminate | intros (? & ? & [=] & _)].
  cbn [world sent categorization_sent length]. rewrite Nat.add_0_r.
  destruct (backend (length (sent w1))) as [reply|] eqn:Hreply.
  2:{ split; [discriminate |].
      intros (f & x & [= <- <-] & r & Hr & _). congruence. }
  destruct (json_loads (clean_json_response reply)) as [categories|] eqn:Hparse.
  - split.
    + intros Hmain. exists final, w1. split; [reflexivity |].
      exists reply. split; [exact Hreply |]. right.
      destruct categories as [| | | | | |items]; try discriminate.
      exists items. split; [exact Hparse |].
      apply (proj1 (print_themes_outcome items)).
      destruct (print_themes items) as [ls [x|]]; [discriminate | reflexivity].
    + intros (f & x & [= <- <-] & r & Hr & Hcases).
      assert (r = reply) by congruence. subst r.
      destruct Hcases as [Hnone | (items & Hsome & Hall)]; [congruence |].
      assert (categories = PDict items) by congruence. subst categories.
      apply (proj1 (print_themes_outcome items)) in Hall.
      destruct (print_themes items) as [ls e]. simpl in Hall. now subst e.
  - split; [| reflexivity].
    intros _. exists final, w1. split; [reflexivity |].
    exists reply. split; [exact Hreply | now left].
Qed.

(** X15: once [generate_ideas] has returned from a fresh start, [main]
    prints every idea of the result, in order, numbered from 1, before
    anything else, then sends one request, which carries those ideas, and
    changes no idea; what follows the ideas is the heading of the themes with
    the themes and their titles; every rating it prints is "Good enough",
    "Needs improvement" or [None]. *)
Theorem main_prints_rated_ideas (w : World) (final : list nat) (w1 : World) :
  accepted w = [] ->
  run (generate_ideas json_loads backend) w = (Returned final, w1) ->
  let p := snd (main json_loads backend w) in
  heap (world p) = heap w1
  /\ categorization_sent p = [ideas_to_json_in (heap w1) final]
  /\ (exists themes,
        (printed p = FinalIdeas :: print_ideas (heap w1) 1 final ++ themes)
        /\ Forall (fun l => l = AffinityDiagram \/ (exists n, l = Theme n)
                            \/ exists t, l = ThemeTitle t) themes)
  /\ length (print_ideas (heap w1) 1 final) = 4 * length final
  /\ forall r, IdeaRating r ∈ printed p ->
       r = PStr good_enough \/ r = PStr needs_improvement \/ r = PNone.
Proof.
  intros Hacc Hrun p.
  assert (heap (world p) = heap w1
          /\ categorization_sent p = [ideas_to_json_in (heap w1) final]
          /\ exists themes,
               printed p = FinalIdeas :: print_ideas (heap w1) 1 final ++ themes
               /\ Forall (fun l => l = AffinityDiagram \/ (exists n, l = Theme n)
                                   \/ exists t, l = ThemeTitle t) themes)
    as (Hheap & Hsent & themes & Hprinted & Hthemes).
  { subst p. unfold main, categorize_ideas, calls. rewrite Hrun.
    cbn [world sent categorization_sent printed length app].
    destruct (backend _) as [reply|].
    2:{ cbn. repeat split. exists []. now rewrite app_nil_r. }
    assert (forall categories : pyval,
               let r := match categories with
                        | PDict items =>
                            let '(ls, e) := print_themes items in
                            (match e with None => Returned tt | Some x => Raised x end,
                             mkProcess w1 [ideas_to_json_in (heap w1) final]
                               ((FinalIdeas :: print_ideas (heap w1) 1 final
                                 ++ [AffinityDiagram]) ++ ls))
                        | _ => (Raised AttributeError,
                                mkProcess w1 [ideas_to_json_in (heap w1) final]
                                  (FinalIdeas :: print_ideas (heap w1) 1 final
                                   ++ [AffinityDiagram]))
                        end in
               heap (world (snd r)) = heap w1
               /\ categorization_sent (snd r) = [ideas_to_json_in (heap w1) final]
               /\ exists themes,
                    printed (snd r)
                    = FinalIdeas :: print_ideas (heap w1) 1 final ++ themes
                    /\ Forall (fun l => l = AffinityDiagram \/ (exists n, l = Theme n)
                                        \/ exists t, l = ThemeTitle t) themes) as Hcat.
    { intros categories.
      assert (Forall (fun l => l = AffinityDiagram \/ (exists n, l = Theme n)
                               \/ exists t, l = ThemeTitle t) [AffinityDiagram]) as H1
        by (constructor; [now left | constructor]).
      destruct categories as [|b|z|x|x|l|items]; cbn;
        try (repeat split; exists [AffinityDiagram]; split; [reflexivity | exact H1]).
      pose proof (print_themes_lines items) as Hl.
      destruct (print_themes items) as [ls e]. cbn in *.
      repeat split. exists (AffinityDiagram :: ls). split.
      - now rewrite <- app_assoc.
      - constructor; [now left |].
        apply Forall_forall. intros l Hin. right. now apply Hl. }
    destruct (json_loads _) as [categories|].
    - exact (Hcat categories).
    - exact (Hcat (PDict [])). }
  split; [exact Hheap | split; [exact Hsent | split]].
  { exists themes. split; [exact Hprinted | exact Hthemes]. }
  split; [apply length_print_ideas |].
  intros r Hr. rewrite Hprinted in Hr.
  apply elem_of_cons in Hr as [Hr | Hr]; [discriminate |].
  apply elem_of_app in Hr as [Hr | Hr].
  - apply print_ideas_ratings in Hr as (idea & Hin & ->).
    destruct (generate_ideas_ratings json_loads backend w final w1 Hacc Hrun)
      as (Hgood & Hweak & _).
    destruct (decide (idea ∈ accepted w1)) as [Ha | Ha].
    + left. now apply Hgood.
    + destruct (Hweak idea Hin Ha) as [-> | ->]; auto.
  - apply (proj1 (Forall_forall _ _) Hthemes) in Hr.
    destruct Hr as [Hr | [[n Hr] | [t Hr]]]; discriminate.
Qed.

End MainProperties.

(** ** How many requests a run sends *)

Lemma same_sent_refl (w : World) : same_sent w w.
Proof. reflexivity. Qed.

Lemma same_sent_trans (w1 w2 w3 : World) :
  same_sent w1 w2 -> same_sent w2 w3 -> same_sent w1 w3.
Proof. unfold same_sent. congruence. Qed.

Ltac sent_step :=
  first
    [ apply preserves_ret; exact same_sent_refl
    | apply preserves_raise; exact same_sent_refl
    | apply preserves_bind; [exact same_sent_trans | | intros ?]
    | apply preserves_try; [exact same_sent_trans | |]
    | match goal with
      | |- preserves _ (match ?x with _ => _ end) => destruct x
      end
    | now intros ? ].

Lemma loads_same_sent (json_loads : string -> option pyval) (s : string) :
  preserves same_sent (loads json_loads s).
Proof. unfold loads. destruct (json_loads s); sent_step. Qed.

Lemma py_get_same_sent (v : pyval) (key : string) (d : pyval) :
  preserves same_sent (py_get v key d).
Proof. destruct v; sent_step. Qed.

Lemma iter_same_sent (v : pyval) : preserves same_sent (iter v).
Proof. unfold iter. destruct (py_iter v); sent_step. Qed.

Lemma py_index_same_sent (l : list nat) (i : nat) : preserves same_sent (py_index l i).
Proof. unfold py_index. destruct (l !! i); sent_step. Qed.

Lemma parse_ideas_loop_same_sent (elems : list pyval) :
  forall acc, preserves same_sent (parse_ideas_loop elems acc).
Proof.
  induction elems as [|v elems IH]; intros acc; cbn [parse_ideas_loop].
  - sent_step.
  - sent_step; [apply py_get_same_sent |].
    sent_step; [apply py_get_same_sent |].
    sent_step; [now intros ? | apply IH].
Qed.

Lemma parse_ideas_same_sent (v : pyval) : preserves same_sent (parse_ideas v).
Proof.
  unfold parse_ideas. sent_step; [apply iter_same_sent |].
  apply parse_ideas_loop_same_sent.
Qed.

Lemma mark_all_same_sent (ideas : list nat) : preserves same_sent (mark_all ideas).
Proof.
  induction ideas as [|r ideas IH]; cbn [mark_all]; [sent_step |].
  sent_step; [now intros ? | exact IH].
Qed.

Lemma rate_loop_same_sent (pairs : list (nat * pyval)) :
  forall acc, preserves same_sent (rate_loop pairs acc).
Proof.
  induction pairs as [|[r v] pairs IH]; intros acc; cbn [rate_loop].
  - sent_step.
  - sent_step; [apply py_get_same_sent |].
    sent_step; [apply py_get_same_sent |].
    sent_step; [now intros ? | apply IH].
Qed.

Lemma sort_loop_same_sent (bs : list bool) :
  forall idx needs good, preserves same_sent (sort_loop bs idx needs good).
Proof.
  induction bs as [|b bs IH]; intros idx needs good; cbn [sort_loop].
  - sent_step.
  - sent_step; [apply py_index_same_sent |].
    destruct b; (sent_step; [now intros ? | apply IH]).
Qed.

Lemma sends_then {A B} (m : M A) (k : A -> M B) (n : nat) :
  (forall w, length (sent (snd (run m w))) = length (sent w) + n) ->
  (forall a, preserves same_sent (k a)) ->
  forall w, length (sent (snd (run (bind m k) w))) = length (sent w) + n.
Proof.
  intros Hm Hk w. rewrite run_bind. specialize (Hm w).
  destruct (run m w) as [[a|e|] w1]; simpl in *; try exact Hm.
  rewrite (Hk a w1). exact Hm.
Qed.

Lemma extends_sent_refl (w : World) : extends_sent w w.
Proof. exists []. now rewrite app_nil_r. Qed.

Lemma extends_sent_trans (w1 w2 w3 : World) :
  extends_sent w1 w2 -> extends_sent w2 w3 -> extends_sent w1 w3.
Proof.
  intros [ps1 H1] [ps2 H2]. exists (ps1 ++ ps2). now rewrite H2, H1, app_assoc.
Qed.

Lemma same_sent_extends {A} (m : M A) :
  preserves same_sent m -> preserves extends_sent m.
Proof. intros H w. exists []. now rewrite app_nil_r, (H w). Qed.

Ltac ext_step :=
  first
    [ apply preserves_ret; exact extends_sent_refl
    | apply preserves_raise; exact extends_sent_refl
    | apply preserves_bind; [exact extends_sent_trans | | intros ?]
    | apply preserves_try; [exact extends_sent_trans | |]
    | match goal with
      | |- preserves _ (match ?x with _ => _ end) => destruct x
      end ].

(** When [m] sends [p] first, so does [m] followed by [k]. *)
Lemma sends_first {A B} (m : M A) (k : A -> M B) (p : prompt) (w : World) :
  (exists ps, sent (snd (run m w)) = sent w ++ p :: ps) ->
  (forall a, preserves extends_sent (k a)) ->
  exists ps, sent (snd (run (bind m k) w)) = sent w ++ p :: ps.
Proof.
  intros [ps Hm] Hk. rewrite run_bind.
  destruct (run m w) as [[a|e|] w1]; simpl in *; eauto.
  destruct (Hk a w1) as [ps' H]. exists (ps ++ ps').
  now rewrite H, Hm, <- app_assoc.
Qed.

Section Requests.

Variable json_loads : string -> option pyval.
Variable backend : nat -> option string.

Lemma query_sends (s : string) (p : prompt) (w : World) :
  length (sent (snd (run (query backend s p) w))) = length (sent w) + 1.
Proof.
  unfold run, query. destruct (backend (length (sent w))); cbn;
    now rewrite length_app.
Qed.

Lemma try_parse_same_sent (g : list nat -> list nat) (ev : event) (s : string) :
  preserves same_sent
    (try_except_JSONDecodeError
       (do v <- loads json_loads s;
        do l <- parse_ideas v;
        ret (Some (g l)))
       (logging ev ;; ret None)).
Proof.
  sent_step.
  - sent_step; [apply loads_same_sent |].
    sent_step; [apply parse_ideas_same_sent | sent_step].
  - sent_step; [now intros ? | sent_step].
Qed.

Lemma evaluate_ideas_sends (ideas : list nat) (w : World) :
  length (sent (snd (run (evaluate_ideas json_loads backend ideas) w)))
  = length (sent w) + 1.
Proof.
  unfold evaluate_ideas.
  rewrite (run_bind_returned _ _ _ _ _ (run_ideas_to_json ideas w)).
  apply sends_then; [apply query_sends |]. intros reply.
  sent_step.
  - sent_step; [| sent_step].
    sent_step; [apply loads_same_sent | sent_step].
  - sent_step.
    + sent_step; [apply iter_same_sent | apply rate_loop_same_sent].
    + sent_step; [apply mark_all_same_sent | sent_step].
Qed.

Lemma generate_initial_sends (needs : list nat) (w : World) :
  length (sent (snd (run (generate_initial json_loads backend needs) w)))
  = length (sent w) + 1.
Proof.
  unfold generate_initial.
  apply sends_then; [apply query_sends |]. intros reply.
  apply (try_parse_same_sent (fun l => needs ++ l)).
Qed.

Lemma improve_sends (good needs : list nat) (w : World) :
  length (sent (snd (run (improve json_loads backend good needs) w)))
  = length (sent w) + 1.
Proof.
  unfold improve.
  rewrite (run_bind_returned _ _ _ _ _ (run_ideas_to_json needs w)).
  rewrite (run_bind_returned _ _ _ _ _ (run_ideas_to_json good w)).
  apply sends_then; [apply query_sends |]. intros reply.
  apply (try_parse_same_sent (fun l => l)).
Qed.

Lemma evaluate_and_sort_sends (good needs : list nat) (w : World) :
  length (sent (snd (run (evaluate_and_sort json_loads backend good needs) w)))
  = length (sent w) + 1.
Proof.
  unfold evaluate_and_sort.
  apply sends_then; [apply evaluate_ideas_sends |]. intros bs.
  sent_step; [apply sort_loop_same_sent |].
  sent_step; [now intros ? | sent_step].
Qed.

(** Steps 3 and 4 send one request when an idea is pending and none
    otherwise; they go back to the head of the loop only with a pending
    idea. *)
Lemma improve_and_check_requests (a : nat) (good needs : list nat) (w : World)
    (out : outcome ctrl) (w' : World) :
  run (improve_and_check json_loads backend a good needs) w = (out, w') ->
  length (sent w') = length (sent w) + (if is_empty needs then 0 else 1)
  /\ forall f', out = Returned (Continue f') -> no_ideas f' = false.
Proof.
  unfold improve_and_check. destruct needs as [|x needs]; cbn [is_empty].
  - rewrite (run_bind_returned _ _ _ _ _ (eq_refl : run (ret (Some [])) w = _)).
    cbn [is_empty].
    rewrite (run_bind_returned _ _ _ _ _ (eq_refl : run (logging LogAllGood) w = _)).
    intros [= <- <-]. cbn [sent]. split; [lia | discriminate].
  - pose proof (improve_sends good (x :: needs) w) as Hs.
    rewrite run_bind.
    destruct (run (improve json_loads backend good (x :: needs)) w)
      as [[[l|]|e|] w1]; cbn [snd] in Hs.
    + destruct l as [|y l]; cbn [is_empty].
      * rewrite (run_bind_returned _ _ _ _ _
                   (eq_refl : run (logging LogAllGood) w1 = _)).
        intros [= <- <-]. cbn [sent]. split; [exact Hs | discriminate].
      * intros [= <- <-]. split; [exact Hs |].
        intros f' [= <-]. unfold no_ideas. cbn. apply andb_false_r.
    + intros [= <- <-]. split; [exact Hs |].
      intros f' [= <-]. unfold no_ideas. cbn. apply andb_false_r.
    + intros [= <- <-]. split; [exact Hs | discriminate].
    + intros [= <- <-]. split; [exact Hs | discriminate].
Qed.

(** Steps 2 to 4. *)
Lemma evaluate_improve_requests (a : nat) (good needs : list nat) (w : World)
    (out : outcome ctrl) (w' : World) :
  run (do sorted <- (if is_empty needs then ret (good, needs)
                     else evaluate_and_sort json_loads backend good needs);
       improve_and_check json_loads backend a (fst sorted) (snd sorted)) w
  = (out, w') ->
  length (sent w) <= length (sent w') <= length (sent w) + 2
  /\ (needs = [] -> length (sent w') = length (sent w))
  /\ forall f', out = Returned (Continue f') -> no_ideas f' = false.
Proof.
  destruct needs as [|x needs]; cbn [is_empty].
  - rewrite (run_bind_returned _ _ _ _ _ (eq_refl : run (ret (good, [])) w = _)).
    cbn [fst snd]. intros Hrun.
    apply improve_and_check_requests in Hrun as [Hs Hc]. cbn [is_empty] in Hs.
    split; [lia | split; [intros _; lia | exact Hc]].
  - pose proof (evaluate_and_sort_sends good (x :: needs) w) as Hs.
    rewrite run_bind.
    destruct (run (evaluate_and_sort json_loads backend good (x :: needs)) w)
      as [[sorted|e|] w1]; cbn [snd] in Hs.
    + intros Hrun. apply improve_and_check_requests in Hrun as [Hs' Hc].
      split; [| split; [discriminate | exact Hc]].
      destruct (is_empty (snd sorted)); lia.
    + intros [= <- <-]. split; [lia | split; discriminate].
    + intros [= <- <-]. split; [lia | split; discriminate].
Qed.

(** One pass sends at most three requests, at most two when there are ideas
    already, and at least one when there is none; a pass that leaves no idea
    behind found none and sent one request. *)
Lemma loop_body_requests (f : Frame) (w : World) (out : outcome ctrl) (w' : World) :
  run (loop_body json_loads backend f) w = (out, w') ->
  length (sent w) + (if no_ideas f then 1 else 0) <= length (sent w')
  /\ length (sent w') <= length (sent w) + (if no_ideas f then 3 else 2)
  /\ forall f', out = Returned (Continue f') ->
       attempts f' = attempts f + 1
       /\ (no_ideas f' = true ->
           no_ideas f = true /\ length (sent w') = length (sent w) + 1).
Proof.
  intros Hrun.
  assert (forall f', out = Returned (Continue f') -> attempts f' = attempts f + 1)
    as Hatt.
  { intros f' ->. exact (loop_body_attempts _ _ _ _ _ _ Hrun). }
  revert Hrun. unfold loop_body.
  rewrite (run_bind_returned _ _ _ _ _ (eq_refl : run (logging _) w = _)).
  set (w0 := mkWorld (sent w) (heap w) (log w ++ [LogAttempt (attempts f + 1)])
               (accepted w)).
  change (length (sent w)) with (length (sent w0)). clearbody w0.
  fold (no_ideas f). destruct (no_ideas f) eqn:Hno.
  - pose proof (generate_initial_sends (needs_improvement_ideas f) w0) as Hg.
    rewrite run_bind.
    destruct (run (generate_initial json_loads backend _) w0)
      as [[[needs1|]|e|] w1]; cbn [snd] in Hg.
    + intros Hrun. apply evaluate_improve_requests in Hrun as (Hs & _ & Hc).
      split; [lia | split; [lia |]].
      intros f' Hf'. split; [now apply Hatt |].
      intros Hempty. rewrite (Hc f' Hf') in Hempty. discriminate.
    + intros [= <- <-]. split; [lia | split; [lia |]].
      intros f' Hf'. split; [now apply Hatt |]. intros _. split; [reflexivity | lia].
    + intros [= <- <-]. split; [lia | split; [lia | discriminate]].
    + intros [= <- <-]. split; [lia | split; [lia | discriminate]].
  - rewrite (run_bind_returned _ _ _ _ _
               (eq_refl : run (ret (Some (needs_improvement_ideas f))) w0 = _)).
    intros Hrun. apply evaluate_improve_requests in Hrun as (Hs & _ & Hc).
    split; [lia | split; [lia |]].
    intros f' Hf'. split; [now apply Hatt |].
    intros Hempty. rewrite (Hc f' Hf') in Hempty. discriminate.
Qed.

Lemma while_loop_requests (fuel : nat) :
  forall (f : Frame) (w : World),
    let w' := snd (run (while_loop json_loads backend fuel f) w) in
    length (sent w) <= length (sent w')
    /\ length (sent w') <= length (sent w) + requests_left f
    /\ (no_ideas f = true -> attempts f < max_attempts -> 0 < fuel ->
        length (sent w) + 1 <= length (sent w')).
Proof.
  induction fuel as [|fuel IH]; intros f w; cbn [while_loop].
  - cbn. split; [lia | split; [lia | intros _ _ H; lia]].
  - destruct (attempts f <? max_attempts) eqn:Hlt.
    + apply Nat.ltb_lt in Hlt.
      destruct (run (loop_body json_loads backend f) w) as [o w1] eqn:Hb.
      destruct (loop_body_requests f w o w1 Hb) as (Hlo & Hhi & Hc).
      assert (length (sent w1) <= length (sent w) + requests_left f) as Hone.
      { unfold requests_left in *. destruct (no_ideas f).
        - destruct (Nat.eqb_spec (max_attempts - attempts f) 0); lia.
        - lia. }
      rewrite run_bind, Hb.
      destruct o as [[f'|f' r]|e|]; cbn [snd run ret].
      * destruct (Hc f' eq_refl) as [Ha Hempty].
        destruct (IH f' w1) as (Hlo' & Hhi' & _).
        split; [destruct (no_ideas f); lia | split].
        -- unfold requests_left in *. rewrite Ha in Hhi'.
           destruct (no_ideas f') eqn:Hf'.
           ++ destruct (Hempty eq_refl) as [-> Hs].
              destruct (Nat.eqb_spec (max_attempts - (attempts f + 1)) 0);
                destruct (Nat.eqb_spec (max_attempts - attempts f) 0); lia.
           ++ destruct (no_ideas f);
                [destruct (Nat.eqb_spec (max_attempts - attempts f) 0) |]; lia.
        -- intros Hf _ _. rewrite Hf in Hlo.
           exact (Nat.le_trans _ _ _ Hlo Hlo').
      * split; [destruct (no_ideas f); lia | split; [exact Hone |]].
        intros Hf _ _. rewrite Hf in Hlo. lia.
      * split; [destruct (no_ideas f); lia | split; [exact Hone |]].
        intros Hf _ _. rewrite Hf in Hlo. lia.
      * split; [destruct (no_ideas f); lia | split; [exact Hone |]].
        intros Hf _ _. rewrite Hf in Hlo. lia.
    + apply Nat.ltb_ge in Hlt. cbn.
      split; [lia | split; [lia | intros _ H; lia]].
Qed.

Lemma query_extends (s : string) (p : prompt) :
  preserves extends_sent (query backend s p).
Proof.
  intros w. exists [p]. unfold run, query.
  now destruct (backend (length (sent w))).
Qed.

Lemma try_parse_extends (g : list nat -> list nat) (ev : event) (s : string) :
  preserves extends_sent
    (try_except_JSONDecodeError
       (do v <- loads json_loads s;
        do l <- parse_ideas v;
        ret (Some (g l)))
       (logging ev ;; ret None)).
Proof. apply same_sent_extends, try_parse_same_sent. Qed.

Lemma evaluate_ideas_extends (ideas : list nat) :
  preserves extends_sent (evaluate_ideas json_loads backend ideas).
Proof.
  unfold evaluate_ideas.
  ext_step; [apply same_sent_extends; now intros ? |].
  ext_step; [apply query_extends |].
  apply same_sent_extends. sent_step.
  - sent_step; [| sent_step].
    sent_step; [apply loads_same_sent | sent_step].
  - sent_step.
    + sent_step; [apply iter_same_sent | apply rate_loop_same_sent].
    + sent_step; [apply mark_all_same_sent | sent_step].
Qed.

Lemma improve_extends (good needs : list nat) :
  preserves extends_sent (improve json_loads backend good needs).
Proof.
  unfold improve.
  ext_step; [apply same_sent_extends; now intros ? |].
  ext_step; [apply same_sent_extends; now intros ? |].
  ext_step; [apply query_extends |].
  apply (try_parse_extends (fun l => l)).
Qed.

Lemma evaluate_and_sort_extends (good needs : list nat) :
  preserves extends_sent (evaluate_and_sort json_loads backend good needs).
Proof.
  unfold evaluate_and_sort.
  ext_step; [apply evaluate_ideas_extends |].
  apply same_sent_extends.
  sent_step; [apply sort_loop_same_sent |].
  sent_step; [now intros ? | sent_step].
Qed.

Lemma improve_and_check_extends (a : nat) (good needs : list nat) :
  preserves extends_sent (improve_and_check json_loads backend a good needs).
Proof.
  unfold improve_and_check. ext_step.
  - destruct (is_empty needs); [ext_step | apply improve_extends].
  - ext_step; [| ext_step].
    destruct (is_empty l); [| ext_step].
    ext_step; [apply same_sent_extends; now intros ? | ext_step].
Qed.

Lemma evaluate_improve_extends (a : nat) (good : list nat) (needs1 : option (list nat)) :
  preserves extends_sent
    match needs1 with
    | None => ret (Continue (mkFrame a good []))
    | Some needs1 =>
        do sorted <- (if is_empty needs1 then ret (good, needs1)
                      else evaluate_and_sort json_loads backend good needs1);
        improve_and_check json_loads backend a (fst sorted) (snd sorted)
    end.
Proof.
  destruct needs1 as [needs1|]; [| ext_step].
  ext_step; [| apply improve_and_check_extends].
  destruct (is_empty needs1); [ext_step | apply evaluate_and_sort_extends].
Qed.

Lemma loop_body_extends (f : Frame) :
  preserves extends_sent (loop_body json_loads backend f).
Proof.
  unfold loop_body. ext_step; [apply same_sent_extends; now intros ? |].
  ext_step.
  - destruct (_ && _); [| ext_step].
    unfold generate_initial. ext_step; [apply query_extends |].
    apply (try_parse_extends (fun l => needs_improvement_ideas f ++ l)).
  - ext_step; [| ext_step].
    ext_step; [| apply improve_and_check_extends].
    destruct (is_empty l); [ext_step | apply evaluate_and_sort_extends].
Qed.

Lemma while_loop_extends (fuel : nat) :
  forall f, preserves extends_sent (while_loop json_loads backend fuel f).
Proof.
  induction fuel as [|fuel IH]; intros f; cbn [while_loop].
  - intros w. apply extends_sent_refl.
  - destruct (attempts f <? max_attempts).
    + ext_step; [apply loop_body_extends |].
      ext_step; [apply IH | ext_step].
    + ext_step; [apply same_sent_extends; now intros ? | ext_step].
Qed.

(** The bounds on what a run sends. *)
Lemma generate_ideas_sends (w : World) :
  let w' := snd (run (generate_ideas json_loads backend) w) in
  length (sent w) + 1 <= length (sent w') <= length (sent w) + 11.
Proof.
  cbn zeta. unfold generate_ideas. rewrite run_bind.
  destruct (while_loop_requests (S max_attempts) frame0 w) as (_ & Hhi & Hlo).
  specialize (Hlo eq_refl ltac:(unfold max_attempts; cbn; lia) ltac:(lia)).
  change (requests_left frame0) with 11 in Hhi.
  destruct (run (while_loop json_loads backend (S max_attempts) frame0) w)
    as [[x|e|] w1]; cbn [snd run ret] in *; lia.
Qed.

(** X13: whatever the replies and however it ends, a run of
    [generate_ideas] keeps the requests already sent and adds from one to
    eleven: the generation request first, then at most ten others (two in
    the rest of the first pass and two in each of the four other passes). *)
Theorem generate_ideas_requests (w : World) :
  exists ps,
    sent (snd (run (generate_ideas json_loads backend) w))
    = sent w ++ GenerationPrompt :: ps
    /\ length ps <= 10.
Proof.
  assert (exists ps,
             sent (snd (run (generate_ideas json_loads backend) w))
             = sent w ++ GenerationPrompt :: ps) as [ps Hps].
  { unfold generate_ideas. apply sends_first; [| intros a; ext_step].
    cbn [while_loop]. change (attempts frame0 <? max_attempts) with true. cbv iota.
    apply sends_first.
    2:{ intros [f'|f' r]; [apply while_loop_extends | ext_step]. }
    unfold loop_body.
    rewrite (run_bind_returned _ _ _ _ _ (eq_refl : run (logging _) w = _)).
    set (w0 := mkWorld (sent w) (heap w) (log w ++ [LogAttempt (attempts frame0 + 1)])
                 (accepted w)).
    change (sent w) with (sent w0). clearbody w0.
    apply sends_first.
    2:{ intros o. apply (evaluate_improve_extends _ [] o). }
    cbn [frame0 good_enough_ideas needs_improvement_ideas is_empty andb].
    unfold generate_initial. apply sends_first.
    2:{ intros reply. apply (try_parse_extends (fun l => [] ++ l)). }
    exists []. unfold run, query. now destruct (backend (length (sent w0))). }
  exists ps. split; [exact Hps |].
  pose proof (generate_ideas_sends w) as [_ Hhi]. cbn zeta in Hhi.
  rewrite Hps, length_app in Hhi. cbn [length] in Hhi. lia.
Qed.

(** X17: [main] calls the model at most twelve times. *)
Theorem main_calls (w : World) :
  calls (snd (main json_loads backend w)) <= length (sent w) + 12.
Proof.
  pose proof (generate_ideas_sends w) as Hg. cbn zeta in Hg.
  unfold main, categorize_ideas, calls.
  destruct (run (generate_ideas json_loads backend) w) as [[final|e|] w1];
    cbn [snd] in Hg; cbn [snd world categorization_sent sent length app];
    [| lia | lia].
  rewrite Nat.add_0_r.
  destruct (backend (length (sent w1))) as [reply|]; [| cbn; lia].
  destruct (json_loads (clean_json_response reply)) as [categories|].
  - destruct categories; cbn; try lia.
    destruct (print_themes _) as [ls x]. cbn. lia.
  - cbn. lia.
Qed.

End Requests.

(** ** What [clean_json_response] returns is a part of the response *)

Lemma append_nil_r (s : string) : s +:+ EmptyString = s.
Proof. induction s as [|c s IH]; [reflexivity |]. now rewrite append_cons, IH. Qed.

Lemma substring_0_part (s : string) :
  forall m, exists post, s = String.substring 0 m s +:+ post.
Proof.
  induction s as [|c s IH]; intros [|m]; simpl.
  - now exists EmptyString.
  - now exists EmptyString.
  - now exists (String c s).
  - destruct (IH m) as (post & H). exists post. rewrite append_cons. now f_equal.
Qed.

Lemma substring_part (s : string) :
  forall n m, exists pre post, s = pre +:+ String.substring n m s +:+ post.
Proof.
  induction s as [|c s IH]; intros n m.
  - exists EmptyString, EmptyString. now destruct n, m.
  - destruct n as [|n].
    + destruct (substring_0_part (String c s) m) as (post & H).
      now exists EmptyString, post.
    + simpl. destruct (IH n m) as (pre & post & H).
      exists (String c pre), post. rewrite append_cons. now f_equal.
Qed.

Lemma lstrip_part (s : string) : exists pre, s = pre +:+ PyStr.lstrip s.
Proof.
  induction s as [|c s (pre & IH)]; simpl.
  - now exists EmptyString.
  - destruct (PyStr.is_space c).
    + exists (String c pre). rewrite append_cons. now f_equal.
    + now exists EmptyString.
Qed.

Lemma rstrip_part (s : string) : exists post, s = PyStr.rstrip s +:+ post.
Proof.
  induction s as [|c s (post & IH)]; simpl.
  - now exists EmptyString.
  - destruct (PyStr.rstrip s) as [|a r].
    + destruct (PyStr.is_space c).
      * now exists (String c s).
      * exists post. rewrite append_cons. f_equal. exact IH.
    + exists post. rewrite append_cons. f_equal. exact IH.
Qed.

Lemma strip_part (s : string) : exists pre post, s = pre +:+ PyStr.strip s +:+ post.
Proof.
  unfold PyStr.strip. destruct (rstrip_part s) as (post & Hr).
  destruct (lstrip_part (PyStr.rstrip s)) as (pre & Hl).
  exists pre, post. rewrite <- append_assoc, <- Hl. exact Hr.
Qed.

Lemma strip_slice_part (a b : nat) (s : string) :
  exists pre post, s = pre +:+ PyStr.strip (PyStr.slice a b s) +:+ post.
Proof.
  unfold PyStr.slice.
  destruct (substring_part s a (String.length s - b - a)) as (p1 & q1 & H1).
  destruct (strip_part (String.substring a (String.length s - b - a) s))
    as (p2 & q2 & H2).
  exists (p1 +:+ p2), (q2 +:+ q1).
  rewrite append_assoc, <- (append_assoc (PyStr.strip _)).
  rewrite <- (append_assoc p2), <- H2. exact H1.
Qed.

(** X18: [clean_json_response] adds nothing: what it returns stands in the
    response, in one piece, so it is never longer than the response; and
    unless the response is returned as it is, the result has no white space
    at either end. *)
Theorem clean_json_response_is_part (response : string) :
  (exists pre post, response = pre +:+ clean_json_response response +:+ post)
  /\ String.length (clean_json_response response) <= String.length response
  /\ (clean_json_response response = response
      \/ ((forall c t, clean_json_response response = String c t ->
                       PyStr.is_space c = false)
          /\ forall c, PyStr.last_char (clean_json_response response) = Some c ->
                       PyStr.is_space c = false)).
Proof.
  assert (exists pre post, response = pre +:+ clean_json_response response +:+ post)
    as Hpart.
  { unfold clean_json_response.
    destruct (_ && _); [apply strip_slice_part |].
    destruct (_ && _); [apply strip_slice_part |].
    exists EmptyString, EmptyString. now rewrite append_nil, append_nil_r. }
  split; [exact Hpart | split].
  - destruct Hpart as (pre & post & H).
    apply (f_equal String.length) in H. rewrite !length_append in H. lia.
  - unfold clean_json_response.
    destruct (_ && _); [right; apply strip_ends |].
    destruct (_ && _); [right; apply strip_ends |].
    now left.
Qed.

(** ** The texts of the ideas are those of the replies *)

Lemma idea_texts_alter (v : pyval) (r : nat) (h : list IdeaItem) :
  idea_texts (alter (with_rating v) r h) = idea_texts h.
Proof.
  revert r. induction h as [|it h IH]; intros [|r]; simpl; try reflexivity.
  unfold idea_texts in *. simpl. f_equal. apply IH.
Qed.

Lemma idea_texts_item_of (records : list pyval) :
  idea_texts (item_of <$> records) = record_texts <$> records.
Proof. unfold idea_texts. rewrite <- list_fmap_compose. reflexivity. Qed.

Lemma same_texts_refl (w : World) : same_texts w w.
Proof. split; reflexivity. Qed.

Lemma same_texts_trans (w1 w2 w3 : World) :
  same_texts w1 w2 -> same_texts w2 w3 -> same_texts w1 w3.
Proof. unfold same_texts. intros [? ?] [? ?]. split; congruence. Qed.

Ltac same_step :=
  first
    [ apply preserves_ret; exact same_texts_refl
    | apply preserves_raise; exact same_texts_refl
    | apply preserves_bind; [exact same_texts_trans | | intros ?]
    | apply preserves_try; [exact same_texts_trans | |]
    | match goal with
      | |- preserves _ (match ?x with _ => _ end) => destruct x
      end
    | (intros ?; split; reflexivity) ].

Lemma set_rating_same_texts (r : nat) (v : pyval) :
  preserves same_texts (set_rating r v).
Proof. intros w. split; [reflexivity | apply idea_texts_alter]. Qed.

Lemma py_get_same_texts (v : pyval) (key : string) (d : pyval) :
  preserves same_texts (py_get v key d).
Proof. destruct v; same_step. Qed.

Lemma mark_all_same_texts (ideas : list nat) : preserves same_texts (mark_all ideas).
Proof.
  induction ideas as [|r ideas IH]; cbn [mark_all]; [same_step |].
  same_step; [apply set_rating_same_texts | exact IH].
Qed.

Lemma rate_loop_same_texts (pairs : list (nat * pyval)) :
  forall acc, preserves same_texts (rate_loop pairs acc).
Proof.
  induction pairs as [|[r v] pairs IH]; intros acc; cbn [rate_loop].
  - same_step.
  - same_step; [apply py_get_same_texts |].
    same_step; [apply py_get_same_texts |].
    same_step; [apply set_rating_same_texts | apply IH].
Qed.

Lemma sort_loop_same_texts (bs : list bool) :
  forall idx needs good, preserves same_texts (sort_loop bs idx needs good).
Proof.
  induction bs as [|b bs IH]; intros idx needs good; cbn [sort_loop].
  - same_step.
  - same_step; [unfold py_index; destruct (needs !! idx); same_step |].
    destruct b; same_step;
      [same_step | apply IH | apply set_rating_same_texts | apply IH].
Qed.

(** What [parse_ideas] builds: an object for each record of a first part
    of the elements, all of them objects. *)
Lemma parse_ideas_builds (v : pyval) (w : World) :
  exists built,
    snd (run (parse_ideas v) w)
    = mkWorld (sent w) (heap w ++ (item_of <$> built)) (log w) (accepted w)
    /\ Forall (fun d => is_dict d = true) built
    /\ forall d, d ∈ built -> exists elems, py_iter v = Some elems /\ d ∈ elems.
Proof.
  unfold parse_ideas, iter. destruct (py_iter v) as [elems|].
  - rewrite (run_bind_returned _ _ _ _ _ (eq_refl : run (ret elems) w = _)).
    destruct (decide (Forall (fun x => is_dict x = true) elems)) as [Hd | Hno].
    + exists elems. rewrite (parse_ideas_loop_dicts _ Hd).
      split; [reflexivity | split; [exact Hd | eauto]].
    + apply first_bad_record in Hno as (pre & x & post & -> & Hpre & Hx).
      exists pre. rewrite (run_parse_ideas_loop_app _ _ Hpre).
      cbn [parse_ideas_loop].
      rewrite (run_bind_raised _ _ _ _ _ (py_get_other x _ _ _ Hx)).
      split; [reflexivity | split; [exact Hpre |]].
      intros d Hin. eexists. split; [reflexivity |]. apply elem_of_app. now left.
  - exists []. cbn. rewrite app_nil_r, world_eta.
    split; [reflexivity | split; [constructor |]].
    intros d Hin. now apply elem_of_nil in Hin.
Qed.

Section Provenance.

Variable json_loads : string -> option pyval.
Variable backend : nat -> option string.

Lemma from_reply_wider (lo hi lo' hi' : nat) (d : pyval) :
  lo' <= lo -> hi <= hi' -> (from_reply json_loads backend) lo hi d -> (from_reply json_loads backend) lo' hi' d.
Proof.
  intros Hlo Hhi (k & reply & v & elems & Hk & H).
  exists k, reply, v, elems. split; [lia | exact H].
Qed.

Lemma texts_from_refl (w : World) : (texts_from json_loads backend) w w.
Proof.
  split; [lia |]. exists []. simpl. rewrite app_nil_r. split; [reflexivity | constructor].
Qed.

Lemma texts_from_trans (w1 w2 w3 : World) :
  (texts_from json_loads backend) w1 w2 -> (texts_from json_loads backend) w2 w3 -> (texts_from json_loads backend) w1 w3.
Proof.
  intros (Hl1 & r1 & H1 & F1) (Hl2 & r2 & H2 & F2). split; [lia |].
  exists (r1 ++ r2). split.
  - now rewrite H2, H1, fmap_app, app_assoc.
  - apply Forall_app. split.
    + eapply Forall_impl; [exact F1 |]. intros d. apply from_reply_wider; lia.
    + eapply Forall_impl; [exact F2 |]. intros d. apply from_reply_wider; lia.
Qed.

Lemma same_texts_from {A} (m : M A) :
  preserves same_texts m -> preserves (texts_from json_loads backend) m.
Proof.
  intros H w. destruct (H w) as [Hs Ht]. split; [rewrite Hs; lia |].
  exists []. simpl. rewrite app_nil_r. split; [exact Ht | constructor].
Qed.

Ltac from_step :=
  first
    [ apply preserves_ret; exact texts_from_refl
    | apply preserves_raise; exact texts_from_refl
    | apply preserves_bind; [exact texts_from_trans | | intros ?]
    | apply preserves_try; [exact texts_from_trans | |]
    | match goal with
      | |- preserves _ (match ?x with _ => _ end) => destruct x
      end
    | (apply same_texts_from; intros ?; split; reflexivity) ].

Lemma texts_from_built (w w' : World) (built : list pyval) :
  length (sent w) <= length (sent w') ->
  heap w' = heap w ++ (item_of <$> built) ->
  Forall (from_reply json_loads backend (length (sent w)) (length (sent w'))) built ->
  texts_from json_loads backend w w'.
Proof.
  intros Hs Hh Hf. split; [exact Hs |]. exists built. split; [| exact Hf].
  rewrite Hh. unfold idea_texts. rewrite fmap_app. f_equal. apply idea_texts_item_of.
Qed.

Lemma query_texts_from (system_message : string) (p : prompt) :
  preserves (texts_from json_loads backend) (query backend system_message p).
Proof.
  intros w. apply (texts_from_built _ _ []).
  - unfold run, query. destruct (backend (length (sent w))); cbn;
      rewrite length_app; lia.
  - unfold run, query. destruct (backend (length (sent w))); cbn;
      now rewrite app_nil_r.
  - constructor.
Qed.

(** The request and the decoding of its reply, as steps 1 and 3 do them. *)
Lemma query_parse_texts_from (g : list nat -> list nat) (ev : event)
    (system_message : string) (p : prompt) :
  preserves (texts_from json_loads backend)
    (do response <- query backend system_message p;
     try_except_JSONDecodeError
       (do v <- loads json_loads (clean_json_response response);
        do l <- parse_ideas v;
        ret (Some (g l)))
       (logging ev ;; ret None)).
Proof.
  intros w. pose proof (query_texts_from system_message p w) as Hq.
  rewrite run_bind.
  destruct (backend (length (sent w))) as [reply|] eqn:Hreply.
  2:{ rewrite (run_query_absent _ _ _ w Hreply) in *. exact Hq. }
  rewrite (run_query_text _ _ _ w reply Hreply) in *. cbn [snd] in Hq.
  assert (exists w1, w1 = mkWorld (sent w ++ [p]) (heap w) (log w) (accepted w)
                     /\ length (sent w1) = length (sent w) + 1
                     /\ heap w1 = heap w) as (w1 & <- & Hs & Hh).
  { eexists. split; [reflexivity |]. cbn [sent heap].
    split; [now rewrite length_app | reflexivity]. }
  rewrite run_try_parse.
  destruct (json_loads (clean_json_response reply)) as [v|] eqn:Hv.
  2:{ cbn [snd]. apply (texts_from_built _ _ []); cbn [sent heap].
      - lia.
      - now rewrite Hh, app_nil_r.
      - constructor. }
  destruct (parse_ideas_builds v w1) as (built & Hw & Hd & Hin).
  assert (forall l es,
             texts_from json_loads backend w
               (mkWorld (sent w1) (heap w1 ++ (item_of <$> built)) l es)) as Hbase.
  { intros l es. apply (texts_from_built _ _ built); cbn [sent heap].
    - lia.
    - now rewrite Hh.
    - apply Forall_forall. intros d Hdin.
      destruct (Hin d Hdin) as (elems & Hit & Hel).
      exists (length (sent w)), reply, v, elems.
      split; [lia |].
      split; [exact Hreply | split; [exact Hv | split; [exact Hit |]]].
      split; [exact Hel |]. exact (proj1 (Forall_forall _ _) Hd d Hdin). }
  destruct (run (parse_ideas v) w1) as [[l|e|] w2]; cbn [snd] in Hw; subst w2.
  - apply Hbase.
  - destruct e; apply Hbase.
  - apply Hbase.
Qed.

Lemma ideas_to_json_texts_from (ideas : list nat) :
  preserves (texts_from json_loads backend) (ideas_to_json ideas).
Proof. apply same_texts_from. intros w. split; reflexivity. Qed.

Lemma evaluate_ideas_texts_from (ideas : list nat) :
  preserves (texts_from json_loads backend) (evaluate_ideas json_loads backend ideas).
Proof.
  unfold evaluate_ideas.
  from_step; [apply ideas_to_json_texts_from |].
  from_step; [apply query_texts_from |].
  apply same_texts_from. same_step.
  - same_step; [| same_step].
    same_step; [unfold loads; destruct (json_loads _); same_step | same_step].
  - same_step.
    + same_step; [unfold iter; destruct (py_iter p); same_step |].
      apply rate_loop_same_texts.
    + same_step; [apply mark_all_same_texts | same_step].
Qed.

Lemma evaluate_and_sort_texts_from (good needs : list nat) :
  preserves (texts_from json_loads backend) (evaluate_and_sort json_loads backend good needs).
Proof.
  unfold evaluate_and_sort.
  from_step; [apply evaluate_ideas_texts_from |].
  apply same_texts_from.
  same_step; [apply sort_loop_same_texts |].
  same_step; same_step.
Qed.

Lemma improve_texts_from (good needs : list nat) :
  preserves (texts_from json_loads backend) (improve json_loads backend good needs).
Proof.
  unfold improve.
  from_step; [apply ideas_to_json_texts_from |].
  from_step; [apply ideas_to_json_texts_from |].
  apply (query_parse_texts_from (fun l => l)).
Qed.

Lemma improve_and_check_texts_from (a : nat) (good needs : list nat) :
  preserves (texts_from json_loads backend) (improve_and_check json_loads backend a good needs).
Proof.
  unfold improve_and_check. from_step.
  - destruct (is_empty needs); [from_step | apply improve_texts_from].
  - from_step; [| from_step].
    destruct (is_empty l); [| from_step].
    from_step; from_step.
Qed.

Lemma loop_body_texts_from (f : Frame) :
  preserves (texts_from json_loads backend) (loop_body json_loads backend f).
Proof.
  unfold loop_body. from_step; [from_step |].
  from_step.
  - destruct (_ && _); [| from_step].
    apply (query_parse_texts_from (fun l => needs_improvement_ideas f ++ l)).
  - from_step; [| from_step].
    from_step; [| apply improve_and_check_texts_from].
    destruct (is_empty l); [from_step | apply evaluate_and_sort_texts_from].
Qed.

Lemma while_loop_texts_from (fuel : nat) :
  forall f, preserves (texts_from json_loads backend) (while_loop json_loads backend fuel f).
Proof.
  induction fuel as [|fuel IH]; intros f; cbn [while_loop].
  - intros w. apply texts_from_refl.
  - destruct (attempts f <? max_attempts).
    + from_step; [apply loop_body_texts_from |].
      from_step; [apply IH | from_step].
    + from_step; from_step.
Qed.

(** X11: whatever the replies and however the run ends, the ideas carry
    the texts of the replies: every object that the run has built has the
    title and the description of an object record of a decoded reply to one
    of the requests of this run, read with the default [""], and every
    object, old or new, still has the title and the description it had when
    it was built -- an evaluation writes ratings only, and an improved idea
    is another object. *)
Theorem generate_ideas_texts_from_replies (w : World) :
  let w' := snd (run (generate_ideas json_loads backend) w) in
  exists records,
    idea_texts (heap w') = idea_texts (heap w) ++ (record_texts <$> records)
    /\ Forall ((from_reply json_loads backend) (length (sent w)) (length (sent w'))) records.
Proof.
  cbn zeta.
  assert (preserves (texts_from json_loads backend) (generate_ideas json_loads backend)) as H.
  { unfold generate_ideas. from_step; [apply while_loop_texts_from | from_step]. }
  exact (proj2 (H w)).
Qed.

End Provenance.

(** ** The index of step 2 is in range *)

Lemma rate_loop_length (pairs : list (nat * pyval)) :
  forall (acc bs : list bool) (w w' : World),
    run (rate_loop pairs acc) w = (Returned bs, w') ->
    length bs = length acc + length pairs.
Proof.
  induction pairs as [|[r v] pairs IH]; intros acc bs w w'; cbn [rate_loop].
  - intros [= <- _]. simpl. lia.
  - destruct (is_dict v) eqn:Hv.
    + rewrite (run_bind_returned _ _ _ _ _ (py_get_dict v _ _ w Hv)).
      rewrite (run_bind_returned _ _ _ _ _ (py_get_dict v _ _ w Hv)).
      rewrite (run_bind_returned _ _ _ _ _ (eq_refl : run (set_rating _ _) w = _)).
      intros Hrun. apply IH in Hrun. rewrite length_app in Hrun. simpl in *. lia.
    + rewrite (run_bind_raised _ _ _ _ _ (py_get_other v _ _ w Hv)). discriminate.
Qed.

Section InRange.

Variable json_loads : string -> option pyval.
Variable backend : nat -> option string.

(** X10: whenever [evaluate_ideas] returns, it returns at most one result
    for each idea -- exactly one when the reply does not decode -- so the
    loop of step 2, which reads [needs_improvement_ideas[idx]] for every
    result, never indexes out of range: it runs to its end, and appends to
    the good ideas exactly the ideas whose result is [True], in order. *)
Theorem evaluate_ideas_results_in_range (good needs : list nat) (w : World)
    (results : list bool) (w1 : World) :
  run (evaluate_ideas json_loads backend needs) w = (Returned results, w1) ->
  length results <= length needs
  /\ (forall reply, backend (length (sent w)) = Some reply ->
                    json_loads (clean_json_response reply) = None ->
                    results = replicate (length needs) false)
  /\ (forall idx, idx < length results -> is_Some (needs !! idx))
  /\ exists w2,
       run (sort_loop results 0 needs good) w1
       = (Returned (good ++ picked needs results), w2).
Proof.
  intros Hrun.
  assert (length results <= length needs
          /\ forall reply, backend (length (sent w)) = Some reply ->
                           json_loads (clean_json_response reply) = None ->
                           results = replicate (length needs) false) as [Hlen Hfail].
  { revert Hrun. unfold evaluate_ideas.
    rewrite (run_bind_returned _ _ _ _ _ (run_ideas_to_json needs w)).
    destruct (backend (length (sent w))) as [reply|] eqn:Hreply.
    2:{ rewrite (run_bind_raised _ _ _ _ _ (run_query_absent _ _ _ w Hreply)).
        discriminate. }
    rewrite (run_bind_returned _ _ _ _ _ (run_query_text _ _ _ w reply Hreply)).
    rewrite (run_bind_returned _ _ _ _ _ (run_try_loads _ _ _)).
    destruct (json_loads (clean_json_response reply)) as [v|] eqn:Hv.
    - unfold iter. destruct (py_iter v) as [ratings|]; [| discriminate].
      rewrite (run_bind_returned _ _ _ _ _ (eq_refl : run (ret ratings) _ = _)).
      intros Hrun. apply rate_loop_length in Hrun. rewrite length_zip in Hrun.
      simpl in Hrun. split; [lia |]. intros r [= <-]. congruence.
    - rewrite (run_bind_returned _ _ _ _ _ (run_mark_all _ _)).
      intros [= <- _]. rewrite length_replicate. split; [lia |]. reflexivity. }
  split; [exact Hlen | split; [exact Hfail | split]].
  - intros idx Hidx. apply lookup_lt_is_Some_2. lia.
  - eexists. rewrite run_sort_loop by (simpl; lia). rewrite drop_0. reflexivity.
Qed.

End InRange.

(** ** The exceptions of the last step *)

Lemma print_themes_bad_theme (pre post : list (string * pyval)) (theme : string)
    (x : pyval) :
  Forall (fun kv => is_Some (py_iter (snd kv))) pre ->
  py_iter x = None ->
  print_themes (pre ++ (theme, x) :: post)
  = (fst (print_themes pre) ++ [Theme theme], Some TypeError).
Proof.
  intros Hpre Hx. induction Hpre as [|[t ts] pre [l Hl] _ IH]; simpl.
  - now rewrite Hx.
  - simpl in Hl. rewrite Hl, IH. destruct (print_themes pre) as [ls e]. simpl.
    now rewrite <- app_assoc.
Qed.

Section LastStep.

Variable json_loads : string -> option pyval.
Variable backend : nat -> option string.

(** X16: once [generate_ideas] has returned, a categorization reply that
    decodes to a value that is not an object makes [main] raise
    [AttributeError], at [categories.items()], after the ideas and the
    heading of the themes are printed; and one that decodes to an object
    with a value that cannot be iterated makes it raise [TypeError] at the
    first such theme, after the themes before it are printed with their
    titles, and the name of that theme. *)
Theorem main_raises_on_bad_categories (w : World) (final : list nat) (w1 : World)
    (reply : string) (v : pyval) :
  run (generate_ideas json_loads backend) w = (Returned final, w1) ->
  backend (length (sent w1)) = Some reply ->
  json_loads (clean_json_response reply) = Some v ->
  (match v with PDict _ => False | _ => True end ->
   main json_loads backend w
   = (Raised AttributeError,
      mkProcess w1 [ideas_to_json_in (heap w1) final]
        (FinalIdeas :: print_ideas (heap w1) 1 final ++ [AffinityDiagram])))
  /\ (forall pre theme x post,
        v = PDict (pre ++ (theme, x) :: post) ->
        Forall (fun kv => is_Some (py_iter (snd kv))) pre ->
        py_iter x = None ->
        main json_loads backend w
        = (Raised TypeError,
           mkProcess w1 [ideas_to_json_in (heap w1) final]
             (FinalIdeas :: print_ideas (heap w1) 1 final ++ [AffinityDiagram]
              ++ fst (print_themes pre) ++ [Theme theme]))).
Proof.
  intros Hrun Hreply Hv. unfold main, categorize_ideas, calls. rewrite Hrun.
  cbn [world sent categorization_sent printed length app]. rewrite Nat.add_0_r.
  rewrite Hreply, Hv. split.
  - intros Hno. destruct v; try contradiction; reflexivity.
  - intros pre theme x post -> Hpre Hx.
    rewrite (print_themes_bad_theme pre post theme x Hpre Hx).
    cbn [world categorization_sent printed app]. f_equal. f_equal.
    now rewrite <- !app_assoc.
Qed.

End LastStep.

(** ** Instances of the theorems on runs and on [main] *)

Lemma generate_ideas_result_ratings_witness :
  rating (heap (snd (run (generate_ideas JsonText.json_loads Example.empty_improvement)
                         world0)) !!! 0)
  = PStr good_enough.
Proof.
  destruct (generate_ideas_result_ratings JsonText.json_loads Example.empty_improvement
              world0 [0]
              (snd (run (generate_ideas JsonText.json_loads Example.empty_improvement)
                        world0)))
    as (Hgood & _ & _).
  - reflexivity.
  - vm_compute. reflexivity.
  - apply Hgood.
    assert (accepted (snd (run (generate_ideas JsonText.json_loads
                                  Example.empty_improvement) world0)) = [0]) as ->
      by (vm_compute; reflexivity).
    now left.
Defined.

Lemma generate_ideas_requests_witness :
  exists ps,
    sent (snd (run (generate_ideas JsonText.json_loads Example.never_good) world0))
    = GenerationPrompt :: ps
    /\ length ps <= 10.
Proof.
  exact (generate_ideas_requests JsonText.json_loads Example.never_good world0).
Defined.

Lemma main_returns_iff_witness :
  fst (main JsonText.json_loads
         (replies [Some "[]"; Some (JsonText.dq "{'trust': ['a', 'b'], 'play': 'c'}")])
         world0)
  = Returned tt.
Proof.
  apply (proj2 (main_returns_iff JsonText.json_loads
                  (replies [Some "[]";
                            Some (JsonText.dq "{'trust': ['a', 'b'], 'play': 'c'}")])
                  world0)).
  exists [], (mkWorld [GenerationPrompt] [] [LogAttempt 1; LogAllGood] []).
  split; [vm_compute; reflexivity |].
  exists (JsonText.dq "{'trust': ['a', 'b'], 'play': 'c'}").
  split; [reflexivity |]. right.
  exists [("trust", PList [PStr "a"; PStr "b"]); ("play", PStr "c")].
  split; [vm_compute; reflexivity |].
  constructor; [eexists; reflexivity |].
  constructor; [eexists; reflexivity | constructor].
Defined.

Lemma main_prints_rated_ideas_witness :
  categorization_sent (snd (main JsonText.json_loads Example.empty_improvement world0))
  = [PList [PDict [("title", PStr "1"); ("description", PStr "d")]]].
Proof.
  destruct (main_prints_rated_ideas JsonText.json_loads Example.empty_improvement
              world0 [0]
              (snd (run (generate_ideas JsonText.json_loads Example.empty_improvement)
                        world0)))
    as (_ & H & _).
  - reflexivity.
  - vm_compute. reflexivity.
  - rewrite H. vm_compute. reflexivity.
Defined.

Lemma main_calls_witness :
  calls (snd (main JsonText.json_loads Example.never_good world0)) <= 12.
Proof. exact (main_calls JsonText.json_loads Example.never_good world0). Defined.

Lemma clean_json_response_is_part_witness :
  String.length (clean_json_response "```json [1] ```") <= 15.
Proof.
  exact (proj1 (proj2 (clean_json_response_is_part "```json [1] ```"))).
Defined.

(** The bounds are reached: the run in which no idea ever passes sends
    eleven requests, and [main] then a twelfth. *)
Lemma generate_ideas_eleven_requests :
  length (sent (snd (run (generate_ideas JsonText.json_loads Example.never_good)
                         world0))) = 11
  /\ calls (snd (main JsonText.json_loads Example.never_good world0)) = 12.
Proof. vm_compute. split; reflexivity. Qed.

Lemma evaluate_ideas_results_in_range_witness :
  exists w2,
    run (sort_loop [true] 0 [0; 1] [])
        (snd (run (evaluate_ideas JsonText.json_loads
                     (replies [Some (Example.json_array [Example.good_verdict])])
                     [0; 1])
                  (mkWorld [] [mkIdeaItem (PStr "a") (PStr "x") PNone;
                               mkIdeaItem (PStr "b") (PStr "y") PNone] [] [])))
    = (Returned [0], w2).
Proof.
  destruct (evaluate_ideas_results_in_range JsonText.json_loads
              (replies [Some (Example.json_array [Example.good_verdict])])
              [] [0; 1]
              (mkWorld [] [mkIdeaItem (PStr "a") (PStr "x") PNone;
                           mkIdeaItem (PStr "b") (PStr "y") PNone] [] [])
              [true]
              (snd (run (evaluate_ideas JsonText.json_loads
                           (replies [Some (Example.json_array [Example.good_verdict])])
                           [0; 1])
                        (mkWorld [] [mkIdeaItem (PStr "a") (PStr "x") PNone;
                                     mkIdeaItem (PStr "b") (PStr "y") PNone] [] []))))
    as (_ & _ & _ & H).
  - vm_compute. reflexivity.
  - exact H.
Defined.

Lemma generate_ideas_texts_from_replies_witness :
  exists records,
    idea_texts (heap (snd (run (generate_ideas JsonText.json_loads
                                  Example.copycat) world0)))
    = record_texts <$> records
    /\ Forall (from_reply JsonText.json_loads Example.copycat 0
                 (length (sent (snd (run (generate_ideas JsonText.json_loads
                                            Example.copycat) world0)))))
         records.
Proof.
  exact (generate_ideas_texts_from_replies JsonText.json_loads Example.copycat world0).
Defined.

Lemma main_raises_on_bad_categories_witness :
  main JsonText.json_loads (replies [Some "[]"; Some "[1]"]) world0
  = (Raised AttributeError,
     mkProcess (mkWorld [GenerationPrompt] [] [LogAttempt 1; LogAllGood] [])
       [PList []] [FinalIdeas; AffinityDiagram])
  /\ main JsonText.json_loads
       (replies [Some "[]"; Some (JsonText.dq "{'trust': ['a'], 'play': 1}")]) world0
     = (Raised TypeError,
        mkProcess (mkWorld [GenerationPrompt] [] [LogAttempt 1; LogAllGood] [])
          [PList []]
          [FinalIdeas; AffinityDiagram; Theme "trust"; ThemeTitle (PStr "a");
           Theme "play"]).
Proof.
  split.
  - destruct (main_raises_on_bad_categories JsonText.json_loads
                (replies [Some "[]"; Some "[1]"]) world0 []
                (mkWorld [GenerationPrompt] [] [LogAttempt 1; LogAllGood] [])
                "[1]" (PList [PInt 1])) as [H _].
    + vm_compute. reflexivity.
    + reflexivity.
    + vm_compute. reflexivity.
    + exact (H I).
  - destruct (main_raises_on_bad_categories JsonText.json_loads
                (replies [Some "[]"; Some (JsonText.dq "{'trust': ['a'], 'play': 1}")])
                world0 []
                (mkWorld [GenerationPrompt] [] [LogAttempt 1; LogAllGood] [])
                (JsonText.dq "{'trust': ['a'], 'play': 1}")
                (PDict [("trust", PList [PStr "a"]); ("play", PInt 1)])) as [_ H].
    + vm_compute. reflexivity.
    + reflexivity.
    + vm_compute. reflexivity.
    + apply (H [("trust", PList [PStr "a"])] "play" (PInt 1) []).
      * reflexivity.
      * constructor; [eexists; reflexivity | constructor].
      * reflexivity.
Defined.
